(** * The OpenVINO inference adapter of DeepChem

    A shallow embedding of [deepchem/models/openvino_model.py] and the
    properties of its asynchronous inference loop.

    The adapter drives an external inference engine.  The engine, the two
    training frameworks and the model optimizer are not part of the
    repository: they appear here as interfaces ([Engine], [Toolkit]) and the
    properties of the adapter are proved for every implementation of these
    interfaces that honours the stated contract.  A small simulated request
    pool ([Sim]) implements the interfaces so that every statement can be
    run on concrete data. *)

From stdpp Require Import base option list strings.
From Stdlib Require Import ZArith Lia.

Open Scope Z_scope.
Open Scope nat_scope.

(** ** Python values and exceptions *)

Inductive exn :=
| AssertionError (msg : string)
| Exception (msg : string)
| IndexError
| StopIteration
| AttributeError
| TypeError
| UnboundLocalError
| CalledProcessError (returncode : Z).

Inductive result (A : Type) :=
| Ok (a : A)
| Raise (e : exn).
Arguments Ok {A} a.
Arguments Raise {A} e.

(** [l[i]] with Python's rule for negative indices: [-1] is the last
    element; an index outside [-len, len) raises [IndexError]. *)
Definition py_index (len : nat) (i : Z) : option nat :=
  let j := if (i <? 0)%Z then (i + Z.of_nat len)%Z else i in
  if ((0 <=? j)%Z && (j <? Z.of_nat len)%Z)%bool then Some (Z.to_nat j) else None.

Definition py_getitem {A} (l : list A) (i : Z) : result A :=
  match py_index (length l) i with
  | Some j => match l !! j with Some x => Ok x | None => Raise IndexError end
  | None => Raise IndexError
  end.

Definition py_setitem {A} (l : list A) (i : Z) (x : A) : result (list A) :=
  match py_index (length l) i with
  | Some j => Ok (<[j:=x]> l)
  | None => Raise IndexError
  end.

(** ** numpy arrays

    An array with at least one axis: the entries along the first axis
    ([rows]) and the shape of each of them ([inner_shape]), so that
    [a.shape = [len(rows)] + inner_shape]. *)

Class Scalar (T : Type) := {
  zero : T;            (* the value np.zeros fills with *)
  float32 : T → T;     (* the cast an assignment into a float32 array applies *)
}.

Record ndarray (T : Type) := NDArray {
  rows : list (list T);
  inner_shape : list nat;
}.
Arguments NDArray {T} rows inner_shape.
Arguments rows {T} _.
Arguments inner_shape {T} _.

Section Arrays.
Context {T : Type} `{Scalar T}.

Definition shape (a : ndarray T) : list nat := length (rows a) :: inner_shape a.

Definition zero_row (sh : list nat) : list T := replicate (foldr Nat.mul 1 sh) zero.

(** [np.zeros(sh, dtype=np.float32)] for a shape [n :: inner]. *)
Definition np_zeros (n : nat) (inner : list nat) : ndarray T :=
  NDArray (replicate n (zero_row inner)) inner.

(** [dst[:n] = src]: the first [n] rows of [dst] are overwritten with the
    rows of [src], cast to the element type of [dst]. *)
Definition assign_prefix (dst : ndarray T) (n : nat) (src : ndarray T) : ndarray T :=
  NDArray (take n (map (map float32) (rows src)) ++ drop n (rows dst)) (inner_shape dst).

(** Lines 160-163: the batch copied into a zero array of [batch_size] rows. *)
Definition pad_batch (batch_size : nat) (inputs : ndarray T) : ndarray T :=
  let last_batch_size := length (rows inputs) in
  let inp := np_zeros batch_size (inner_shape inputs) in
  assign_prefix inp last_batch_size inputs.

(** [output[:n]] *)
Definition slice_prefix (n : nat) (output : ndarray T) : ndarray T :=
  NDArray (take n (rows output)) (inner_shape output).
End Arrays.

(** ** Batches, generators and [itertools.tee] *)

Section Generators.
Context {T : Type}.

(** A batch is the tuple [(inputs, labels, weights)], each a list of arrays. *)
Definition batch : Type := list (ndarray T) * list (ndarray T) * list (ndarray T).

(** The caller's generator and the buffer the tee iterators made from it
    share: [pending] is what the generator has not produced yet, [teed]
    what the tee iterators have pulled out of it so far, oldest first. *)
Record stream := Stream {
  pending : list batch;
  teed : list batch;
}.

Inductive pyiter :=
| Source                 (* the generator object itself *)
| TeeIter (pos : nat).   (* a tee iterator that has delivered [pos] items *)

(** [itertools.tee(it, 2)].  Two iterators over one shared buffer; a tee
    iterator is copied, keeping its position. *)
Definition tee (it : pyiter) (g : stream) : pyiter * pyiter :=
  match it with
  | Source => (TeeIter (length (teed g)), TeeIter (length (teed g)))
  | TeeIter p => (TeeIter p, TeeIter p)
  end.

(** [next(it)] *)
Definition next_iter (it : pyiter) (g : stream) : result (batch * pyiter * stream) :=
  match it with
  | Source =>
      match pending g with
      | [] => Raise StopIteration
      | b :: rest => Ok (b, Source, Stream rest (teed g))
      end
  | TeeIter p =>
      match teed g !! p with
      | Some b => Ok (b, TeeIter (S p), g)
      | None =>
          match pending g with
          | [] => Raise StopIteration
          | b :: rest => Ok (b, TeeIter (S p), Stream rest (teed g ++ [b]))
          end
      end
  end.

(** The items a [for] loop over [it] goes through, and the stream it
    leaves behind. *)
Definition remaining (it : pyiter) (g : stream) : list batch :=
  match it with
  | Source => pending g
  | TeeIter p => drop p (teed g ++ pending g)
  end.

Definition exhaust (it : pyiter) (g : stream) : stream :=
  match it with
  | Source => Stream [] (teed g)
  | TeeIter _ => Stream [] (teed g ++ pending g)
  end.
End Generators.
Arguments batch T : clear implicits.
Arguments stream T : clear implicits.

(** ** The external inference engine

    [E] is the state of an executable network ([exec_net]) together with its
    pool of inference requests.  Requests complete on their own, so every
    call into the engine returns the state the engine has reached by then. *)

Inductive StatusCode :=
| OK
| Failed (code : Z).   (* any other status *)

Definition is_OK (s : StatusCode) : bool :=
  match s with OK => true | Failed _ => false end.

Class Engine (T E : Type) := {
  input_info : E → list string;                    (* exec_net.input_info.keys() *)
  net_outputs : E → list string;                   (* exec_net.outputs.keys() *)
  num_requests : E → nat;                          (* len(exec_net.requests) *)
  get_idle_request_id : E → Z * E;                 (* exec_net.get_idle_request_id() *)
  wait : option nat → E → StatusCode * E;          (* exec_net.wait(num_requests=k), exec_net.wait() *)
  output_buffer : E → nat → string → ndarray T;    (* requests[i].output_blobs[name].buffer *)
  async_infer : nat → string → ndarray T → E → E;  (* requests[i].async_infer({name: x}) *)
}.

(** ** The frameworks and tools around the adapter *)

(** A node of a TensorFlow [GraphDef]: [node.name], [node.op] and the sizes
    [node.attr['shape'].shape.dim[k].size]. *)
Record NodeDef := {
  node_name : string;
  node_op : string;
  node_dims : list Z;
}.

Class Toolkit (E : Type) := {
  torch_module : Type;
  keras_model : Type;
  IENetwork : Type;
  (* what the import statements of lines 14-21 find at process start *)
  model_optimizer_mo_tf : bool;     (* from model_optimizer import mo_tf *)
  plain_mo_tf : bool;               (* import mo_tf *)
  inference_engine : bool;          (* from openvino.inference_engine import IECore, StatusCode *)
  sys_executable : string;
  mo_tf_file : string;              (* mo_tf.__file__ *)
  frozen_graph_def : keras_model → list NodeDef;     (* lines 80-83 *)
  SerializeToString : list NodeDef → string;
  onnx_export : torch_module → list nat → string;    (* lines 59-65, by the shape of the sample input *)
  subprocess_returncode : list string → Z;
  read_network : string → string → IENetwork;
  read_network_from_buffer : string → IENetwork;
  load_network : IENetwork → E;
}.

(** What the adapter asks of the world outside, in the order it asks. *)
Inductive event :=
| EvOnnxExport (inp_shape : list nat)
| EvReadNetworkFromBuffer (buf : string)
| EvFreezeGraph
| EvWriteFile (path content : string)
| EvSubprocessRun (args : list string) (check : bool)
| EvRemove (path : string)
| EvReadNetwork (xml bin : string)
| EvLoadNetwork (device : string) (config : list (string * string)) (num_req : nat).

(** Lines 14-25: the module-level flag. *)
Definition is_available `{Toolkit E} : bool :=
  (model_optimizer_mo_tf || plain_mo_tf) && inference_engine.

Inductive IECore := IECore_new.

Section Model.
Context {T E : Type} `{Scalar T} `{Engine T E} `{Toolkit E}.

Inductive model_handle :=
| TorchModule (m : torch_module)    (* isinstance(model, torch.nn.modules.module.Module) *)
| OtherModel (m : keras_model).

Record OpenVINOModel := {
  ie : option IECore;
  exec_net : option E;
  model : model_handle;
  model_dir : string;
  batch_size : nat;
  outputs : list (option (ndarray T));
}.

Definition set_exec_net (e : option E) (self : OpenVINOModel) : OpenVINOModel :=
  {| ie := ie self; exec_net := e; model := model self; model_dir := model_dir self;
     batch_size := batch_size self; outputs := outputs self |}.

Definition set_outputs (o : list (option (ndarray T))) (self : OpenVINOModel) : OpenVINOModel :=
  {| ie := ie self; exec_net := exec_net self; model := model self; model_dir := model_dir self;
     batch_size := batch_size self; outputs := o |}.

(** The object and the log of external effects.  A method is a function
    of this state; what it did to the state stays when it raises. *)
Record state := {
  self : OpenVINOModel;
  log : list event;
}.

Definition M (A : Type) : Type := state → result A * state.

#[export] Instance M_ret : MRet M := λ A a s, (Ok a, s).
#[export] Instance M_bind : MBind M := λ A B f m s,
  match m s with
  | (Ok a, s') => f a s'
  | (Raise e, s') => (Raise e, s')
  end.

Definition raise {A} (e : exn) : M A := λ s, (Raise e, s).
Definition lift {A} (r : result A) : M A := λ s, (r, s).
Definition get_self : M OpenVINOModel := λ s, (Ok (self s), s).
Definition modify_self (f : OpenVINOModel → OpenVINOModel) : M unit :=
  λ s, (Ok tt, {| self := f (self s); log := log s |}).
Definition emit (ev : event) : M unit :=
  λ s, (Ok tt, {| self := self s; log := log s ++ [ev] |}).
Definition py_assert (b : bool) (msg : string) : M unit :=
  if b then mret tt else raise (AssertionError msg).

(** A call into the engine held in [self.exec_net]. *)
Definition engine {A} (f : E → A * E) : M A := λ s,
  match exec_net (self s) with
  | Some e => let (a, e') := f e in (Ok a, {| self := set_exec_net (Some e') (self s); log := log s |})
  | None => (Raise AttributeError, s)
  end.

Definition engine_read {A} (f : E → A) : M A := engine (λ e, (f e, e)).

Definition the_core (self : OpenVINOModel) : M IECore :=
  match ie self with
  | Some core => mret core
  | None => raise AttributeError      (* an attribute of None *)
  end.

(** [for i, x in enumerate(items): l = body(i, x, l)] *)
Fixpoint for_enumerate {A L} (body : nat → A → L → M L) (i : nat) (items : list A) (l : L) : M L :=
  match items with
  | [] => mret l
  | x :: rest => l' ← body i x l; for_enumerate body (S i) rest l'
  end.

(** *** [is_available] and [__init__] (lines 35-41, 209-210) *)

Definition OpenVINOModel_is_available (self : OpenVINOModel) : bool := is_available.

Definition __init__ (model : model_handle) (model_dir : string) (batch_size : nat) : OpenVINOModel :=
  {| ie := if is_available then Some IECore_new else None;
     exec_net := None;
     model := model;
     model_dir := model_dir;
     batch_size := batch_size;
     outputs := [] |}.

(** *** [_read_torch_model] (lines 50-69) *)

Definition _read_torch_model (generator : pyiter) (g : stream T)
  : M (IENetwork * pyiter * stream T) :=
  self ← get_self;
  let '(generator_copy, generator) := tee generator g in
  '(b, generator_copy, g) ← lift (next_iter generator_copy g);
  let '(inputs, _, _) := b in
  _ ← py_assert (length inputs =? 1) "Not implemented";
  x ← lift (py_getitem inputs 0);
  let inp_shape := <[0 := batch_size self]> (shape x) in
  m ← match model self with
      | TorchModule m => mret m
      | OtherModel _ => raise TypeError
      end;
  let buf := onnx_export m inp_shape in
  _ ← emit (EvOnnxExport inp_shape);
  core ← the_core self;
  _ ← emit (EvReadNetworkFromBuffer buf);
  mret (read_network_from_buffer buf, generator, g).

(** *** [_read_tf_model] (lines 78-110) *)

(** [os.path.join] on POSIX paths. *)
Definition ends_with_slash (s : string) : bool :=
  match String.get (String.length s - 1) s with
  | Some c => Ascii.eqb c (Ascii.ascii_of_nat 47)
  | None => false
  end.

Definition path_join (a b : string) : string :=
  if String.prefix "/" b then b
  else if (String.length a =? 0) || ends_with_slash a then a +:+ b
  else a +:+ "/" +:+ b.

Definition set_batch_dim (batch_size : nat) (node : NodeDef) (rest : list Z) : NodeDef :=
  {| node_name := node_name node; node_op := node_op node;
     node_dims := Z.of_nat batch_size :: rest |}.

(** Lines 86-92.  [strip_and_pin bs i nodes] runs the iterations of
    [for i in reversed(range(len(graph_def.node)))] for the indices
    [i-1, ..., 0]. *)
Fixpoint strip_and_pin (batch_size : nat) (i : nat) (nodes : list NodeDef)
  : result (list NodeDef) :=
  match i with
  | 0 => Ok nodes
  | S i =>
      match nodes !! i with
      | None => Raise IndexError
      | Some node =>
          if String.eqb (node_op node) "Placeholder" then
            if String.prefix "unused_control_flow_input" (node_name node) then
              strip_and_pin batch_size i (delete i nodes)
            else
              match node_dims node with
              | [] => Raise IndexError
              | d :: rest =>
                  if (d =? -1)%Z then
                    strip_and_pin batch_size i (<[i := set_batch_dim batch_size node rest]> nodes)
                  else strip_and_pin batch_size i nodes
              end
          else strip_and_pin batch_size i nodes
      end
  end.

Definition mo_args (pb_model_path output_dir : string) : list string :=
  [sys_executable; mo_tf_file; "--input_model"; pb_model_path; "--output_dir"; output_dir]%string.

Definition _read_tf_model : M IENetwork :=
  self ← get_self;
  m ← match model self with
      | OtherModel m => mret m
      | TorchModule _ => raise TypeError
      end;
  (* Freeze Keras model *)
  _ ← emit EvFreezeGraph;
  let graph_def := frozen_graph_def m in
  (* Set batch size. Remove training inputs *)
  nodes ← lift (strip_and_pin (batch_size self) (length graph_def) graph_def);
  (* Save frozen graph *)
  let pb_model_path := path_join (model_dir self) "model.pb" in
  _ ← emit (EvWriteFile pb_model_path (SerializeToString nodes));
  (* Convert to OpenVINO IR; check=True raises on a nonzero return code *)
  let args := mo_args pb_model_path (model_dir self) in
  _ ← emit (EvSubprocessRun args true);
  _ ← (if (subprocess_returncode args =? 0)%Z then mret tt
       else raise (CalledProcessError (subprocess_returncode args)));
  _ ← emit (EvRemove pb_model_path);
  core ← the_core self;
  let xml := path_join (model_dir self) "model.xml" in
  let bin := path_join (model_dir self) "model.bin" in
  _ ← emit (EvReadNetwork xml bin);
  mret (read_network xml bin).

(** *** [_load_model] (lines 112-125) *)

Definition _load_model (generator : pyiter) (g : stream T) : M (pyiter * stream T) :=
  self ← get_self;
  _ ← py_assert (OpenVINOModel_is_available self) "";
  '(net, generator, g) ←
    match model self with
    | TorchModule _ => _read_torch_model generator g
    | OtherModel _ => net ← _read_tf_model; mret (net, generator, g)
    end;
  (* Load network to the device *)
  core ← the_core self;
  _ ← emit (EvLoadNetwork "CPU" [("CPU_THROUGHPUT_STREAMS", "CPU_THROUGHPUT_AUTO")]%string 0);
  _ ← modify_self (set_exec_net (Some (load_network net)));
  mret (generator, g).

(** *** [__call__] (lines 132-200) *)

(** The locals of [__call__] the loop carries: [infer_request_input_id]
    and [last_batch_size], which is unbound until the first iteration. *)
Definition locals : Type := list Z * option nat.

(** [keras_model] and [torch_model] enter only through [_prepare_batch];
    the hook maps the inputs of a batch to the prepared inputs. *)
Definition prepare_hook : Type := list (ndarray T) → list (ndarray T).

(** Lines 165-173: get idle infer request. *)
Definition idle_request : M Z :=
  infer_request_id ← engine get_idle_request_id;
  if (infer_request_id <? 0)%Z then
    status ← engine (wait (Some 1));
    if negb (is_OK status) then raise (Exception "Wait for idle request failed!")
    else
      infer_request_id ← engine get_idle_request_id;
      if (infer_request_id <? 0)%Z then raise (Exception "Invalid request id!")
      else mret infer_request_id
  else mret infer_request_id.

(** [self.exec_net.requests[i]]: the position of the request in the pool. *)
Definition request_at (i : Z) : M nat :=
  n ← engine_read num_requests;
  match py_index n i with
  | Some j => mret j
  | None => raise IndexError
  end.

Definition store_output (out_id : Z) (v : ndarray T) : M unit :=
  self ← get_self;
  o ← lift (py_setitem (outputs self) out_id (Some v));
  modify_self (set_outputs o).

(** Lines 147-185: the body of the loop over the batches. *)
Definition submit_batch (inp_name out_name : string)
    (keras_model torch_model : option prepare_hook)
    (inp_id : nat) (b : batch T) (l : locals) : M locals :=
  let '(infer_request_input_id, _) := l in
  let '(inputs, labels, weights) := b in
  let inputs :=
    match keras_model, torch_model with
    | Some k, _ => k inputs
    | None, Some t => t inputs
    | None, None => inputs
    end in
  inputs ← lift (py_getitem inputs 0);
  self ← get_self;
  (* Pad extra values by zeros and cut at the end. *)
  let last_batch_size := length (rows inputs) in
  inputs ←
    (if negb (last_batch_size =? batch_size self) then
       _ ← py_assert (last_batch_size <? batch_size self) "";
       mret (pad_batch (batch_size self) inputs)
     else mret inputs);
  infer_request_id ← idle_request;
  out_id ← lift (py_getitem infer_request_input_id infer_request_id);
  request ← request_at infer_request_id;
  (* Copy output prediction (if already started) *)
  _ ← (if negb (out_id =? -1)%Z then
         buf ← engine_read (λ e, output_buffer e request out_name);
         store_output out_id buf
       else mret tt);
  infer_request_input_id ←
    lift (py_setitem infer_request_input_id infer_request_id (Z.of_nat inp_id));
  _ ← modify_self (λ self, set_outputs (outputs self ++ [None]) self);
  _ ← engine (λ e, (tt, async_infer request inp_name inputs e));
  mret (infer_request_input_id, Some last_batch_size).

(** Lines 192-198: the body of the loop over the request slots. *)
Definition collect_output (out_name : string) (last_batch_size : option nat)
    (infer_request_id : nat) (out_id : Z) (_ : unit) : M unit :=
  self ← get_self;
  cur ← lift (py_getitem (outputs self) out_id);
  match cur with
  | Some _ => mret tt
  | None =>
      request ← request_at (Z.of_nat infer_request_id);
      output ← engine_read (λ e, output_buffer e request out_name);
      if (out_id =? Z.of_nat (length (outputs self)) - 1)%Z then
        n ← match last_batch_size with
            | Some n => mret n
            | None => raise UnboundLocalError
            end;
        store_output out_id (slice_prefix n output)
      else store_output out_id output
  end.

(** Lines 187-198: copy rest of outputs. *)
Definition collect_rest (out_name : string) (l : locals) : M unit :=
  let '(infer_request_input_id, last_batch_size) := l in
  status ← engine (wait None);
  _ ← (if negb (is_OK status) then raise (Exception "Wait for idle request failed!")
       else mret tt);
  for_enumerate (collect_output out_name last_batch_size) 0 infer_request_input_id tt.

(** [next(iter(d.keys()))] *)
Definition first_key (keys : list string) : M string :=
  match keys with
  | k :: _ => mret k
  | [] => raise StopIteration
  end.

(** Lines 141-185: the slot table and the loop over the tee'd copy. *)
Definition submit_all (inp_name out_name : string)
    (keras_model torch_model : option prepare_hook) (batches : list (batch T)) : M locals :=
  n ← engine_read num_requests;
  let infer_request_input_id := replicate n (-1)%Z in
  for_enumerate (submit_batch inp_name out_name keras_model torch_model) 0 batches
    (infer_request_input_id, None).

Definition __call__ (generator : pyiter) (g : stream T)
    (keras_model torch_model : option prepare_hook) : M (pyiter * stream T) :=
  self ← get_self;
  '(generator, g) ←
    match exec_net self with
    | None => _load_model generator g
    | Some _ => mret (generator, g)
    end;
  input_keys ← engine_read input_info;
  _ ← py_assert (length input_keys =? 1) "Not implemented";
  output_keys ← engine_read net_outputs;
  _ ← py_assert (length output_keys =? 1) "Not implemented";
  inp_name ← first_key input_keys;
  out_name ← first_key output_keys;
  (* Create a copy of the generator so the origin one can iterate again. *)
  let '(generator_copy, generator) := tee generator g in
  l ← submit_all inp_name out_name keras_model torch_model (remaining generator_copy g);
  let g := exhaust generator_copy g in
  _ ← collect_rest out_name l;
  mret (generator, g).

(** *** [__next__] (lines 202-203) *)

Definition __next__ : M (option (ndarray T)) :=
  self ← get_self;
  match outputs self with
  | [] => raise IndexError        (* pop from empty list *)
  | x :: rest => _ ← modify_self (set_outputs rest); mret x
  end.
End Model.

(** ** A simulated request pool

    An implementation of the engine interface on integer arrays.  The
    network adds up every row; requests finish when the [script] says so,
    and idle requests are handed out in the order of [idle_order], to which
    a request returns at the back when it is started again. *)

Module Sim.
#[export] Instance Z_scalar : Scalar Z := {| zero := 0%Z; float32 := λ z, z |}.

Definition forward (x : ndarray Z) : ndarray Z :=
  NDArray (map (λ r, [foldr Z.add 1%Z r]) (rows x)) [1].

Record slot := {
  busy : bool;
  last_in : option (ndarray Z);   (* the input of the latest async_infer *)
  stale : ndarray Z;              (* what the output blob holds until that request is done *)
}.

Record pool := {
  slots : list slot;
  idle_order : list nat;
  script : list (list nat);       (* the requests that finish before each successive poll *)
  statuses : list StatusCode;     (* what the successive waits return *)
  in_keys : list string;
  out_keys : list string;
}.

Definition blob (s : slot) : ndarray Z :=
  if busy s then stale s
  else match last_in s with
       | Some x => forward x
       | None => stale s
       end.

Definition finish (s : slot) : slot :=
  {| busy := false; last_in := last_in s; stale := stale s |}.

Definition start (x : ndarray Z) (s : slot) : slot :=
  {| busy := true; last_in := Some x; stale := blob s |}.

Definition is_idle (p : pool) (i : nat) : bool :=
  match slots p !! i with
  | Some s => negb (busy s)
  | None => false
  end.

Definition poll (p : pool) : pool :=
  {| slots := foldr (λ i sl, alter finish i sl) (slots p) (hd [] (script p));
     idle_order := idle_order p;
     script := tl (script p);
     statuses := statuses p;
     in_keys := in_keys p; out_keys := out_keys p |}.

Definition sim_get_idle_request_id (p : pool) : Z * pool :=
  let p' := poll p in
  (match List.find (is_idle p') (idle_order p') with
   | Some i => Z.of_nat i
   | None => (-1)%Z
   end, p').

Definition sim_wait (k : option nat) (p : pool) : StatusCode * pool :=
  let p1 := match k with
            | Some _ => poll p
            | None => {| slots := map finish (slots p); idle_order := idle_order p;
                         script := script p; statuses := statuses p;
                         in_keys := in_keys p; out_keys := out_keys p |}
            end in
  (hd OK (statuses p1),
   {| slots := slots p1; idle_order := idle_order p1; script := script p1;
      statuses := tl (statuses p1); in_keys := in_keys p1; out_keys := out_keys p1 |}).

Definition sim_output_buffer (p : pool) (i : nat) (name : string) : ndarray Z :=
  match slots p !! i with
  | Some s => blob s
  | None => NDArray [] []
  end.

Definition sim_async_infer (i : nat) (name : string) (x : ndarray Z) (p : pool) : pool :=
  {| slots := alter (start x) i (slots p);
     idle_order := filter (λ j, j ≠ i) (idle_order p) ++ [i];
     script := script p; statuses := statuses p;
     in_keys := in_keys p; out_keys := out_keys p |}.

#[export] Instance pool_engine : Engine Z pool := {|
  input_info := in_keys;
  net_outputs := out_keys;
  num_requests := λ p, length (slots p);
  get_idle_request_id := sim_get_idle_request_id;
  wait := sim_wait;
  output_buffer := sim_output_buffer;
  async_infer := sim_async_infer;
|}.

(** The frameworks around a pool [p]: a Keras model is its frozen graph,
    and every conversion ends in the network that loads as [p]. *)
Definition toolkit (importable : bool) (returncode : Z) (p : pool) : Toolkit pool := {|
  torch_module := unit;
  keras_model := list NodeDef;
  IENetwork := pool;
  model_optimizer_mo_tf := false;
  plain_mo_tf := importable;
  inference_engine := importable;
  sys_executable := "python3";
  mo_tf_file := "mo_tf.py";
  frozen_graph_def := λ graph, graph;
  SerializeToString := λ nodes, String.concat ";" (map node_name nodes);
  onnx_export := λ _ sh, "onnx";
  subprocess_returncode := λ _, returncode;
  read_network := λ _ _, p;
  read_network_from_buffer := λ _, p;
  load_network := λ net, net;
|}.

Definition fresh_slot : slot := {| busy := false; last_in := None; stale := NDArray [] [] |}.

(** A pool of [n] idle requests handed out in the order [order]. *)
Definition new_pool (n : nat) (order : list nat) (script : list (list nat))
    (statuses : list StatusCode) : pool :=
  {| slots := replicate n fresh_slot; idle_order := order; script := script;
     statuses := statuses; in_keys := ["x"]%string; out_keys := ["y"]%string |}.

(** What the pool knows about a request, for the contract of the engine. *)
Definition slot_input (p : pool) (i : nat) : option (ndarray Z) :=
  s ← slots p !! i; last_in s.

Definition slot_idle (p : pool) (i : nat) : Prop := is_idle p i = true.
End Sim.

(** ** An engine that computes at once

    One request that is always idle: [async_infer] stores the result right
    away, every wait returns [OK] and the idle request is always request 0. *)

Module Eager.
Definition pool : Type := list (ndarray Z).

#[export] Instance pool_engine : Engine Z pool := {|
  input_info := λ _, ["x"]%string;
  net_outputs := λ _, ["y"]%string;
  num_requests := λ p, length p;
  get_idle_request_id := λ p, (0%Z, p);
  wait := λ _ p, (OK, p);
  output_buffer := λ p i _, default (NDArray [] []) (p !! i);
  async_infer := λ i _ x p, <[i := Sim.forward x]> p;
|}.

Definition toolkit (p : pool) : Toolkit pool := {|
  torch_module := unit;
  keras_model := list NodeDef;
  IENetwork := pool;
  model_optimizer_mo_tf := true;
  plain_mo_tf := false;
  inference_engine := true;
  sys_executable := "python3";
  mo_tf_file := "mo_tf.py";
  frozen_graph_def := λ graph, graph;
  SerializeToString := λ nodes, String.concat ";" (map node_name nodes);
  onnx_export := λ _ sh, "onnx";
  subprocess_returncode := λ _, 0%Z;
  read_network := λ _ _, p;
  read_network_from_buffer := λ _, p;
  load_network := λ net, net;
|}.
End Eager.

(** * Properties *)

(** ** Reasoning about runs *)

Section Runs.
Context {T E : Type} `{Scalar T} `{Engine T E} `{Toolkit E}.

Local Abbreviation M := (@M T E _).
Local Abbreviation state := (@state T E _).

(** [triple pre m post exc]: from a state satisfying [pre], [m] ends in a
    result and state satisfying [post], or raises an exception and leaves
    a state satisfying [exc]. *)
Definition triple {A} (pre : state → Prop) (m : M A)
    (post : A → state → Prop) (exc : exn → state → Prop) : Prop :=
  ∀ s, pre s →
    match m s with
    | (Ok a, s') => post a s'
    | (Raise e, s') => exc e s'
    end.

Lemma bind_Ok {A B} (m : M A) (f : A → M B) s b s' :
  (m ≫= f) s = (Ok b, s') ↔ ∃ a s1, m s = (Ok a, s1) ∧ f a s1 = (Ok b, s').
Proof.
  unfold mbind, M_bind. destruct (m s) as [[a|e] s1]; split.
  - eauto.
  - intros (a' & s1' & [= -> ->] & Hf). done.
  - done.
  - intros (a' & s1' & [=] & _).
Qed.

Lemma bind_Raise {A B} (m : M A) (f : A → M B) s e s' :
  (m ≫= f) s = (Raise e, s') ↔
  m s = (Raise e, s') ∨ ∃ a s1, m s = (Ok a, s1) ∧ f a s1 = (Raise e, s').
Proof.
  unfold mbind, M_bind. destruct (m s) as [[a|e0] s1]; split.
  - eauto.
  - intros [[=] | (a' & s1' & [= -> ->] & Hf)]. done.
  - intros [= -> ->]. eauto.
  - intros [[= -> ->] | (a' & s1' & [=] & _)]. done.
Qed.

Lemma triple_bind {A B} pre mid post exc (m : M A) (f : A → M B) :
  triple pre m mid exc →
  (∀ a, triple (mid a) (f a) post exc) →
  triple pre (m ≫= f) post exc.
Proof.
  intros Hm Hf s Hs. specialize (Hm s Hs). unfold mbind, M_bind.
  destruct (m s) as [[a|e] s1]; [|done]. apply Hf, Hm.
Qed.

Lemma triple_weaken {A} (pre pre' : state → Prop) (m : M A)
    (post post' : A → state → Prop) (exc exc' : exn → state → Prop) :
  triple pre' m post' exc' →
  (∀ s, pre s → pre' s) →
  (∀ a s, post' a s → post a s) →
  (∀ e s, exc' e s → exc e s) →
  triple pre m post exc.
Proof.
  intros Hm Hp Hq Hx s Hs. specialize (Hm s (Hp s Hs)).
  destruct (m s) as [[a|e] s1]; auto.
Qed.

Lemma for_enumerate_Ok {A L} (body : nat → A → L → M L) (Inv : nat → L → state → Prop) :
  ∀ items i l s l' s',
    (∀ j x l s l' s', items !! j = Some x → Inv (i + j) l s →
       body (i + j) x l s = (Ok l', s') → Inv (i + S j) l' s') →
    Inv i l s →
    for_enumerate body i items l s = (Ok l', s') →
    Inv (i + length items) l' s'.
Proof.
  induction items as [|x items IH]; intros i l s l' s' Hbody Hinv Hrun; simpl in *.
  - injection Hrun as <- <-. by rewrite Nat.add_0_r.
  - apply bind_Ok in Hrun as (l1 & s1 & Hx & Hrun).
    replace (i + S (length items)) with (S i + length items) by lia.
    eapply IH; [| |exact Hrun].
    + intros j y l2 s2 l3 s3 Hy Hi Hb.
      replace (S i + S j) with (i + S (S j)) by lia.
      eapply (Hbody (S j)); [exact Hy| |].
      * by replace (i + S j) with (S i + j) by lia.
      * by replace (i + S j) with (S i + j) by lia.
    + replace (S i) with (i + 1) by lia.
      eapply (Hbody 0); [done| |]; by rewrite Nat.add_0_r.
Qed.

Lemma for_enumerate_triple {A L} (body : nat → A → L → M L)
    (Inv : L → state → Prop) (exc : exn → state → Prop) :
  (∀ i x l, triple (Inv l) (body i x l) Inv exc) →
  ∀ items i l, triple (Inv l) (for_enumerate body i items l) Inv exc.
Proof.
  intros Hbody. induction items as [|x items IH]; intros i l; simpl.
  - intros s Hs. done.
  - eapply triple_bind; [apply Hbody|]. intros l'. apply IH.
Qed.

(** [keeps I X m]: [m] maintains the state invariant [I], whatever the
    outcome, and raises only exceptions in [X]. *)
Definition keeps {A} (I : state → Prop) (X : exn → Prop) (m : M A) : Prop :=
  triple I m (λ _, I) (λ e s, I s ∧ X e).

Lemma keeps_bind {A B} I X (m : M A) (f : A → M B) :
  keeps I X m → (∀ a, keeps I X (f a)) → keeps I X (m ≫= f).
Proof. intros Hm Hf. eapply triple_bind; [exact Hm|]. intros a. apply Hf. Qed.

Lemma keeps_ret {A} I X (a : A) : keeps I X (mret a).
Proof. intros s Hs. exact Hs. Qed.

Lemma keeps_raise {A} I (X : exn → Prop) e : X e → keeps I X (raise (A:=A) e).
Proof. intros He s Hs. simpl. done. Qed.

Lemma keeps_get_self I X : keeps I X get_self.
Proof. intros s Hs. exact Hs. Qed.

Lemma keeps_lift {A} I (X : exn → Prop) (r : result A) :
  (∀ e, r = Raise e → X e) → keeps I X (lift r).
Proof. intros Hr s Hs. unfold lift. destruct r; [done|]. split; [done|]. by apply Hr. Qed.

Lemma keeps_py_assert I (X : exn → Prop) b msg :
  X (AssertionError msg) → keeps I X (py_assert b msg).
Proof. intros Hx. destruct b; [apply keeps_ret | by apply keeps_raise]. Qed.

Lemma keeps_modify_self I X f :
  (∀ s, I s → I {| self := f (self s); log := log s |}) → keeps I X (modify_self f).
Proof. intros Hf s Hs. by apply Hf. Qed.

Lemma keeps_engine {A} I (X : exn → Prop) (f : E → A * E) :
  X AttributeError →
  (∀ s e', I s → I {| self := set_exec_net (Some e') (self s); log := log s |}) →
  keeps I X (engine f).
Proof.
  intros Hx Hf s Hs. unfold engine. destruct (exec_net (self s)) as [e|]; [|done].
  destruct (f e) as [a e']. by apply Hf.
Qed.

Lemma keeps_emit I X ev :
  (∀ s, I s → I {| self := self s; log := log s ++ [ev] |}) → keeps I X (emit ev).
Proof. intros Hf s Hs. by apply Hf. Qed.

(** The continuation of an engine call runs on what the engine returned
    from some state. *)
Lemma keeps_engine_bind {A B} I (X : exn → Prop) (f : E → A * E) (k : A → M B) :
  X AttributeError →
  (∀ s e', I s → I {| self := set_exec_net (Some e') (self s); log := log s |}) →
  (∀ e, keeps I X (k (f e).1)) →
  keeps I X (engine f ≫= k).
Proof.
  intros Hx Hf Hk s Hs. unfold mbind, M_bind, engine.
  destruct (exec_net (self s)) as [e|]; [|done].
  specialize (Hk e). destruct (f e) as [a e']. simpl in Hk.
  apply Hk. by apply Hf.
Qed.

Lemma keeps_for_enumerate {A L} I X (body : nat → A → L → M L) :
  (∀ i x l, keeps I X (body i x l)) →
  ∀ items i l, keeps I X (for_enumerate body i items l).
Proof.
  intros Hbody. induction items as [|x items IH]; intros i l; simpl.
  - apply keeps_ret.
  - apply keeps_bind; [apply Hbody|]. intros l'. apply IH.
Qed.

Lemma py_getitem_raises {A} (l : list A) i e : py_getitem l i = Raise e → e = IndexError.
Proof.
  unfold py_getitem. destruct (py_index _ _); [destruct (l !! _)|]; congruence.
Qed.

Lemma py_setitem_raises {A} (l : list A) i x e : py_setitem l i x = Raise e → e = IndexError.
Proof. unfold py_setitem. destruct (py_index _ _); congruence. Qed.

(** Successful runs of the primitive steps. *)
Lemma same_exec_net (s : state) e :
exec_net (self s) = Some e →
{| self := set_exec_net (Some e) (self s); log := log s |} = s.
Proof. intros He. destruct s as [o l], o; simpl in *. by rewrite He. Qed.

Lemma engine_Ok {A} (f : E → A * E) (s : state) a s' :
engine f s = (Ok a, s') →
∃ e e', exec_net (self s) = Some e ∧ f e = (a, e')
        ∧ s' = {| self := set_exec_net (Some e') (self s); log := log s |}.
Proof.
unfold engine. destruct (exec_net (self s)) as [e|]; [|done].
destruct (f e) as [a' e'] eqn:Hf. intros [= <- <-]. eauto.
Qed.

Lemma engine_read_Ok {A} (f : E → A) (s : state) a s' :
engine_read f s = (Ok a, s') → ∃ e, exec_net (self s) = Some e ∧ a = f e ∧ s' = s.
Proof.
intros (e & e' & He & [= <- <-] & ->)%engine_Ok. exists e.
by rewrite same_exec_net.
Qed.

Lemma py_assert_Ok b msg (s : state) u s' :
py_assert b msg s = (Ok u, s') → b = true ∧ s' = s.
Proof. destruct b; [intros [= _ <-]; done | done]. Qed.

Lemma lift_Ok {A} (r : result A) (s : state) a s' :
lift r s = (Ok a, s') → r = Ok a ∧ s' = s.
Proof. unfold lift. by intros [= -> ->]. Qed.

Lemma first_key_Ok keys (s : state) k0 s' :
first_key keys s = (Ok k0, s') → ∃ rest, keys = k0 :: rest ∧ s' = s.
Proof. destruct keys as [|k1 rest]; [done|]. intros [= <- <-]. eauto. Qed.
End Runs.

(** ** Consuming results: [__next__] *)

Section Next.
Context {T E : Type} `{Scalar T} `{Engine T E} `{Toolkit E}.

Local Abbreviation M := (@M T E _).
Local Abbreviation state := (@state T E _).

Definition with_outputs (o : list (option (ndarray T))) (s : state) : state :=
  {| self := set_outputs o (self s); log := log s |}.

(** C10.  On an empty output queue [__next__] raises the error of a pop
    from an empty list: it neither signals the end of the iteration nor
    returns a value.  On a queue [x :: rest] it returns [x] and leaves
    [rest], in order, as the queue. *)
Theorem next_pops_first (s : state) :
  (__next__ (with_outputs [] s) = (Raise IndexError, with_outputs [] s)
   ∧ fst (__next__ (with_outputs [] s)) ≠ Raise StopIteration
   ∧ ∀ v, fst (__next__ (with_outputs [] s)) ≠ Ok v)
  ∧ ∀ x rest, __next__ (with_outputs (x :: rest) s) = (Ok x, with_outputs rest s).
Proof.
  split; [split; [reflexivity | split; [discriminate | intros v; discriminate]] |].
  intros x rest. reflexivity.
Qed.

(** [__next__] applied [n] times: the values returned, until one raises. *)
Fixpoint next_n (n : nat) : M (list (option (ndarray T))) :=
  match n with
  | 0 => mret []
  | S n => x ← __next__; xs ← next_n n; mret (x :: xs)
  end.

Lemma next_n_outputs (s : state) :
  next_n (length (outputs (self s))) s = (Ok (outputs (self s)), with_outputs [] s).
Proof.
  destruct s as [o l]. destruct o as [c en m d b outs]. simpl.
  induction outs as [|x outs IH]; [reflexivity|].
  simpl. unfold mbind, M_bind at 1. simpl.
  unfold mbind, M_bind at 1. simpl.
  unfold with_outputs, set_outputs in *. simpl in *.
  unfold set_outputs. simpl. unfold mbind, M_bind. simpl. rewrite IH. reflexivity.
Qed.
End Next.

(** ** The lazy load and the body of [__call__] *)

Section Call.
Context {T E : Type} `{Scalar T} `{Engine T E} `{Toolkit E}.

Local Abbreviation M := (@M T E _).
Local Abbreviation state := (@state T E _).
Local Abbreviation OpenVINOModel := (@OpenVINOModel T E _).

(** Lines 133-134 on their own: the state the rest of [__call__] starts
    from, with the generator it goes on with. *)
Definition lazy_load (generator : pyiter) (g : stream T) : M (pyiter * stream T) :=
  self ← get_self;
  match exec_net self with
  | None => _load_model generator g
  | Some _ => mret (generator, g)
  end.

(** Lines 136-200 on their own. *)
Definition call_body (keras_model torch_model : option prepare_hook)
    (generator : pyiter) (g : stream T) : M (pyiter * stream T) :=
  input_keys ← engine_read input_info;
  _ ← py_assert (length input_keys =? 1) "Not implemented";
  output_keys ← engine_read net_outputs;
  _ ← py_assert (length output_keys =? 1) "Not implemented";
  inp_name ← first_key input_keys;
  out_name ← first_key output_keys;
  let '(generator_copy, generator) := tee generator g in
  l ← submit_all inp_name out_name keras_model torch_model (remaining generator_copy g);
  let g := exhaust generator_copy g in
  _ ← collect_rest out_name l;
  mret (generator, g).

Lemma call_unfold generator g k t s :
  __call__ generator g k t s =
  (lazy_load generator g ≫= λ '(generator, g), call_body k t generator g) s.
Proof. reflexivity. Qed.

Lemma lazy_load_loaded generator g s e :
  exec_net (self s) = Some e → lazy_load generator g s = (Ok (generator, g), s).
Proof. intros He. unfold lazy_load, mbind, M_bind, get_self. by rewrite He. Qed.

Lemma lazy_load_unloaded generator g s :
  exec_net (self s) = None → lazy_load generator g s = _load_model generator g s.
Proof. intros He. unfold lazy_load, mbind, M_bind, get_self. by rewrite He. Qed.

Lemma engine_read_Some {A} (f : E → A) (s : state) e :
  exec_net (self s) = Some e → engine_read f s = (Ok (f e), s).
Proof.
  intros He. unfold engine_read, engine. rewrite He.
  destruct s as [o l], o; simpl in *. by rewrite He.
Qed.

(** *** Availability *)

Lemma load_model_unavailable generator g (s : state) :
  is_available = false → _load_model generator g s = (Raise (AssertionError ""), s).
Proof.
  intros Hav. unfold _load_model, mbind, M_bind, get_self, OpenVINOModel_is_available.
  by rewrite Hav.
Qed.

(** C4, as the code has it.  [is_available] reports whether the libraries
    of the engine could be imported when the module was loaded.  When
    they could not, [_load_model] fails its assertion before it does
    anything else, and so does a [__call__] on an object whose network is
    not loaded yet; [__init__] asserts nothing and leaves [ie] unset, and
    [__next__] never fails an assertion. *)
Theorem availability_asserted_by_load (self0 : OpenVINOModel) :
  OpenVINOModel_is_available self0
    = ((model_optimizer_mo_tf || plain_mo_tf) && inference_engine)
  ∧ (OpenVINOModel_is_available self0 = false →
      (∀ generator g (s : state),
         _load_model generator g s = (Raise (AssertionError ""), s))
      ∧ (∀ generator g k t (s : state), exec_net (self s) = None →
         __call__ generator g k t s = (Raise (AssertionError ""), s))
      ∧ (∀ m d b, ie (__init__ (T:=T) m d b) = None ∧ exec_net (__init__ (T:=T) m d b) = None)
      ∧ (∀ (s : state) msg, fst (__next__ s) ≠ Raise (AssertionError msg))).
Proof.
  split; [reflexivity|]. unfold OpenVINOModel_is_available. intros Hav.
  split; [|split; [|split]].
  - intros. by apply load_model_unavailable.
  - intros generator g k t s He. rewrite call_unfold.
    unfold mbind at 1, M_bind at 1.
    by rewrite (lazy_load_unloaded _ _ _ He), load_model_unavailable.
  - intros m d b. unfold __init__. simpl. by rewrite Hav.
  - intros s msg. unfold __next__, mbind, M_bind, get_self.
    destruct (outputs (self s)); simpl; discriminate.
Qed.

(** *** Single input, single output *)

(** C7.  A loaded network that does not have exactly one input and
    exactly one output fails the assertion of [__call__], whether it was
    loaded before or by this call; and the PyTorch conversion fails its
    assertion when the first batch does not hold exactly one input array. *)
Theorem single_input_single_output generator g k t (s : state) :
  (∀ generator1 g1 s1 e,
     lazy_load generator g s = (Ok (generator1, g1), s1) →
     exec_net (self s1) = Some e →
     length (input_info e) ≠ 1 ∨ length (net_outputs e) ≠ 1 →
     fst (__call__ generator g k t s) = Raise (AssertionError "Not implemented"))
  ∧ (∀ b generator_copy g1,
     next_iter (fst (tee generator g)) g = Ok (b, generator_copy, g1) →
     length (b.1.1) ≠ 1 →
     _read_torch_model generator g s = (Raise (AssertionError "Not implemented"), s)
     ∧ (∀ m, exec_net (self s) = None → is_available = true →
        model (self s) = TorchModule m →
        __call__ generator g k t s = (Raise (AssertionError "Not implemented"), s))).
Proof.
  split.
  - intros generator1 g1 s1 e Hload He Hbad. rewrite call_unfold.
    unfold mbind at 1, M_bind at 1. rewrite Hload. unfold call_body.
    unfold mbind at 1, M_bind at 1. rewrite (engine_read_Some _ _ _ He).
    destruct (decide (length (input_info e) = 1)) as [Hin|Hin].
    + destruct Hbad as [?|Hout]; [done|].
      rewrite Hin. simpl. unfold mbind at 1, M_bind at 1. simpl.
      unfold mbind at 1, M_bind at 1. rewrite (engine_read_Some _ _ _ He).
      apply Nat.eqb_neq in Hout. rewrite Hout. reflexivity.
    + apply Nat.eqb_neq in Hin. rewrite Hin. reflexivity.
  - intros b generator_copy g1 Hnext Hlen.
    assert (Hrt : _read_torch_model generator g s = (Raise (AssertionError "Not implemented"), s)).
    { unfold _read_torch_model, mbind at 1, M_bind at 1, get_self.
      destruct (tee generator g) as [gc gen'] eqn:Htee. simpl in Hnext.
      unfold mbind at 1, M_bind at 1, lift. rewrite Hnext.
      destruct b as [[inputs labels] weights]. simpl in Hlen.
      apply Nat.eqb_neq in Hlen. unfold mbind at 1, M_bind at 1. by rewrite Hlen. }
    split; [exact Hrt|].
    intros m He Hav Hm. rewrite call_unfold.
    unfold mbind at 1, M_bind at 1. rewrite (lazy_load_unloaded _ _ _ He).
    unfold _load_model, mbind at 1, M_bind at 1, get_self.
    unfold OpenVINOModel_is_available. rewrite Hav. simpl.
    unfold mbind at 1, M_bind at 1. simpl.
    unfold mbind at 1, M_bind at 1. rewrite Hm, Hrt. reflexivity.
Qed.

(** A run of the body that returns: the network has one input and one
  output, the loop over the tee'd copy and the final collection both
  return, and the second tee iterator is handed back. *)
Lemma call_body_Ok k t generator g (s : state) generator' g' s' :
call_body k t generator g s = (Ok (generator', g'), s') →
∃ e inp_name out_name l s1,
  exec_net (self s) = Some e
  ∧ input_info e = [inp_name] ∧ net_outputs e = [out_name]
  ∧ submit_all inp_name out_name k t (remaining (tee generator g).1 g) s = (Ok l, s1)
  ∧ collect_rest out_name l s1 = (Ok (), s')
  ∧ generator' = (tee generator g).2
  ∧ g' = exhaust (tee generator g).1 g.
Proof.
unfold call_body. intros Hrun.
apply bind_Ok in Hrun as (ik & s1 & (e & He & -> & ->)%engine_read_Ok & Hrun).
apply bind_Ok in Hrun as (u1 & s1 & [Hin ->]%py_assert_Ok & Hrun).
apply bind_Ok in Hrun as (ok & s1 & (e' & He' & -> & ->)%engine_read_Ok & Hrun).
rewrite He in He'. injection He' as <-.
apply bind_Ok in Hrun as (u2 & s1 & [Hout ->]%py_assert_Ok & Hrun).
apply bind_Ok in Hrun as (inp & s1 & (rin & Hkin & ->)%first_key_Ok & Hrun).
apply bind_Ok in Hrun as (out & s1 & (rout & Hkout & ->)%first_key_Ok & Hrun).
destruct (tee generator g) as [gc gen2] eqn:Htee.
apply bind_Ok in Hrun as (l & s1 & Hsub & Hrun).
apply bind_Ok in Hrun as (u3 & s2 & Hcol & Hrun).
injection Hrun as <- <- <-. destruct u3.
rewrite Hkin in Hin. rewrite Hkout in Hout. simpl in Hin, Hout.
apply Nat.eqb_eq in Hin, Hout.
destruct rin; [|done]. destruct rout; [|done].
exists e, inp, out, l, s1. simpl. done.
Qed.
End Call.

(** ** The TensorFlow conversion path *)

Section TensorFlow.
Context {T E : Type} `{Scalar T} `{Engine T E} `{Toolkit E}.

Local Abbreviation M := (@M T E _).
Local Abbreviation state := (@state T E _).

(** The two steps on the placeholders as the documentation words them:
    remove the training inputs, then set the batch size. *)
Definition is_training_input (node : NodeDef) : bool :=
  String.eqb (node_op node) "Placeholder"
  && String.prefix "unused_control_flow_input" (node_name node).

Definition remove_training_inputs (nodes : list NodeDef) : list NodeDef :=
  filter (λ node, is_training_input node = false) nodes.

Definition pin_batch_size (batch_size : nat) (node : NodeDef) : NodeDef :=
  if String.eqb (node_op node) "Placeholder" then
    match node_dims node with
    | d :: rest =>
        if (d =? -1)%Z
        then {| node_name := node_name node; node_op := node_op node;
                node_dims := Z.of_nat batch_size :: rest |}
        else node
    | [] => node
    end
  else node.

(** A placeholder that stays has a first dimension to look at. *)
Definition has_batch_dim (node : NodeDef) : Prop :=
  String.eqb (node_op node) "Placeholder" = true →
  is_training_input node = false → node_dims node ≠ [].

Lemma strip_and_pin_prefix batch_size (l1 : list NodeDef) :
  ∀ l2, Forall has_batch_dim l1 →
    strip_and_pin batch_size (length l1) (l1 ++ l2)
    = Ok (map (pin_batch_size batch_size) (remove_training_inputs l1) ++ l2).
Proof.
  induction l1 as [|x l1 IH] using rev_ind; intros l2 Hdims; [reflexivity|].
  apply Forall_app in Hdims as [Hl1 Hx]. rewrite Forall_singleton in Hx.
  rewrite length_app, Nat.add_1_r. simpl. rewrite <- app_assoc. simpl.
  rewrite list_lookup_middle by done.
  unfold remove_training_inputs. rewrite filter_app, map_app, <- app_assoc.
  unfold has_batch_dim, is_training_input in Hx.
  destruct (String.eqb (node_op x) "Placeholder") eqn:Hop.
  - destruct (String.prefix "unused_control_flow_input" (node_name x)) eqn:Hpre.
    + rewrite delete_middle, IH by done.
      rewrite filter_cons_False; [done|].
      cbv beta. unfold is_training_input. rewrite Hop, Hpre. discriminate.
    + rewrite filter_cons_True.
      2:{ cbv beta. unfold is_training_input. rewrite Hop, Hpre. reflexivity. }
      simpl. unfold pin_batch_size at 2. rewrite Hop.
      destruct (node_dims x) as [|d rest] eqn:Hd; [by destruct Hx|].
      destruct (d =? -1)%Z.
      * replace (length l1) with (length l1 + 0) at 2 by lia.
        rewrite insert_app_r. simpl. by rewrite IH.
      * by rewrite IH.
  - rewrite filter_cons_True by (cbv beta; unfold is_training_input; rewrite Hop; reflexivity).
    simpl. unfold pin_batch_size at 2. rewrite Hop. by rewrite IH.
Qed.

Lemma strip_and_pin_all batch_size (nodes : list NodeDef) :
  Forall has_batch_dim nodes →
  strip_and_pin batch_size (length nodes) nodes
  = Ok (map (pin_batch_size batch_size) (remove_training_inputs nodes)).
Proof.
  intros Hdims. pose proof (strip_and_pin_prefix batch_size nodes [] Hdims) as Hp.
  by rewrite !app_nil_r in Hp.
Qed.

Definition logged (evs : list event) (s : state) : state :=
  {| self := self s; log := log s ++ evs |}.

(** C8, as the code has it.  For a Keras model in whose frozen graph
    every placeholder that is not a training input has at least one
    dimension, [_read_tf_model] freezes the graph, removes the placeholders
    whose name starts with the training prefix, sets the first dimension
    of every placeholder left to [batch_size] where it was -1, writes the
    serialized graph to [model.pb] in the model directory, runs the model
    optimizer on it as a subprocess with [check=True], removes [model.pb]
    and reads the network from [model.xml] and [model.bin], in this order;
    a nonzero return code of the subprocess raises after the run, before
    the file is removed or anything is read.  The graph that is written is
    given by [remove_training_inputs] and [pin_batch_size], which follow
    these words and not the loop of the code. *)
Theorem tf_conversion_steps (s : state) (m : keras_model) (core : IECore) :
  model (self s) = OtherModel m →
  ie (self s) = Some core →
  Forall has_batch_dim (frozen_graph_def m) →
  let nodes := map (pin_batch_size (batch_size (self s)))
                   (remove_training_inputs (frozen_graph_def m)) in
  let pb := path_join (model_dir (self s)) "model.pb" in
  let xml := path_join (model_dir (self s)) "model.xml" in
  let bin := path_join (model_dir (self s)) "model.bin" in
  let args := [sys_executable; mo_tf_file; "--input_model"; pb;
               "--output_dir"; model_dir (self s)]%string in
  _read_tf_model s =
    if (subprocess_returncode args =? 0)%Z then
      (Ok (read_network xml bin),
       logged [EvFreezeGraph; EvWriteFile pb (SerializeToString nodes);
               EvSubprocessRun args true; EvRemove pb; EvReadNetwork xml bin] s)
    else
      (Raise (CalledProcessError (subprocess_returncode args)),
       logged [EvFreezeGraph; EvWriteFile pb (SerializeToString nodes);
               EvSubprocessRun args true] s).
Proof.
  intros Hm Hcore Hdims nodes pb xml bin args.
  unfold _read_tf_model, mbind, M_bind, get_self, the_core, lift, emit, logged. simpl.
  rewrite Hm. simpl. rewrite (strip_and_pin_all _ _ Hdims). simpl.
  fold nodes pb. unfold mo_args. fold args.
  destruct (subprocess_returncode args =? 0)%Z; simpl.
  - rewrite Hcore. simpl. rewrite <- !app_assoc. reflexivity.
  - rewrite <- !app_assoc. reflexivity.
Qed.
End TensorFlow.

(** ** Explicit failures *)

Ltac keeps_step side :=
  first
    [ apply keeps_ret
    | apply keeps_get_self
    | apply keeps_bind; [|intros]
    | apply keeps_py_assert; side
    | apply keeps_raise; side
    | apply keeps_lift; side
    | apply keeps_modify_self; side
    | apply keeps_emit; side
    | apply keeps_engine; side
    | apply keeps_for_enumerate; intros
    | match goal with |- keeps _ _ (match ?x with _ => _ end) => destruct x end ].

(** [keeps_auto] stops at the two procedures that hold the explicit raises. *)
Ltac keeps_auto side :=
  repeat first
    [ match goal with
      | |- keeps _ _ idle_request => fail 2
      | |- keeps _ _ (collect_rest _ _) => fail 2
      end
    | keeps_step side ].

Section Failures.
Context {T E : Type} `{Scalar T} `{Engine T E} `{Toolkit E}.

Local Abbreviation M := (@M T E _).
Local Abbreviation state := (@state T E _).

Definition wait_failed : string := "Wait for idle request failed!".
Definition invalid_id : string := "Invalid request id!".

Lemma next_iter_raises it (g : stream T) e : next_iter it g = Raise e → e = StopIteration.
Proof.
  unfold next_iter. destruct it; [destruct (pending g)|]; try congruence.
  destruct (teed g !! pos); [congruence|]. destruct (pending g); congruence.
Qed.

Lemma strip_and_pin_raises bs i : ∀ nodes e,
  strip_and_pin bs i nodes = Raise e → e = IndexError.
Proof.
  induction i as [|i IH]; intros nodes e; simpl; [congruence|].
  destruct (nodes !! i) as [node|]; [|congruence].
  destruct (String.eqb _ _); [|apply IH].
  destruct (String.prefix _ _); [apply IH|].
  destruct (node_dims node) as [|d rest]; [congruence|].
  destruct (d =? -1)%Z; apply IH.
Qed.
End Failures.

(** ** The generator handed back *)

Section Tee.
Context {T E : Type} `{Scalar T} `{Engine T E} `{Toolkit E}.

Local Abbreviation M := (@M T E _).
Local Abbreviation state := (@state T E _).

(** [yields it g l]: calling [next] on [it] again and again returns the
    batches [l], in this order, and then stops the iteration. *)
Inductive yields : pyiter → stream T → list (batch T) → Prop :=
| yields_stop it g :
    next_iter it g = Raise StopIteration → yields it g []
| yields_next it g b it' g' l :
    next_iter it g = Ok (b, it', g') → yields it' g' l → yields it g (b :: l).

(** A tee iterator has delivered no more than the shared buffer holds. *)
Definition wf_iter (it : pyiter) (g : stream T) : Prop :=
  match it with
  | Source => True
  | TeeIter p => p ≤ length (teed g)
  end.

Lemma yields_deterministic it g l1 :
  yields it g l1 → ∀ l2, yields it g l2 → l1 = l2.
Proof.
  induction 1 as [it g Hs|it g b it' g' l Hn Hy IH]; intros l2 H2; inversion H2; subst.
  - done.
  - congruence.
  - congruence.
  - match goal with Hn' : next_iter it g = Ok _ |- _ =>
      rewrite Hn in Hn'; injection Hn' as <- <- <- end.
    f_equal. by apply IH.
Qed.

Lemma yields_remaining : ∀ l it g,
  wf_iter it g → remaining it g = l → yields it g l.
Proof.
  induction l as [|b l IH]; intros it g Hwf Hrem.
  - apply yields_stop. destruct it as [|p]; simpl in *.
    + by rewrite Hrem.
    + apply (f_equal length) in Hrem. rewrite length_drop, length_app in Hrem. simpl in Hrem.
      rewrite lookup_ge_None_2 by lia.
      destruct (pending g); [done|simpl in Hrem; lia].
  - destruct it as [|p]; simpl in *.
    + eapply yields_next; [simpl; by rewrite Hrem|]. by apply IH.
    + destruct (teed g !! p) as [b'|] eqn:Hp.
      * pose proof (lookup_lt_Some _ _ _ Hp) as Hlt.
        erewrite drop_S in Hrem by (by apply lookup_app_l_Some).
        injection Hrem as -> Hrem.
        eapply yields_next; [simpl; by rewrite Hp|].
        apply IH; [simpl; lia | done].
      * apply lookup_ge_None_1 in Hp. assert (p = length (teed g)) as -> by lia.
        rewrite drop_app_length in Hrem.
        eapply yields_next.
        { simpl. rewrite lookup_ge_None_2 by lia. by rewrite Hrem. }
        apply IH; [simpl; rewrite length_app; simpl; lia|].
        simpl.
        replace (S (length (teed g))) with (length (teed g ++ [b]))
          by (rewrite length_app; simpl; lia).
        by rewrite drop_app_length.
Qed.

(** The first tee, with the batch that [_read_torch_model] reads early. *)
Lemma tee_then_next generator (g : stream T) b generator_copy g1 :
  wf_iter generator g →
  next_iter (tee generator g).1 g = Ok (b, generator_copy, g1) →
  wf_iter (tee generator g).2 g1
  ∧ remaining (tee generator g).2 g1 = remaining generator g.
Proof.
  intros Hwf Hnext. destruct generator as [|p]; simpl in *.
  - rewrite lookup_ge_None_2 in Hnext by lia.
    destruct (pending g) as [|b' rest]; [done|]. injection Hnext as <- <- <-. simpl.
    rewrite length_app. split; [lia|].
    rewrite <- app_assoc. by rewrite drop_app_length.
  - destruct (teed g !! p) as [b'|] eqn:Hp.
    + injection Hnext as <- <- <-. done.
    + destruct (pending g) as [|b' rest] eqn:Hpend; [done|].
      injection Hnext as <- <- <-. simpl. rewrite length_app. split; [lia|].
      by rewrite <- app_assoc.
Qed.

(** The second tee, with the copy run to its end by the loop. *)
Lemma tee_then_exhaust generator (g : stream T) :
  wf_iter generator g →
  wf_iter (tee generator g).2 (exhaust (tee generator g).1 g)
  ∧ remaining (tee generator g).2 (exhaust (tee generator g).1 g) = remaining generator g.
Proof.
  intros Hwf. destruct generator as [|p]; simpl in *.
  - rewrite length_app, app_nil_r. split; [lia|]. by rewrite drop_app_length.
  - rewrite length_app, app_nil_r. split; [lia|done].
Qed.

(** What the lazy load does: it raises and leaves the object as it was, or
    it converts the model by the path of its framework, loads the network
    and stores it in [exec_net]; the generator it returns has the batches
    of the one it was given. *)
Definition load_event : event :=
  EvLoadNetwork "CPU" [("CPU_THROUGHPUT_STREAMS", "CPU_THROUGHPUT_AUTO")]%string 0.

Definition torch_conversion (evs : list event) : Prop :=
  ∃ inp_shape buf, evs = [EvOnnxExport inp_shape; EvReadNetworkFromBuffer buf].

Definition tf_conversion (evs : list event) : Prop :=
  ∃ pb content args xml bin,
    evs = [EvFreezeGraph; EvWriteFile pb content; EvSubprocessRun args true;
           EvRemove pb; EvReadNetwork xml bin].

Definition conversion_of (m : model_handle) (evs : list event) : Prop :=
  match m with
  | TorchModule _ => torch_conversion evs
  | OtherModel _ => tf_conversion evs
  end.

Lemma read_torch_model_cases generator g (s : state) :
  match _read_torch_model generator g s with
  | (Ok (net, generator', g'), s') =>
      self s' = self s
      ∧ (∃ evs, log s' = log s ++ evs ∧ torch_conversion evs)
      ∧ (wf_iter generator g →
         wf_iter generator' g' ∧ remaining generator' g' = remaining generator g)
  | (Raise e, s') => self s' = self s
  end.
Proof.
  unfold _read_torch_model, mbind, M_bind, get_self, lift, the_core, emit.
  pose proof (tee_then_next generator g) as Htee.
  destruct (tee generator g) as [gc gen'] eqn:Ht. simpl in Htee.
  destruct (next_iter gc g) as [[[b gc'] g1]|e] eqn:Hnext; [|done].
  destruct b as [[inputs labels] weights].
  destruct (length inputs =? 1); simpl; [|done].
  destruct (py_getitem inputs 0) as [x|e]; [|done].
  destruct (model (self s)) as [m|m]; simpl; [|done].
  destruct (ie (self s)); simpl; [|done].
  split; [done|]. split.
  - eexists. rewrite <- app_assoc. split; [done|]. by eexists _, _.
  - intros Hwf. by eapply Htee.
Qed.

Lemma read_tf_model_cases (s : state) :
  match _read_tf_model s with
  | (Ok net, s') => self s' = self s ∧ ∃ evs, log s' = log s ++ evs ∧ tf_conversion evs
  | (Raise e, s') => self s' = self s
  end.
Proof.
  unfold _read_tf_model, mbind, M_bind, get_self, lift, the_core, emit.
  destruct (model (self s)) as [m|m]; simpl; [done|].
  destruct (strip_and_pin _ _ _) as [nodes|e]; [|done]. simpl.
  destruct (_ =? 0)%Z; simpl; [|done].
  destruct (ie (self s)); simpl; [|done].
  split; [done|]. eexists. rewrite <- !app_assoc. split; [done|].
  by eexists _, _, _, _, _.
Qed.

Lemma load_model_cases generator g (s : state) :
  match _load_model generator g s with
  | (Ok (generator', g'), s') =>
      (∃ net evs,
         self s' = set_exec_net (Some (load_network net)) (self s)
         ∧ log s' = log s ++ evs ++ [load_event]
         ∧ conversion_of (model (self s)) evs)
      ∧ (wf_iter generator g →
         wf_iter generator' g' ∧ remaining generator' g' = remaining generator g)
  | (Raise e, s') => self s' = self s
  end.
Proof.
  unfold _load_model, mbind at 1, M_bind at 1, get_self.
  unfold mbind at 1, M_bind at 1.
  destruct (py_assert _ _ s) as [[u|e] s0] eqn:Hassert.
  2:{ unfold py_assert in Hassert. destruct (OpenVINOModel_is_available _); [done|].
      by injection Hassert as <- <-. }
  apply py_assert_Ok in Hassert as [_ ->].
  unfold mbind at 1, M_bind at 1.
  destruct (model (self s)) as [m|m] eqn:Hm.
  - pose proof (read_torch_model_cases generator g s) as Hc.
    destruct (_read_torch_model generator g s) as [[[[net gen'] g'] | e] s1]; [|done].
    destruct Hc as (Hself & (evs & Hlog & Hconv) & Hgen).
    unfold the_core, mbind, M_bind, emit, modify_self.
    destruct (ie (self s)); simpl; [|done].
    split; [|done]. exists net, evs. rewrite ?Hself, Hlog, <- app_assoc. done.
  - pose proof (read_tf_model_cases s) as Hc.
    unfold mbind at 1, M_bind at 1.
    destruct (_read_tf_model s) as [[net | e] s1]; [|done].
    destruct Hc as (Hself & (evs & Hlog & Hconv)).
    unfold the_core, mbind, M_bind, emit, modify_self. simpl.
    destruct (ie (self s)); simpl; [|done].
    split; [|done]. exists net, evs. rewrite ?Hself, Hlog, <- app_assoc. done.
Qed.

(** C5.  The generator that [__call__] returns yields exactly the batches
    that the generator passed in had to yield when the call was made, in
    the same order: the loop runs on a tee'd copy, and so does the early
    read of the PyTorch conversion. *)
Theorem returned_generator_replays generator g k t (s : state) generator' g' s' :
  wf_iter generator g →
  __call__ generator g k t s = (Ok (generator', g'), s') →
  ∀ l, yields generator g l → yields generator' g' l.
Proof.
  intros Hwf Hcall l Hl.
  assert (l = remaining generator g) as ->.
  { eapply yields_deterministic; [exact Hl|]. by apply yields_remaining. }
  rewrite call_unfold in Hcall.
  apply bind_Ok in Hcall as ([gen1 g1] & s1 & Hload & Hbody).
  assert (wf_iter gen1 g1 ∧ remaining gen1 g1 = remaining generator g) as [Hwf1 Hrem1].
  { destruct (exec_net (self s)) as [e|] eqn:He.
    - rewrite (lazy_load_loaded _ _ _ _ He) in Hload. by injection Hload as <- <- <-.
    - rewrite (lazy_load_unloaded _ _ _ He) in Hload.
      pose proof (load_model_cases generator g s) as Hc. rewrite Hload in Hc.
      by apply Hc. }
  apply call_body_Ok in Hbody as (e & inp & out & loc & s2 & _ & _ & _ & _ & _ & -> & ->).
  destruct (tee_then_exhaust gen1 g1 Hwf1) as [Hwf2 Hrem2].
  apply yields_remaining; [done|]. by rewrite Hrem2.
Qed.
End Tee.

(** ** Loading once *)

Section Lazy.
Context {T E : Type} `{Scalar T} `{Engine T E} `{Toolkit E}.

Local Abbreviation M := (@M T E _).
Local Abbreviation state := (@state T E _).

(** The arguments of one invocation, and a series of invocations on the
    same object, each starting from the state the one before left, whether
    it returned or raised. *)
Definition call_args : Type :=
  pyiter * stream T * option (@prepare_hook T) * option (@prepare_hook T).

Definition call_with (c : call_args) : M (pyiter * stream T) :=
  let '(generator, g, keras_model, torch_model) := c in
  __call__ generator g keras_model torch_model.

Fixpoint run_calls (calls : list call_args) (s : state) : state :=
  match calls with
  | [] => s
  | c :: calls => run_calls calls (call_with c s).2
  end.

Definition loaded_with (L : list event) (s : state) : Prop :=
  log s = L ∧ is_Some (exec_net (self s)).

Lemma call_body_keeps_loaded L k t generator g :
  keeps (loaded_with L) (λ _, True) (call_body k t generator g).
Proof.
  unfold call_body, submit_all, collect_rest, first_key, engine_read.
  repeat keeps_step ltac:(first [done | intros ? ? [? ?]; split; simpl; eauto
                                | intros ? [? ?]; split; simpl; eauto ]).
  all: unfold submit_batch, idle_request, collect_output, store_output, request_at, engine_read.
  all: repeat keeps_step ltac:(first [done | intros ? ? [? ?]; split; simpl; eauto
                                | intros ? [? ?]; split; simpl; eauto ]).
Qed.

Lemma call_loaded_keeps c (s : state) :
  is_Some (exec_net (self s)) → loaded_with (log s) (call_with c s).2.
Proof.
  intros [e He]. destruct c as [[[generator g] k] t]. unfold call_with.
  rewrite call_unfold. unfold mbind, M_bind. rewrite (lazy_load_loaded _ _ _ _ He).
  pose proof (call_body_keeps_loaded (log s) k t generator g s) as Hk.
  destruct (call_body k t generator g s) as [[a|e'] s']; simpl; apply Hk; split; eauto.
Qed.

Lemma run_calls_loaded calls : ∀ (s : state),
  is_Some (exec_net (self s)) → loaded_with (log s) (run_calls calls s).
Proof.
  induction calls as [|c calls IH]; intros s Hs; simpl; [done|].
  destruct (call_loaded_keeps c s Hs) as [Hlog Hsome].
  destruct (IH _ Hsome) as [Hlog' Hsome']. split; [congruence|done].
Qed.

(** C6.  After construction no network is loaded and nothing was
    converted.  The first invocation either raises before a network is
    stored, or it has converted the model by the path of its framework and
    loaded the network, once each; every later invocation, whatever its
    outcome, finds the network loaded and converts and loads nothing. *)
Theorem lazy_load_once (m : model_handle) (d : string) (b : nat) (c : call_args) :
  let s0 : state := {| self := __init__ m d b; log := [] |} in
  let s1 := (call_with c s0).2 in
  exec_net (self s0) = None
  ∧ (exec_net (self s1) = None → ∃ e, (call_with c s0).1 = Raise e)
  ∧ (is_Some (exec_net (self s1)) →
       (∃ evs, log s1 = evs ++ [load_event] ∧ conversion_of m evs)
       ∧ ∀ calls, log (run_calls calls s1) = log s1
                  ∧ is_Some (exec_net (self (run_calls calls s1)))).
Proof.
  intros s0 s1. split; [done|].
  assert (Hcases :
    (exec_net (self s1) = None ∧ ∃ e, (call_with c s0).1 = Raise e)
    ∨ (is_Some (exec_net (self s1))
       ∧ ∃ evs, log s1 = evs ++ [load_event] ∧ conversion_of m evs)).
  { subst s1. destruct c as [[[generator g] k] t]. unfold call_with.
    rewrite call_unfold. unfold mbind, M_bind.
    rewrite (lazy_load_unloaded generator g s0) by done.
    pose proof (load_model_cases generator g s0) as Hc.
    destruct (_load_model generator g s0) as [[[gen' g']|e] s'].
    - destruct Hc as [(net & evs & Hself & Hlog & Hconv) _]. right.
      pose proof (call_body_keeps_loaded (log s') k t gen' g' s') as Hk.
      assert (Hl : loaded_with (log s') s').
      { split; [done|]. rewrite Hself. simpl. eauto. }
      specialize (Hk Hl).
      destruct (call_body k t gen' g' s') as [[a|e'] s'']; simpl.
      + destruct Hk as [Hlog' Hsome]. split; [done|]. exists evs. by rewrite Hlog', Hlog.
      + destruct Hk as [[Hlog' Hsome] _]. split; [done|]. exists evs. by rewrite Hlog', Hlog.
    - left. simpl. rewrite Hc. split; [done|eauto]. }
  split.
  - intros Hnone. destruct Hcases as [[_ ?]|[[e He] _]]; [done|congruence].
  - intros Hsome. destruct Hcases as [[Hnone _]|[_ Hevs]].
    + rewrite Hnone in Hsome. by destruct Hsome.
    + split; [done|]. intros calls. apply run_calls_loaded. done.
Qed.
End Lazy.

(** ** The request pool and the order of the results *)

Section Pool.
Context {T E : Type} `{Scalar T} `{Engine T E} `{Toolkit E}.

Local Abbreviation M := (@M T E _).
Local Abbreviation state := (@state T E _).

(** What the adapter relies on from the engine.  [slot_input e i] is the
    input that request [i] was last started with and [slot_idle e i] says
    that request [i] is not running; [infer] is the function the network
    computes.  Polling and waiting start nothing, [async_infer] starts the
    request it is called on, a request handed out as idle is idle, after a
    successful wait for all requests every request is idle, and the output
    blob of an idle request holds the result for its last input. *)
Record engine_contract (infer : ndarray T → ndarray T) (inp_name out_name : string)
    (slot_input : E → nat → option (ndarray T)) (slot_idle : E → nat → Prop) : Prop := {
  poll_keeps_input : ∀ e i,
    slot_input (get_idle_request_id e).2 i = slot_input e i;
  wait_keeps_input : ∀ k e i,
    slot_input (wait k e).2 i = slot_input e i;
  async_sets_input : ∀ e i x i', i < num_requests e →
    slot_input (async_infer i inp_name x e) i'
    = if decide (i' = i) then Some x else slot_input e i';
  polled_is_idle : ∀ e, (0 ≤ (get_idle_request_id e).1)%Z →
    slot_idle (get_idle_request_id e).2 (Z.to_nat (get_idle_request_id e).1);
  waited_all_idle : ∀ e i, is_OK (wait None e).1 = true →
    i < num_requests (wait None e).2 → slot_idle (wait None e).2 i;
  idle_buffer : ∀ e i x, slot_idle e i → slot_input e i = Some x →
    output_buffer e i out_name = infer x;
}.

(** The array a batch contributes, the array submitted for it, and the
    result the network computes for it. *)
Definition prepared (keras_model torch_model : option (@prepare_hook T)) (b : batch T)
  : list (ndarray T) :=
  match keras_model, torch_model with
  | Some k, _ => k b.1.1
  | None, Some t => t b.1.1
  | None, None => b.1.1
  end.

Definition batch_input (k t : option (@prepare_hook T)) (b : batch T) : ndarray T :=
  default (NDArray [] []) (head (prepared k t b)).

Definition submitted (batch_size : nat) (x : ndarray T) : ndarray T :=
  if length (rows x) =? batch_size then x else pad_batch batch_size x.

Definition prediction (infer : ndarray T → ndarray T) (batch_size : nat)
    (k t : option (@prepare_hook T)) (b : batch T) : ndarray T :=
  infer (submitted batch_size (batch_input k t b)).

(** The results in the order of the batches, the last one cut to the size
    of the last batch. *)
Definition expected_output (infer : ndarray T → ndarray T) (batch_size : nat)
    (k t : option (@prepare_hook T)) (m j : nat) (b : batch T) : ndarray T :=
  if decide (S j = m)
  then slice_prefix (length (rows (batch_input k t b))) (prediction infer batch_size k t b)
  else prediction infer batch_size k t b.

Definition expected_outputs (infer : ndarray T → ndarray T) (batch_size : nat)
    (k t : option (@prepare_hook T)) (batches : list (batch T)) : list (ndarray T) :=
  imap (expected_output infer batch_size k t (length batches)) batches.

(** No request slot that the loop left unused comes before the slot that
    holds the batch [last]. *)
Fixpoint no_unused_before (last : Z) (infer_request_input_id : list Z) : bool :=
  match infer_request_input_id with
  | [] => true
  | q :: rest =>
      if (q =? last)%Z then true
      else if (q =? -1)%Z then false
      else no_unused_before last rest
  end.

Lemma py_getitem_Ok {A} (l : list A) (i : Z) x :
  py_getitem l i = Ok x → ∃ j, py_index (length l) i = Some j ∧ l !! j = Some x.
Proof.
  unfold py_getitem. destruct (py_index _ _) as [j|]; [|done].
  destruct (l !! j) eqn:Hj; [|done]. intros [= <-]. eauto.
Qed.

Lemma py_setitem_Ok {A} (l : list A) (i : Z) x l' :
  py_setitem l i x = Ok l' → ∃ j, py_index (length l) i = Some j ∧ l' = <[j:=x]> l.
Proof.
  unfold py_setitem. destruct (py_index _ _) as [j|]; [|done]. intros [= <-]. eauto.
Qed.

Lemma py_index_nonneg len (i : Z) j :
  (0 ≤ i)%Z → py_index len i = Some j → j = Z.to_nat i ∧ j < len.
Proof.
  unfold py_index. intros Hi. destruct (i <? 0)%Z eqn:Hneg; [lia|].
  destruct (_ && _)%bool eqn:Hb; [|done]. intros [= <-].
  apply andb_prop in Hb as [_ Hlt%Z.ltb_lt]. lia.
Qed.

Lemma py_index_last len j :
  py_index len (-1) = Some j → S j = len.
Proof.
  unfold py_index. simpl. destruct (_ && _)%bool eqn:Hb; [|done]. intros [= <-].
  apply andb_prop in Hb as [Hge%Z.leb_le Hlt%Z.ltb_lt]. lia.
Qed.

(** The state an engine call leaves: only [exec_net] changes. *)
Definition on_engine (e' : E) (s : state) : state :=
  {| self := set_exec_net (Some e') (self s); log := log s |}.

(** A run of [idle_request] that returns: the engine was polled, perhaps
    waited on and polled again, and the last poll gave the id. *)
Lemma idle_request_Ok (s : state) id s' :
  idle_request s = (Ok id, s') →
  ∃ e e0, exec_net (self s) = Some e
    ∧ (0 ≤ id)%Z
    ∧ get_idle_request_id e0 = (id, (get_idle_request_id e0).2)
    ∧ s' = on_engine (get_idle_request_id e0).2 s
    ∧ (e0 = e ∨ e0 = (wait (Some 1) (get_idle_request_id e).2).2).
Proof.
  unfold idle_request. intros Hrun.
  apply bind_Ok in Hrun as (id1 & s1 & (e & e1 & He & Hid & ->)%engine_Ok & Hrun).
  destruct (id1 <? 0)%Z eqn:Hneg.
  - apply bind_Ok in Hrun as (st & s2 & (e1' & e2 & He1 & Hw & ->)%engine_Ok & Hrun).
    simpl in He1. injection He1 as <-.
    destruct (is_OK st); simpl in Hrun; [|done].
    apply bind_Ok in Hrun as (id2 & s3 & (e2' & e3 & He2 & Hid2 & ->)%engine_Ok & Hrun).
    simpl in He2. injection He2 as <-.
    destruct (id2 <? 0)%Z eqn:Hneg2; [done|]. injection Hrun as <- <-.
    exists e, e2. split; [done|]. split; [lia|]. rewrite Hid2. simpl.
    split; [done|]. split.
    + unfold on_engine. simpl. done.
    + right. rewrite Hid. simpl. by rewrite Hw.
  - injection Hrun as <- <-. exists e, e. split; [done|]. split; [lia|].
    rewrite Hid. simpl. split; [done|]. split; [done|]. by left.
Qed.

Lemma idle_request_contract infer inp_name out_name slot_input slot_idle (s : state) id s' e :
  engine_contract infer inp_name out_name slot_input slot_idle →
  exec_net (self s) = Some e →
  idle_request s = (Ok id, s') →
  ∃ e1, s' = on_engine e1 s ∧ (0 ≤ id)%Z
    ∧ slot_idle e1 (Z.to_nat id)
    ∧ ∀ i, slot_input e1 i = slot_input e i.
Proof.
  intros C He (e' & e0 & He' & Hid & Hpoll & -> & He0)%idle_request_Ok.
  rewrite He in He'. injection He' as <-.
  exists (get_idle_request_id e0).2. split; [done|]. split; [done|].
  pose proof (polled_is_idle _ _ _ _ _ C e0) as Hidle.
  rewrite Hpoll in Hidle. simpl in Hidle. split; [by apply Hidle|].
  intros i. rewrite (poll_keeps_input _ _ _ _ _ C).
  destruct He0 as [->| ->]; [done|].
  by rewrite (wait_keeps_input _ _ _ _ _ C), (poll_keeps_input _ _ _ _ _ C).
Qed.

Lemma request_at_Ok (i : Z) (s : state) r s' :
  request_at i s = (Ok r, s') →
  ∃ e, exec_net (self s) = Some e ∧ py_index (num_requests e) i = Some r ∧ s' = s.
Proof.
  unfold request_at. intros Hrun.
  apply bind_Ok in Hrun as (n & s1 & (e & He & -> & ->)%engine_read_Ok & Hrun).
  destruct (py_index (num_requests e) i) as [j|] eqn:Hj; [|done].
  injection Hrun as <- <-. eauto.
Qed.

Lemma store_output_Ok (out_id : Z) v (s : state) u s' :
  store_output out_id v s = (Ok u, s') →
  ∃ outs, py_setitem (outputs (self s)) out_id (Some v) = Ok outs
          ∧ s' = {| self := set_outputs outs (self s); log := log s |}.
Proof.
  unfold store_output. intros Hrun.
  apply bind_Ok in Hrun as (self0 & s1 & [= <- <-] & Hrun).
  apply bind_Ok in Hrun as (outs & s1 & [Hset ->]%lift_Ok & Hrun).
  injection Hrun as <- <-. eauto.
Qed.

(** A run of the loop body that returns. *)
Lemma submit_batch_Ok inp_name out_name k t j b iri lbs (s : state) iri' lbs' s' :
  submit_batch inp_name out_name k t j b (iri, lbs) s = (Ok (iri', lbs'), s') →
  ∃ x id s1 e1 q outs,
    head (prepared k t b) = Some x
    ∧ idle_request s = (Ok id, s1)
    ∧ exec_net (self s1) = Some e1
    ∧ py_getitem iri id = Ok q
    ∧ py_index (num_requests e1) id = Some (Z.to_nat id)
    ∧ (if (q =? -1)%Z then outs = outputs (self s1)
       else py_setitem (outputs (self s1)) q
              (Some (output_buffer e1 (Z.to_nat id) out_name)) = Ok outs)
    ∧ py_setitem iri id (Z.of_nat j) = Ok iri'
    ∧ lbs' = Some (length (rows x))
    ∧ s' = on_engine
             (async_infer (Z.to_nat id) inp_name (submitted (batch_size (self s)) x) e1)
             {| self := set_outputs (outs ++ [None]) (self s1); log := log s1 |}.
Proof.
  unfold submit_batch. destruct b as [[inputs labels] weights]. intros Hrun.
  apply bind_Ok in Hrun as (x & s0 & [Hx ->]%lift_Ok & Hrun).
  apply bind_Ok in Hrun as (self0 & s0 & [= <- <-] & Hrun).
  apply bind_Ok in Hrun as (x' & s0 & Hpad & Hrun).
  assert (x' = submitted (batch_size (self s)) x ∧ s0 = s) as [-> ->].
  { unfold submitted. destruct (length (rows x) =? batch_size (self s)); simpl in Hpad.
    - by injection Hpad as <- <-.
    - apply bind_Ok in Hpad as (u & s2 & [_ ->]%py_assert_Ok & Hpad).
      by injection Hpad as <- <-. }
  apply bind_Ok in Hrun as (id & s1 & Hidle & Hrun).
  apply bind_Ok in Hrun as (q & s2 & [Hq ->]%lift_Ok & Hrun).
  apply bind_Ok in Hrun as (r & s2 & (e1 & He1 & Hr & ->)%request_at_Ok & Hrun).
  apply bind_Ok in Hrun as (u & s2 & Hstore & Hrun).
  apply bind_Ok in Hrun as (iri2 & s3 & [Hset ->]%lift_Ok & Hrun).
  apply bind_Ok in Hrun as (u2 & s3 & [= <- <-] & Hrun).
  apply bind_Ok in Hrun as (u3 & s4 & (e2 & e3 & He2 & [= <- <-] & ->)%engine_Ok & Hrun).
  injection Hrun as <- <- <-.
  pose proof Hidle as (e & e0 & _ & Hid & _)%idle_request_Ok.
  apply (py_index_nonneg _ _ _ Hid) in Hr as Hr'. destruct Hr' as [-> _].
  assert (Hx' : head (prepared k t (inputs, labels, weights)) = Some x).
  { apply py_getitem_Ok in Hx as (j0 & Hj0 & Hl).
    apply py_index_nonneg in Hj0 as [-> _]; [|lia].
    unfold prepared. simpl. destruct k, t; by rewrite head_lookup. }
  destruct (q =? -1)%Z eqn:Hq1; simpl in Hstore.
  - injection Hstore as <- <-. simpl in He2. rewrite He1 in He2. injection He2 as <-.
    exists x, id, s1, e1, q, (outputs (self s1)). rewrite Hq1. done.
  - apply bind_Ok in Hstore as (buf & s5 & (e1' & He1' & -> & ->)%engine_read_Ok & Hstore).
    rewrite He1 in He1'. injection He1' as <-.
    apply store_output_Ok in Hstore as (outs & Houts & ->).
    simpl in He2. rewrite He1 in He2. injection He2 as <-.
    exists x, id, s1, e1, q, outs. rewrite Hq1. done.
Qed.

(** *** The loop over the batches *)

Section Loop.
Variable infer : ndarray T → ndarray T.
Variables inp_name out_name : string.
Variable slot_input : E → nat → option (ndarray T).
Variable slot_idle : E → nat → Prop.
Hypothesis contract : engine_contract infer inp_name out_name slot_input slot_idle.
Variables k t : option (@prepare_hook T).
Variable batches : list (batch T).
Variable old : list (option (ndarray T)).
Variable bs : nat.

(** After [j] batches: every slot of the table is unused or holds the
    index of a batch that was submitted to this request and not replaced
    since; no two slots hold the same batch; the result of every batch
    that is no longer in the table is stored at the index of the batch;
    every other entry of [self.outputs] is as it was on entry or as it was
    appended. *)
Definition submit_inv (j : nat) (l : locals) (s : state) : Prop :=
  ∃ e,
    exec_net (self s) = Some e
    ∧ batch_size (self s) = bs
    ∧ length (outputs (self s)) = length old + j
    ∧ (∀ j' b', j = S j' → batches !! j' = Some b' →
         l.2 = Some (length (rows (batch_input k t b'))))
    ∧ (∀ i q, l.1 !! i = Some q →
         q = (-1)%Z
         ∨ ∃ p b, q = Z.of_nat p ∧ p < j ∧ batches !! p = Some b
                  ∧ slot_input e i = Some (submitted bs (batch_input k t b)))
    ∧ (∀ i i' p, l.1 !! i = Some (Z.of_nat p) → l.1 !! i' = Some (Z.of_nat p) → i = i')
    ∧ (∀ p b, batches !! p = Some b → p < j →
         (∀ i, l.1 !! i ≠ Some (Z.of_nat p)) →
         outputs (self s) !! p = Some (Some (prediction infer bs k t b)))
    ∧ (∀ p, (j ≤ p ∨ ∃ i, l.1 !! i = Some (Z.of_nat p)) →
         outputs (self s) !! p = (old ++ replicate j None) !! p)
    ∧ (∀ j', j = S j' → ∃ i, l.1 !! i = Some (Z.of_nat j')).

Lemma submit_inv_start (s : state) e :
  exec_net (self s) = Some e → batch_size (self s) = bs → outputs (self s) = old →
  submit_inv 0 (replicate (num_requests e) (-1)%Z, None) s.
Proof.
  intros He Hbs Hold. exists e. simpl. repeat split; try done.
  - rewrite Hold. lia.
  - intros i q [-> _]%lookup_replicate. by left.
  - intros i i' p [Hp _]%lookup_replicate. lia.
  - intros p b _ Hp. lia.
  - intros p _. by rewrite Hold, app_nil_r.
Qed.

Lemma submit_inv_step j b l (s : state) l' s' :
  batches !! j = Some b →
  submit_inv j l s →
  submit_batch inp_name out_name k t j b l s = (Ok l', s') →
  submit_inv (S j) l' s'.
Proof.
  intros Hb (e & He & Hbs & Hlen & Hlbs & Hslots & Hinj & Hdone & Hkept & _) Hrun.
  destruct l as [iri lbs], l' as [iri' lbs']. simpl in *.
  apply (submit_batch_Ok _ _ _ _ _ _ _ lbs) in Hrun
    as (x & id & s1 & e1 & q & outs & Hx & Hidle & He1 & Hq & Hr & Houts & Hset & -> & ->).
  destruct (idle_request_contract _ _ _ _ _ _ _ _ _ contract He Hidle)
    as (e1' & -> & Hid & Hisidle & Hinput).
  simpl in He1. injection He1 as <-. simpl in *.
  set (r := Z.to_nat id) in *.
  apply py_getitem_Ok in Hq as (r' & Hr' & Hq).
  apply (py_index_nonneg _ _ _ Hid) in Hr' as [-> Hrlen]. fold r in Hq, Hrlen.
  apply (py_index_nonneg _ _ _ Hid) in Hr as [_ Hrnum].
  apply py_setitem_Ok in Hset as (r' & Hr' & ->).
  apply (py_index_nonneg _ _ _ Hid) in Hr' as [-> _]. fold r.
  assert (Hxb : batch_input k t b = x) by (unfold batch_input; by rewrite Hx).
  (* what the copy of the previous result did to the outputs *)
  assert (Hcopy : length outs = length (outputs (self s))
    ∧ (∀ p, iri !! r ≠ Some (Z.of_nat p) → outs !! p = outputs (self s) !! p)
    ∧ (∀ p b', iri !! r = Some (Z.of_nat p) → batches !! p = Some b' →
         outs !! p = Some (Some (prediction infer bs k t b')))).
  { destruct (q =? -1)%Z eqn:Hq1.
    - subst outs. apply Z.eqb_eq in Hq1. subst q. split; [done|]. split; [done|].
      intros p b' Hp. rewrite Hq in Hp. injection Hp. lia.
    - apply Z.eqb_neq in Hq1.
      destruct (Hslots r q Hq) as [?|(p & bp & -> & Hp & Hbp & Hin)]; [done|].
      apply py_setitem_Ok in Houts as (p' & Hp' & ->).
      apply py_index_nonneg in Hp' as [-> Hplen]; [|lia]. rewrite Nat2Z.id in *.
      rewrite length_insert. split; [done|]. split.
      + intros p0 Hp0. rewrite list_lookup_insert_ne; [done|]. intros ->. by rewrite Hq in Hp0.
      + intros p0 b' Hp0 Hb'. rewrite Hq in Hp0. injection Hp0 as Hp0.
        apply Nat2Z.inj in Hp0. subst p0. rewrite Hbp in Hb'. injection Hb' as <-.
        rewrite list_lookup_insert_eq by done. do 2 f_equal.
        unfold prediction. apply (idle_buffer _ _ _ _ _ contract); [done|].
        by rewrite Hinput. }
  destruct Hcopy as (Hlen' & Hsame & Hnew).
  eexists. split; [reflexivity|]. simpl. split; [done|]. split.
  { rewrite length_app, Hlen', Hlen. simpl. lia. }
  split.
  { intros j' b' [= <-] Hb'. rewrite Hb in Hb'. injection Hb' as <-. by rewrite Hxb. }
  split.
  { intros i q' Hi. apply list_lookup_insert_Some in Hi as [(<- & <- & _)|[Hne Hi]].
    - right. exists j, b. split; [done|]. split; [lia|]. split; [done|].
      rewrite (async_sets_input _ _ _ _ _ contract) by done.
      rewrite decide_True by done. by rewrite Hxb, Hbs.
    - destruct (Hslots i q' Hi) as [->|(p & bp & -> & Hp & Hbp & Hin)]; [by left|].
      right. exists p, bp. split; [done|]. split; [lia|]. split; [done|].
      rewrite (async_sets_input _ _ _ _ _ contract) by done.
      rewrite decide_False by done. by rewrite Hinput. }
  split.
  { intros i i' p Hi Hi'.
    apply list_lookup_insert_Some in Hi as [(<- & Hp & _)|[Hne Hi]];
      apply list_lookup_insert_Some in Hi' as [(<- & Hp' & _)|[Hne' Hi']]; try done.
    - apply Nat2Z.inj in Hp. subst p.
      destruct (Hslots i' _ Hi') as [?|(p & bp & Hp & Hlt & _)]; lia.
    - apply Nat2Z.inj in Hp'. subst p.
      destruct (Hslots i _ Hi) as [?|(p & bp & Hp & Hlt & _)]; lia.
    - by eapply Hinj. }
  split.
  { intros p bp Hbp Hp Hfree.
    assert (p ≠ j).
    { intros ->. apply (Hfree r). by rewrite list_lookup_insert_eq. }
    assert (p < length outs) by lia.
    rewrite lookup_app_l by done.
    destruct (decide (iri !! r = Some (Z.of_nat p))) as [Hheld|Hnot].
    - by apply Hnew.
    - rewrite Hsame by done. apply Hdone; [done|lia|].
      intros i Hi. apply (Hfree i). rewrite list_lookup_insert_ne; [done|].
      intros ->. done. }
  split; [|intros j' [= <-]; exists r; by rewrite list_lookup_insert_eq].
  intros p Hp.
  assert (Hp' : j ≤ p ∨ ∃ i, i ≠ r ∧ iri !! i = Some (Z.of_nat p)).
  { destruct Hp as [?|[i Hi]]; [left; lia|].
    apply list_lookup_insert_Some in Hi as [(<- & Hpj & _)|[Hne Hi]].
    - left. lia.
    - right. eauto. }
  assert (Hnot : iri !! r ≠ Some (Z.of_nat p)).
  { intros Hheld. destruct Hp' as [Hge|(i & Hne & Hi)].
    - destruct (Hslots r _ Hheld) as [?|(p0 & bp & Hp0 & Hlt & _)]; lia.
    - apply Hne. by eapply Hinj. }
  assert (Hbase : outs !! p = (old ++ replicate j None) !! p).
  { rewrite Hsame by done. apply Hkept. destruct Hp' as [?|(i & _ & Hi)]; eauto. }
  rewrite replicate_cons_app, app_assoc.
  destruct (decide (p < length outs)) as [Hlt|Hge].
  - assert (Hl : length (old ++ replicate j None) = length outs).
    { rewrite length_app, length_replicate. lia. }
    rewrite !lookup_app_l by lia. done.
  - assert (Hl : length (old ++ replicate j None) = length outs).
    { rewrite length_app, length_replicate. lia. }
    rewrite !lookup_app_r by lia. by rewrite Hl.
Qed.

Lemma submit_all_inv (s : state) e l s' :
  exec_net (self s) = Some e → batch_size (self s) = bs → outputs (self s) = old →
  submit_all inp_name out_name k t batches s = (Ok l, s') →
  submit_inv (length batches) l s'.
Proof.
  intros He Hbs Hold Hrun. unfold submit_all in Hrun.
  apply bind_Ok in Hrun as (n & s1 & (e' & He' & -> & ->)%engine_read_Ok & Hrun).
  rewrite He in He'. injection He' as <-.
  apply (for_enumerate_Ok _ submit_inv) in Hrun.
  - done.
  - intros j b l0 s0 l1 s1 Hb Hinv Hstep. simpl in *. by eapply submit_inv_step.
  - by apply submit_inv_start.
Qed.

(** *** The loop over the request slots *)

Lemma collect_output_Ok lbs i q (s : state) u s' :
  collect_output out_name lbs i q u s = (Ok (), s') →
  ∃ idx cur,
    py_index (length (outputs (self s))) q = Some idx
    ∧ outputs (self s) !! idx = Some cur
    ∧ match cur with
      | Some _ => s' = s
      | None =>
          ∃ e v, exec_net (self s) = Some e ∧ i < num_requests e
            ∧ (if (q =? Z.of_nat (length (outputs (self s))) - 1)%Z
               then ∃ n, lbs = Some n ∧ v = slice_prefix n (output_buffer e i out_name)
               else v = output_buffer e i out_name)
            ∧ s' = {| self := set_outputs (<[idx := Some v]> (outputs (self s))) (self s);
                      log := log s |}
      end.
Proof.
  unfold collect_output. intros Hrun.
  apply bind_Ok in Hrun as (self0 & s0 & [= <- <-] & Hrun).
  apply bind_Ok in Hrun as (cur & s0 & [(idx & Hidx & Hcur)%py_getitem_Ok ->]%lift_Ok & Hrun).
  exists idx, cur. split; [done|]. split; [done|].
  destruct cur as [v|]; [by injection Hrun as <-|].
  apply bind_Ok in Hrun as (r & s0 & (e & He & Hr & ->)%request_at_Ok & Hrun).
  apply py_index_nonneg in Hr as [-> Hlt]; [|lia]. rewrite Nat2Z.id in *.
  apply bind_Ok in Hrun as (output & s0 & (e' & He' & -> & ->)%engine_read_Ok & Hrun).
  rewrite He in He'. injection He' as <-.
  destruct (q =? Z.of_nat (length (outputs (self s))) - 1)%Z eqn:Hlast.
  - apply bind_Ok in Hrun as (n & s0 & Hn & Hrun).
    destruct lbs as [n'|]; [|done]. injection Hn as <- <-.
    apply store_output_Ok in Hrun as (outs & (idx' & Hidx' & ->)%py_setitem_Ok & ->).
    rewrite Hidx in Hidx'. injection Hidx' as <-.
    exists e, (slice_prefix n' (output_buffer e i out_name)). eauto 10.
  - apply store_output_Ok in Hrun as (outs & (idx' & Hidx' & ->)%py_setitem_Ok & ->).
    rewrite Hidx in Hidx'. injection Hidx' as <-.
    exists e, (output_buffer e i out_name). eauto 10.
Qed.

Section Collect.
Variable iri : list Z.
Variable lbs : option nat.
Variable ew : E.
Variable O0 : list (option (ndarray T)).

Hypothesis slots_hold : ∀ i q, iri !! i = Some q →
  q = (-1)%Z
  ∨ ∃ p b, q = Z.of_nat p ∧ p < length batches ∧ batches !! p = Some b
           ∧ slot_input ew i = Some (submitted bs (batch_input k t b)).
Hypothesis slots_differ : ∀ i i' p,
  iri !! i = Some (Z.of_nat p) → iri !! i' = Some (Z.of_nat p) → i = i'.
Hypothesis all_idle : ∀ i, i < num_requests ew → slot_idle ew i.
Hypothesis O0_length : length O0 = length old + length batches.

(** After the slots below [i]: the entries other than the last one are as
    the loop over the batches left them, except that the still empty entry
    of a batch held by one of these slots has got the result of the batch. *)
Definition collect_inv (i : nat) (_ : unit) (s : state) : Prop :=
  exec_net (self s) = Some ew
  ∧ length (outputs (self s)) = length old + length batches
  ∧ (∀ p, S p ≠ length old + length batches →
       (∀ i', i' < i → iri !! i' ≠ Some (Z.of_nat p)) →
       outputs (self s) !! p = O0 !! p)
  ∧ (∀ p i' b, S p ≠ length old + length batches →
       i' < i → iri !! i' = Some (Z.of_nat p) → batches !! p = Some b →
       outputs (self s) !! p
       = match O0 !! p with
         | Some None => Some (Some (prediction infer bs k t b))
         | v => v
         end).

Lemma collect_inv_step i q (s : state) s' :
  iri !! i = Some q →
  collect_inv i () s →
  collect_output out_name lbs i q () s = (Ok (), s') →
  collect_inv (S i) () s'.
Proof.
  intros Hq (He & Hlen & Hfree & Hheld) Hrun.
  apply collect_output_Ok in Hrun as (idx & cur & Hidx & Hcur & Hrun).
  rewrite Hlen in Hidx.
  (* the entry this slot looks at, and what may change *)
  assert (Hwhere : (q = (-1)%Z ∧ S idx = length old + length batches)
    ∨ (∃ b, q = Z.of_nat idx ∧ batches !! idx = Some b
            ∧ slot_input ew i = Some (submitted bs (batch_input k t b)))).
  { destruct (slots_hold i q Hq) as [->|(p & b & -> & Hp & Hb & Hin)].
    - left. split; [done|]. by apply py_index_last in Hidx.
    - right. apply py_index_nonneg in Hidx as [-> _]; [|lia]. rewrite Nat2Z.id. eauto. }
  destruct cur as [v|].
  - subst s'. split; [done|]. split; [done|]. split.
    + intros p Hp Hnone. apply Hfree; [done|]. intros i' Hi'. apply Hnone. lia.
    + intros p i' b Hp Hi' Hi Hb. destruct (decide (i' = i)) as [->|Hne].
      * rewrite Hq in Hi. injection Hi as ->.
        destruct Hwhere as [[? _]|(b' & Hidx' & _)]; [lia|].
        apply Nat2Z.inj in Hidx'. subst idx.
        assert (Hsame : outputs (self s) !! p = O0 !! p).
        { apply Hfree; [done|]. intros i0 Hi0 Hi0'.
          assert (i0 = i) by by eapply slots_differ. lia. }
        rewrite <- Hsame, Hcur. done.
      * apply (Hheld p i' b); [done|lia|done|done].
  - destruct Hrun as (e & v & He' & Hnum & Hv & ->). rewrite He in He'. injection He' as <-.
    unfold collect_inv. cbn [self outputs exec_net set_outputs].
    split; [done|]. split; [by rewrite length_insert|]. split.
    + intros p Hp Hnone. rewrite list_lookup_insert_ne.
      * apply Hfree; [done|]. intros i' Hi'. apply Hnone. lia.
      * intros ->. destruct Hwhere as [[_ ?]|(b' & -> & _)]; [done|].
        apply (Hnone i); [lia|done].
    + intros p i' b Hp Hi' Hi Hb. destruct (decide (i' = i)) as [->|Hne].
      * rewrite Hq in Hi. injection Hi as ->.
        destruct Hwhere as [[? _]|(b' & Hidx' & Hb' & Hin)]; [lia|].
        apply Nat2Z.inj in Hidx'. subst idx. rewrite Hb in Hb'. injection Hb' as <-.
        assert (Hsame : outputs (self s) !! p = O0 !! p).
        { apply Hfree; [done|]. intros i0 Hi0 Hi0'.
          assert (i0 = i) by by eapply slots_differ. lia. }
        rewrite <- Hsame, Hcur.
        rewrite list_lookup_insert_eq by (apply lookup_lt_Some in Hcur; done).
        rewrite Hlen in Hv.
        destruct (Z.of_nat p =? Z.of_nat (length old + length batches) - 1)%Z eqn:Hlast.
        { apply Z.eqb_eq in Hlast. lia. }
        subst v. do 2 f_equal. unfold prediction.
        apply (idle_buffer _ _ _ _ _ contract); [by apply all_idle|done].
      * rewrite list_lookup_insert_ne.
        { apply (Hheld p i' b); [done|lia|done|done]. }
        intros ->. destruct Hwhere as [[_ ?]|(b' & -> & _)]; [done|].
        apply Hne. by eapply slots_differ.
Qed.

(** The last entry, when it is the entry of the last batch [b] and no
    unused slot comes before the slot that holds this batch: it is empty
    until this slot is reached and holds the cut result from then on. *)
Definition last_inv (pl : nat) (b : batch T) (i : nat) (_ : unit) (s : state) : Prop :=
  exec_net (self s) = Some ew
  ∧ length (outputs (self s)) = S pl
  ∧ ((∀ i', i' < i → iri !! i' ≠ Some (Z.of_nat pl)) → outputs (self s) !! pl = Some None)
  ∧ (∀ i', i' < i → iri !! i' = Some (Z.of_nat pl) →
       outputs (self s) !! pl
       = Some (Some (slice_prefix (length (rows (batch_input k t b)))
                       (prediction infer bs k t b)))).

Lemma last_inv_step pl b i q (s : state) s' :
  batches !! pl = Some b →
  lbs = Some (length (rows (batch_input k t b))) →
  (∀ L i', iri !! L = Some (Z.of_nat pl) → i' < L → iri !! i' ≠ Some (-1)%Z) →
  (∃ L, iri !! L = Some (Z.of_nat pl)) →
  iri !! i = Some q →
  last_inv pl b i () s →
  collect_output out_name lbs i q () s = (Ok (), s') →
  last_inv pl b (S i) () s'.
Proof.
  intros Hb Hlbs Htidy [L HL] Hq (He & Hlen & Hbefore & Hafter) Hrun.
  apply collect_output_Ok in Hrun as (idx & cur & Hidx & Hcur & Hrun).
  rewrite Hlen in Hidx.
  destruct (slots_hold i q Hq) as [->|(p & b' & -> & Hp & Hb' & Hin)].
  - (* an unused slot: the slot of the last batch has been passed *)
    apply py_index_last in Hidx. injection Hidx as ->.
    assert (HLi : L < i).
    { destruct (decide (L < i)) as [?|Hge]; [done|]. exfalso.
      destruct (decide (L = i)) as [->|Hne]; [rewrite Hq in HL; injection HL; lia|].
      apply (Htidy L i HL); [lia|done]. }
    rewrite (Hafter L HLi HL) in Hcur. injection Hcur as <-. subst s'.
    split; [done|]. split; [done|]. split.
    + intros Hnone. exfalso. apply (Hnone L); [lia|done].
    + intros i' Hi' Hi. by apply (Hafter L).
  - apply py_index_nonneg in Hidx as [-> _]; [|lia]. rewrite Nat2Z.id in *.
    destruct (decide (p = pl)) as [->|Hne].
    + (* the slot of the last batch *)
      rewrite Hb in Hb'. injection Hb' as <-.
      assert (Hempty : outputs (self s) !! pl = Some None).
      { apply Hbefore. intros i' Hi' Hi. assert (i' = i) by by eapply slots_differ. lia. }
      rewrite Hempty in Hcur. injection Hcur as <-.
      destruct Hrun as (e & v & He' & Hnum & Hv & ->). rewrite He in He'. injection He' as <-.
      rewrite Hlen in Hv.
      replace (Z.of_nat pl =? Z.of_nat (S pl) - 1)%Z with true in Hv
        by (symmetry; apply Z.eqb_eq; lia).
      destruct Hv as (n & Hn & ->). rewrite Hlbs in Hn. injection Hn as <-.
      unfold last_inv. cbn [self outputs exec_net set_outputs].
      split; [done|]. split; [by rewrite length_insert|]. split.
      * intros Hnone. exfalso. apply (Hnone i); [lia|done].
      * intros i' Hi' Hi. rewrite list_lookup_insert_eq by lia.
        do 3 f_equal. apply (idle_buffer _ _ _ _ _ contract); [by apply all_idle|done].
    + assert (Hsame : outputs (self s') !! pl = outputs (self s) !! pl
                      ∧ exec_net (self s') = Some ew
                      ∧ length (outputs (self s')) = S pl).
      { destruct cur as [v|]; [by subst s'|].
        destruct Hrun as (e & v & He' & Hnum & Hv & ->).
        cbn [self outputs exec_net set_outputs].
        rewrite list_lookup_insert_ne by done. by rewrite length_insert. }
      destruct Hsame as (Hsame & He' & Hlen').
      split; [done|]. split; [done|]. rewrite Hsame. split.
      * intros Hnone. apply Hbefore. intros i' Hi'. apply Hnone. lia.
      * intros i' Hi' Hi. apply (Hafter i'); [|done].
        destruct (decide (i' = i)) as [->|?]; [|lia].
        rewrite Hq in Hi. injection Hi. lia.
Qed.
End Collect.

Lemma no_unused_before_spec last : ∀ iri L,
  no_unused_before last iri = true →
  iri !! L = Some last →
  (∀ L', L' < L → iri !! L' ≠ Some last) →
  ∀ i', i' < L → iri !! i' ≠ Some (-1)%Z.
Proof.
  induction iri as [|q rest IH]; intros L Hno HL Hfirst i' Hi'; [done|].
  destruct L as [|L]; [lia|]. simpl in *.
  assert (Hq : q ≠ last).
  { intros ->. by apply (Hfirst 0); [lia|]. }
  apply Z.eqb_neq in Hq. rewrite Hq in Hno.
  destruct (q =? -1)%Z eqn:Hq1; [done|]. apply Z.eqb_neq in Hq1.
  destruct i' as [|i']; simpl; [congruence|].
  apply (IH L); [done|done| |lia].
  intros L' HL'. apply (Hfirst (S L')). lia.
Qed.

(** *** What a run of the two loops leaves in [self.outputs] *)
Lemma run_outputs (s : state) e l s1 s' :
  exec_net (self s) = Some e → batch_size (self s) = bs → outputs (self s) = old →
  submit_all inp_name out_name k t batches s = (Ok l, s1) →
  collect_rest out_name l s1 = (Ok (), s') →
  length (outputs (self s')) = length old + length batches
  ∧ (∀ p b, batches !! p = Some b → S p ≠ length old + length batches →
       outputs (self s') !! p = Some (Some (prediction infer bs k t b))
       ∨ ∃ v, old !! p = Some (Some v) ∧ outputs (self s') !! p = Some (Some v))
  ∧ (∀ p, length batches ≤ p → S p ≠ length old + length batches →
       outputs (self s') !! p = (old ++ replicate (length batches) None) !! p)
  ∧ (∀ pl b, length old + length batches = S pl → batches !! pl = Some b →
       no_unused_before (Z.of_nat pl) l.1 = true →
       outputs (self s') !! pl
       = Some (Some (slice_prefix (length (rows (batch_input k t b)))
                       (prediction infer bs k t b))))
  ∧ (∀ pl b, length batches = S pl → batches !! pl = Some b →
       ∃ e' i, exec_net (self s') = Some e'
               ∧ slot_input e' i = Some (submitted bs (batch_input k t b))).
Proof.
  intros He Hbs Hold Hsub Hcol.
  destruct (submit_all_inv _ _ _ _ He Hbs Hold Hsub)
    as (e1 & He1 & Hbs1 & Hlen1 & Hlbs & Hslots & Hinj & Hdone & Hkept & Hlast).
  destruct l as [iri lbs]. simpl in *. unfold collect_rest in Hcol.
  apply bind_Ok in Hcol as (st & sw & (e1' & ew & He1' & Hw & ->)%engine_Ok & Hcol).
  rewrite He1 in He1'. injection He1' as <-.
  apply bind_Ok in Hcol as (u & sw & Hst & Hloop).
  destruct (is_OK st) eqn:Hok; simpl in Hst; [|done]. injection Hst as _ <-.
  assert (Hew : ew = (wait None e1).2) by by rewrite Hw.
  assert (Hslots' : ∀ i q, iri !! i = Some q →
    q = (-1)%Z
    ∨ ∃ p b, q = Z.of_nat p ∧ p < length batches ∧ batches !! p = Some b
             ∧ slot_input ew i = Some (submitted bs (batch_input k t b))).
  { intros i q Hq. destruct (Hslots i q Hq) as [->|(p & b & -> & Hp & Hb & Hin)]; [by left|].
    right. exists p, b. rewrite Hew, (wait_keeps_input _ _ _ _ _ contract). done. }
  assert (Hidle : ∀ i, i < num_requests ew → slot_idle ew i).
  { intros i Hi. rewrite Hew in *. apply (waited_all_idle _ _ _ _ _ contract); [|done].
    by rewrite Hw. }
  assert (Hfinal : collect_inv iri ew (outputs (self s1)) (0 + length iri) () s').
  { eapply (for_enumerate_Ok _ (collect_inv iri ew (outputs (self s1)))); [| |exact Hloop].
    - intros j q [] s2 [] s3 Hq Hinv Hstep. simpl in *.
      by eapply (collect_inv_step iri lbs ew (outputs (self s1)) Hslots' Hinj Hidle).
    - split; [done|]. split; [done|]. split; [done|]. intros p i' b _ Hi'. lia. }
  destruct Hfinal as (Hew' & Hlen' & Hfree & Hheld). simpl in *.
  split; [done|]. split; [|split; [|split]].
  - intros p b Hb Hp. pose proof (lookup_lt_Some _ _ _ Hb) as Hpm.
    destruct (decide (Z.of_nat p ∈ iri)) as [Hin|Hnin].
    + apply list_elem_of_lookup in Hin as [i' Hi'].
      rewrite (Hheld p i' b Hp (lookup_lt_Some _ _ _ Hi') Hi' Hb).
      rewrite (Hkept p) by eauto.
      destruct (decide (p < length old)) as [Hlt|Hge].
      * rewrite lookup_app_l by done.
        destruct (lookup_lt_is_Some_2 old p Hlt) as [[v|] Hv]; rewrite Hv; [|by left].
        right. eauto.
      * rewrite lookup_app_r by lia. rewrite lookup_replicate_2 by lia. by left.
    + left. rewrite Hfree; [|done|].
      * apply Hdone; [done|done|]. intros i Hi. apply Hnin. by eapply list_elem_of_lookup_2.
      * intros i' _ Hi. apply Hnin. by eapply list_elem_of_lookup_2.
  - intros p Hp HpN. rewrite Hfree; [|done|].
    + apply Hkept. by left.
    + intros i' _ Hi. destruct (Hslots i' _ Hi) as [?|(p' & b & Hpp & Hlt & _)]; lia.
  - intros pl b HN Hb Htidy. pose proof (lookup_lt_Some _ _ _ Hb) as Hpm.
    assert (Hm : length batches = S pl) by lia.
    assert (Hold0 : old = []) by (apply nil_length_inv; lia).
    destruct (Hlast pl Hm) as [L HL].
    assert (Hlast_inv : last_inv iri ew pl b (0 + length iri) () s').
    { eapply (for_enumerate_Ok _ (last_inv iri ew pl b)); [| |exact Hloop].
      - intros j q [] s2 [] s3 Hq Hinv Hstep. simpl in *.
        eapply (last_inv_step iri lbs ew (outputs (self s1)) Hslots' Hinj Hidle Hlen1 pl b j q);
          try done.
        + by apply (Hlbs pl b).
        + intros L0 i' HL0 Hi'. eapply (no_unused_before_spec _ iri L0); try done.
          intros L' HL' HL'0. assert (L' = L0) by by eapply Hinj. lia.
        + eauto.
      - split; [done|]. split; [simpl; lia|]. split; [|intros i' Hi'; lia].
        intros _. simpl. rewrite (Hkept pl) by eauto.
        rewrite Hold0. simpl. rewrite Hm. by rewrite lookup_replicate_2 by lia. }
    destruct Hlast_inv as (_ & _ & _ & Hafter).
    apply (Hafter L); [|done]. simpl. by eapply lookup_lt_Some.
  - intros pl b Hm Hb. destruct (Hlast pl Hm) as [L HL].
    destruct (Hslots' L _ HL) as [?|(p & b' & Hp & _ & Hb' & Hin)]; [lia|].
    apply Nat2Z.inj in Hp. subst p. rewrite Hb in Hb'. injection Hb' as <-. eauto.
Qed.
End Loop.

(** *** A call as a whole *)

Lemma tee_remaining generator (g : stream T) :
  remaining (tee generator g).1 g = remaining generator g.
Proof. destruct generator; simpl; [|done]. by rewrite drop_app_length. Qed.

Lemma lazy_load_Ok generator g (s : state) generator1 g1 s1 :
  lazy_load generator g s = (Ok (generator1, g1), s1) →
  outputs (self s1) = outputs (self s)
  ∧ batch_size (self s1) = batch_size (self s)
  ∧ (wf_iter generator g → remaining generator1 g1 = remaining generator g).
Proof.
  intros Hload. destruct (exec_net (self s)) as [e|] eqn:He.
  - rewrite (lazy_load_loaded _ _ _ _ He) in Hload. by injection Hload as <- <- <-.
  - rewrite (lazy_load_unloaded _ _ _ He) in Hload.
    pose proof (load_model_cases generator g s) as Hc. rewrite Hload in Hc.
    destruct Hc as [(net & evs & -> & _) Hgen]. split; [done|]. split; [done|].
    intros Hwf. by apply Hgen.
Qed.

(** The setting of the statements about the outputs: the engine honours
    the contract for the blob names of the network that the call runs on,
    which is the network in [exec_net] once the lazy load is over. *)
Record call_setting (infer : ndarray T → ndarray T)
    (slot_input : E → nat → option (ndarray T)) (slot_idle : E → nat → Prop)
    (generator : pyiter) (g : stream T) (s s1 : state) : Prop := {
  setting_wf : wf_iter generator g;
  setting_load : ∃ generator1 g1, lazy_load generator g s = (Ok (generator1, g1), s1);
  setting_contract : ∀ e inp_name out_name,
    exec_net (self s1) = Some e →
    input_info e = [inp_name] → net_outputs e = [out_name] →
    engine_contract infer inp_name out_name slot_input slot_idle;
}.

(** The slot table the loop over the batches ends with, when it ends. *)
Definition final_slots (k t : option (@prepare_hook T)) (batches : list (batch T))
    (s1 : state) (iri : list Z) : Prop :=
  ∃ e inp_name out_name lbs s2,
    exec_net (self s1) = Some e
    ∧ input_info e = [inp_name] ∧ net_outputs e = [out_name]
    ∧ submit_all inp_name out_name k t batches s1 = (Ok (iri, lbs), s2).

Lemma call_outputs infer slot_input slot_idle generator g k t (s s1 : state)
    generator' g' s' :
  call_setting infer slot_input slot_idle generator g s s1 →
  __call__ generator g k t s = (Ok (generator', g'), s') →
  let batches := remaining generator g in
  let old := outputs (self s) in
  let bs := batch_size (self s) in
  ∃ iri, final_slots k t batches s1 iri
  ∧ length (outputs (self s')) = length old + length batches
  ∧ (∀ p b, batches !! p = Some b → S p ≠ length old + length batches →
       outputs (self s') !! p = Some (Some (prediction infer bs k t b))
       ∨ ∃ v, old !! p = Some (Some v) ∧ outputs (self s') !! p = Some (Some v))
  ∧ (∀ p, length batches ≤ p → S p ≠ length old + length batches →
       outputs (self s') !! p = (old ++ replicate (length batches) None) !! p)
  ∧ (∀ pl b, length old + length batches = S pl → batches !! pl = Some b →
       no_unused_before (Z.of_nat pl) iri = true →
       outputs (self s') !! pl
       = Some (Some (slice_prefix (length (rows (batch_input k t b)))
                       (prediction infer bs k t b))))
  ∧ (∀ pl b, length batches = S pl → batches !! pl = Some b →
       ∃ e' i, exec_net (self s') = Some e'
               ∧ slot_input e' i = Some (submitted bs (batch_input k t b))).
Proof.
  intros [Hwf (gen1 & g1 & Hload) Hcontract] Hcall batches old bs.
  rewrite call_unfold in Hcall.
  apply bind_Ok in Hcall as ([gen1' g1'] & s1' & Hload' & Hbody).
  rewrite Hload in Hload'. injection Hload' as <- <- <-.
  destruct (lazy_load_Ok _ _ _ _ _ _ Hload) as (Hold & Hbs & Hrem).
  apply call_body_Ok in Hbody
    as (e & inp & out & l & s2 & He & Hin & Hout & Hsub & Hcol & -> & ->).
  rewrite tee_remaining, (Hrem Hwf) in Hsub. fold batches in Hsub.
  destruct l as [iri lbs]. exists iri. split.
  { exists e, inp, out, lbs, s2. done. }
  pose proof (run_outputs infer inp out slot_input slot_idle
                (Hcontract e inp out He Hin Hout) k t batches old bs
                s1 e (iri, lbs) s2 s' He) as Hrun.
  apply Hrun; try done.
Qed.

Lemma pad_batch_rows (bs : nat) (x : ndarray T) :
  length (rows x) ≤ bs →
  rows (pad_batch bs x)
  = map (map float32) (rows x) ++ replicate (bs - length (rows x)) (zero_row (inner_shape x)).
Proof.
  intros Hn. unfold pad_batch, assign_prefix, np_zeros. simpl.
  rewrite take_ge by (rewrite length_map; lia). by rewrite drop_replicate.
Qed.

(** C1, as the code has it.  When [self.outputs] is empty on entry, the
    engine honours its contract, and no request slot that the call left
    unused comes before the slot holding the last batch, then after
    [__call__] has returned, calling [__next__] once per batch returns the
    predictions in the order in which the generator yielded the batches
    (the last one cut to the size of the last batch) and empties the queue,
    whatever the order in which the requests completed. *)
Theorem results_in_input_order infer slot_input slot_idle generator g k t
    (s s1 : state) generator' g' s' :
  call_setting infer slot_input slot_idle generator g s s1 →
  outputs (self s) = [] →
  (∀ iri, final_slots k t (remaining generator g) s1 iri →
     no_unused_before (Z.of_nat (length (remaining generator g)) - 1) iri = true) →
  __call__ generator g k t s = (Ok (generator', g'), s') →
  next_n (length (remaining generator g)) s'
  = (Ok (Some <$> expected_outputs infer (batch_size (self s)) k t (remaining generator g)),
     with_outputs [] s').
Proof.
  intros Hset Hempty Htidy Hcall.
  destruct (call_outputs _ _ _ _ _ _ _ _ _ _ _ _ Hset Hcall)
    as (iri & Hslots & Hlen & Hres & _ & Hlast & _).
  rewrite Hempty in *. simpl in *.
  assert (Hout : outputs (self s')
    = Some <$> expected_outputs infer (batch_size (self s)) k t (remaining generator g)).
  { apply list_eq. intros p. rewrite list_lookup_fmap. unfold expected_outputs.
    rewrite list_lookup_imap.
    destruct (remaining generator g !! p) as [b|] eqn:Hb; simpl.
    - unfold expected_output. destruct (decide (S p = length (remaining generator g))) as [Hp|Hp].
      + rewrite (Hlast p b); [done|done|done|].
        specialize (Htidy iri Hslots). rewrite <- Hp in Htidy.
        by replace (Z.of_nat (S p) - 1)%Z with (Z.of_nat p) in Htidy by lia.
      + destruct (Hres p b Hb Hp) as [->|(v & Hv & _)]; done.
    - apply lookup_ge_None. apply lookup_ge_None in Hb. lia. }
  rewrite <- Hout, <- Hlen. apply next_n_outputs.
Qed.

(** C2, as the code has it.  Under the same provisos, when the last batch
    has fewer rows than [batch_size]: the array submitted for it is the
    batch followed by zero rows up to [batch_size] rows; the stored output
    for it is the result cut to its first [n] rows; and the stored output
    of every earlier batch is the whole result for the array submitted. *)
Theorem short_last_batch_padded_and_cut infer slot_input slot_idle generator g k t
    (s s1 : state) generator' g' s' front b :
  call_setting infer slot_input slot_idle generator g s s1 →
  outputs (self s) = [] →
  (∀ iri, final_slots k t (remaining generator g) s1 iri →
     no_unused_before (Z.of_nat (length (remaining generator g)) - 1) iri = true) →
  remaining generator g = front ++ [b] →
  length (rows (batch_input k t b)) < batch_size (self s) →
  __call__ generator g k t s = (Ok (generator', g'), s') →
  let x := batch_input k t b in
  let n := length (rows x) in
  let bs := batch_size (self s) in
  (∃ e' i xp,
     exec_net (self s') = Some e' ∧ slot_input e' i = Some xp
     ∧ rows xp = map (map float32) (rows x) ++ replicate (bs - n) (zero_row (inner_shape x))
     ∧ length (rows xp) = bs
     ∧ outputs (self s') !! length front = Some (Some (slice_prefix n (infer xp)))
     ∧ rows (slice_prefix n (infer xp)) = take n (rows (infer xp)))
  ∧ (∀ j bj, front !! j = Some bj →
       outputs (self s') !! j
       = Some (Some (infer (submitted bs (batch_input k t bj))))).
Proof.
  intros Hset Hempty Htidy Hbatches Hshort Hcall x n bs.
  destruct (call_outputs _ _ _ _ _ _ _ _ _ _ _ _ Hset Hcall)
    as (iri & Hslots & Hlen & Hres & _ & Hlast & Hsub).
  specialize (Htidy iri Hslots).
  rewrite Hempty, Hbatches in *. rewrite length_app in *. simpl in *.
  assert (Hb : (front ++ [b]) !! length front = Some b) by by rewrite list_lookup_middle.
  assert (Hpad : submitted bs x = pad_batch bs x).
  { unfold submitted. fold n. destruct (n =? bs) eqn:Heq; [|done].
    apply Nat.eqb_eq in Heq. unfold n, x, bs in *. lia. }
  split.
  - destruct (Hsub (length front) b) as (e' & i & He' & Hin); [lia|done|].
    exists e', i, (pad_batch bs x). split; [done|]. split; [by rewrite <- Hpad|].
    assert (Hrows : rows (pad_batch bs x)
      = map (map float32) (rows x) ++ replicate (bs - n) (zero_row (inner_shape x))).
    { apply pad_batch_rows. unfold n, x, bs in *. lia. }
    split; [done|]. split.
    { rewrite Hrows, length_app, length_map, length_replicate. unfold n, x, bs in *. lia. }
    split; [|done].
    rewrite (Hlast (length front) b); [|lia|done|].
    + unfold prediction. fold x bs. by rewrite Hpad.
    + by replace (Z.of_nat (length front + 1) - 1)%Z with (Z.of_nat (length front)) in Htidy
        by lia.
  - intros j bj Hj. pose proof (lookup_lt_Some _ _ _ Hj) as Hlt.
    destruct (Hres j bj) as [->|(v & Hv & _)]; [by apply lookup_app_l_Some|lia|done|done].
Qed.

(** C9.  A call that returns has appended one entry per batch to whatever
    [self.outputs] held on entry and removed nothing.  The result of the
    batch at position [p] of the generator is at index [p], unless an old
    result there was left in place; every entry from the index after the
    last batch position on, except the very last entry, is as it was on
    entry or as it was appended.  So with old entries left, the entry
    appended for a batch, at the length of the old entries plus its
    position, is still empty whenever it lies beyond the batch positions. *)
Theorem stale_outputs_misplace_results infer slot_input slot_idle generator g k t
    (s s1 : state) generator' g' s' :
  call_setting infer slot_input slot_idle generator g s s1 →
  __call__ generator g k t s = (Ok (generator', g'), s') →
  let batches := remaining generator g in
  let old := outputs (self s) in
  let bs := batch_size (self s) in
  length (outputs (self s')) = length old + length batches
  ∧ (∀ p b, batches !! p = Some b → S p ≠ length old + length batches →
       outputs (self s') !! p = Some (Some (prediction infer bs k t b))
       ∨ ∃ v, old !! p = Some (Some v) ∧ outputs (self s') !! p = Some (Some v))
  ∧ (∀ p, length batches ≤ p → S p ≠ length old + length batches →
       outputs (self s') !! p = (old ++ replicate (length batches) None) !! p)
  ∧ (∀ j, S j < length batches → length batches ≤ length old + j →
       outputs (self s') !! (length old + j) = Some None).
Proof.
  intros Hset Hcall batches old bs.
  destruct (call_outputs _ _ _ _ _ _ _ _ _ _ _ _ Hset Hcall)
    as (iri & _ & Hlen & Hres & Hkept & _).
  fold batches old bs in Hlen, Hres, Hkept.
  split; [done|]. split; [done|]. split; [done|].
  intros j Hj Hbeyond. rewrite Hkept by lia.
  rewrite lookup_app_r by lia. apply lookup_replicate_2. lia.
Qed.
End Pool.

(** ** The simulated pool honours the contract *)

Section SimContract.
Import Sim.

Lemma sim_finish_input ids : ∀ (sl : list slot) i,
  (foldr (λ j sl, alter finish j sl) sl ids !! i) ≫= last_in = (sl !! i) ≫= last_in.
Proof.
  induction ids as [|j ids IH]; intros sl i; simpl; [done|].
  rewrite list_lookup_alter. destruct (decide (j = i)) as [->|]; [|apply IH].
  rewrite <- IH. by destruct (foldr _ sl ids !! i).
Qed.

Lemma sim_poll_input (p : pool) i : slot_input (poll p) i = slot_input p i.
Proof. unfold slot_input, poll. simpl. apply sim_finish_input. Qed.

Lemma sim_contract inp_name out_name :
  engine_contract (E:=pool) forward inp_name out_name slot_input slot_idle.
Proof.
  split.
  - intros p i. apply sim_poll_input.
  - intros [n|] p i; simpl.
    + apply sim_poll_input.
    + unfold slot_input. simpl. rewrite list_lookup_fmap. by destruct (slots p !! i).
  - intros p i x i' Hi. unfold slot_input. simpl in *.
    rewrite list_lookup_alter. destruct (decide (i = i')) as [->|Hne].
    + rewrite decide_True by done.
      destruct (lookup_lt_is_Some_2 (slots p) i' Hi) as [s ->]. done.
    + by rewrite decide_False by done.
  - intros p. simpl. unfold slot_idle.
    destruct (List.find _ _) as [i|] eqn:Hfind; [|lia]. intros _.
    rewrite Nat2Z.id. by apply List.find_some in Hfind as [_ ?].
  - intros p i _ Hi. simpl in *. unfold slot_idle, is_idle. simpl.
    rewrite length_map in Hi. rewrite list_lookup_fmap.
    destruct (lookup_lt_is_Some_2 (slots p) i Hi) as [s ->]. done.
  - intros p i x. unfold slot_idle, is_idle, slot_input. simpl. unfold sim_output_buffer.
    destruct (slots p !! i) as [s|]; simpl; [|done].
    unfold blob. destruct (busy s); simpl; [done|]. by intros _ ->.
Qed.
End SimContract.

(** ** Runs on the simulated pool *)

Section Scenarios.
Import Sim.

Definition two_rows : batch Z := ([NDArray [[1; 2]; [3; 4]]%Z [2]], [], []).
Definition two_more : batch Z := ([NDArray [[7; 8]; [9; 10]]%Z [2]], [], []).
Definition one_row : batch Z := ([NDArray [[5; 6]]%Z [2]], [], []).
Definition stale_result : ndarray Z := NDArray [[40]; [41]]%Z [1].

(** A pool of two requests in which request 1 finishes before request 0,
    and a pool of one request that finishes when it is waited for. *)
Definition two_requests : pool := new_pool 2 [0; 1] [[]; []; [1]] [].
Definition one_request : pool := new_pool 1 [0] [[]; []; [0]] [].

#[local] Instance scenario_toolkit : Toolkit pool := toolkit true 0 two_requests.

Local Abbreviation sim_state := (@state Z pool scenario_toolkit).

(** An object with batch size 2 whose network is loaded. *)
Definition loaded (p : pool) (outs : list (option (ndarray Z))) : sim_state :=
  {| self := {| ie := Some IECore_new; exec_net := Some p; model := TorchModule ();
                model_dir := "d"; batch_size := 2; outputs := outs |};
     log := [] |}.

Definition call (batches : list (batch Z)) (s : sim_state) : result (pyiter * stream Z) * state :=
  __call__ Source (Stream batches []) None None s.

Lemma scenario_setting batches p outs :
  call_setting forward slot_input slot_idle Source (Stream batches []) (loaded p outs)
    (loaded p outs).
Proof.
  split.
  - exact I.
  - by eexists _, _.
  - intros. apply sim_contract.
Qed.

(** Three batches on two requests, request 1 finishing first: the three
    results come out in the order of the batches. *)
Lemma results_in_input_order_witness :
  let s' := (call [two_rows; two_more; one_row] (loaded two_requests [])).2 in
  outputs (self (loaded two_requests [])) = []
  ∧ next_n 3 s'
    = (Ok [Some (NDArray [[4]; [8]]%Z [1]); Some (NDArray [[16]; [20]]%Z [1]);
           Some (NDArray [[12]]%Z [1])],
       with_outputs [] s').
Proof.
  intros s'. split; [reflexivity|].
  refine (results_in_input_order forward slot_input slot_idle Source
            (Stream [two_rows; two_more; one_row] []) None None
            (loaded two_requests []) (loaded two_requests [])
            (TeeIter 0) (Stream [] [two_rows; two_more; one_row]) s'
            (scenario_setting _ _ _) eq_refl _ _).
  - intros iri (e & inp & out & lbs & s2 & He & Hin & Hout & Hsub).
    injection He as <-. injection Hin as <-. injection Hout as <-.
    vm_compute in Hsub. injection Hsub as <- _ _. reflexivity.
  - vm_compute. reflexivity.
Defined.

(** C1 fails with a result left in the queue: the call on one batch
    returns, and the two calls of [__next__] that follow return the old
    result and then [None]; the prediction for the batch is returned by
    neither. *)
Lemma stale_queue_breaks_order :
  let s' := (call [one_row] (loaded one_request [Some stale_result])).2 in
  (call [one_row] (loaded one_request [Some stale_result])).1
    = Ok (TeeIter 0, Stream [] [one_row])
  ∧ next_n 2 s' = (Ok [Some stale_result; None], with_outputs [] s')
  ∧ expected_outputs forward 2 None None [one_row] = [NDArray [[12]]%Z [1]]
  ∧ (next_n 1 s').1 ≠ Ok (Some <$> expected_outputs forward 2 None None [one_row]).
Proof.
  intros s'. split; [vm_compute; reflexivity|]. split; [vm_compute; reflexivity|].
  split; [vm_compute; reflexivity|]. vm_compute. discriminate.
Qed.

(** Three batches, the last one short: it is submitted with a zero row
    added, its stored output has one row, the outputs before it have two. *)
Lemma short_last_batch_padded_and_cut_witness :
  let s' := (call [two_rows; two_more; one_row] (loaded two_requests [])).2 in
  length (rows (batch_input None None one_row)) < 2
  ∧ (∃ e' i xp,
       exec_net (self s') = Some e' ∧ slot_input e' i = Some xp
       ∧ rows xp = [[5; 6]; [0; 0]]%Z
       ∧ outputs (self s') !! 2 = Some (Some (slice_prefix 1 (forward xp))))
  ∧ outputs (self s') !! 0 = Some (Some (NDArray [[4]; [8]]%Z [1]))
  ∧ outputs (self s') !! 1 = Some (Some (NDArray [[16]; [20]]%Z [1])).
Proof.
  intros s'.
  assert (Hshort : length (rows (batch_input None None one_row)) < 2) by (vm_compute; lia).
  split; [exact Hshort|].
  destruct (short_last_batch_padded_and_cut forward slot_input slot_idle Source
            (Stream [two_rows; two_more; one_row] []) None None
            (loaded two_requests []) (loaded two_requests [])
            (TeeIter 0) (Stream [] [two_rows; two_more; one_row]) s'
            [two_rows; two_more] one_row
            (scenario_setting _ _ _) eq_refl) as [(e' & i & xp & He & Hin & Hrows & _ & Hout & _) Hfront].
  - intros iri (e & inp & out & lbs & s2 & He & Hin & Hout & Hsub).
    injection He as <-. injection Hin as <-. injection Hout as <-.
    vm_compute in Hsub. injection Hsub as <- _ _. reflexivity.
  - reflexivity.
  - exact Hshort.
  - vm_compute. reflexivity.
  - split; [|split].
    + exists e', i, xp. split; [exact He|]. split; [exact Hin|]. split; [exact Hrows|exact Hout].
    + exact (Hfront 0 two_rows eq_refl).
    + exact (Hfront 1 two_more eq_refl).
Defined.

(** C2 fails with a result left in the queue: the call on a full and a
    short batch returns, and the output stored for the short batch has the
    two rows of the padded batch, not the one row of the batch. *)
Lemma stale_queue_leaves_last_output_uncut :
  let s' := (call [two_rows; one_row] (loaded one_request [Some stale_result])).2 in
  (call [two_rows; one_row] (loaded one_request [Some stale_result])).1
    = Ok (TeeIter 0, Stream [] [two_rows; one_row])
  ∧ length (rows (batch_input None None one_row)) = 1
  ∧ outputs (self s')
    = [Some (prediction forward 2 None None two_rows);
       Some (prediction forward 2 None None one_row); None]
  ∧ length (rows (prediction forward 2 None None one_row)) = 2
  ∧ outputs (self s') !! 1
    ≠ Some (Some (slice_prefix 1 (prediction forward 2 None None one_row))).
Proof.
  intros s'. split; [vm_compute; reflexivity|]. split; [vm_compute; reflexivity|].
  split; [vm_compute; reflexivity|]. split; [vm_compute; reflexivity|].
  vm_compute. discriminate.
Qed.

(** With one old result in the queue and two batches: three entries, the
    result of the second batch at index 1, the entry appended for it, at
    index 2, not written. *)
Lemma stale_outputs_misplace_results_witness :
  let s' := (call [two_rows; one_row] (loaded one_request [Some stale_result])).2 in
  length (outputs (self s')) = 1 + 2
  ∧ (outputs (self s') !! 1 = Some (Some (prediction forward 2 None None one_row))
     ∨ ∃ v, [Some stale_result] !! 1 = Some (Some v)
            ∧ outputs (self s') !! 1 = Some (Some v)).
Proof.
  intros s'.
  destruct (stale_outputs_misplace_results forward slot_input slot_idle Source
            (Stream [two_rows; one_row] []) None None
            (loaded one_request [Some stale_result]) (loaded one_request [Some stale_result])
            (TeeIter 0) (Stream [] [two_rows; one_row]) s'
            (scenario_setting _ _ _)) as (Hlen & Hres & _ & _).
  - vm_compute. reflexivity.
  - split; [exact Hlen|]. apply (Hres 1 one_row); [reflexivity|]. simpl. lia.
Defined.

(** What a request slot left unused does when it comes first: with an
    empty queue, one short batch and a pool that hands out request 1
    before request 0, the stored output is the blob of request 0, which
    never ran. *)
Example unused_slot_fills_last_entry :
  (call [one_row] (loaded (new_pool 2 [1; 0] [] []) [])).1
    = Ok (TeeIter 0, Stream [] [one_row])
  ∧ outputs (self (call [one_row] (loaded (new_pool 2 [1; 0] [] []) [])).2)
    = [Some (NDArray [] [])]
  ∧ (submit_all "x" "y" None None [one_row] (loaded (new_pool 2 [1; 0] [] []) [])).1
    = Ok ([(-1)%Z; 0%Z], Some 1)
  ∧ no_unused_before 0 [(-1)%Z; 0%Z] = false.
Proof. repeat split; vm_compute; reflexivity. Qed.

(** *** The first call and the calls after it *)

(** A freshly constructed object around a PyTorch model. *)
Definition fresh : sim_state :=
  {| self := __init__ (TorchModule ()) "d" 2; log := [] |}.

Definition two_batches : stream Z := Stream [two_rows; one_row] [].

Lemma returned_generator_replays_witness :
  wf_iter Source two_batches
  ∧ yields (TeeIter 0) (Stream [] [two_rows; one_row]) [two_rows; one_row].
Proof.
  split; [exact I|].
  refine (returned_generator_replays Source two_batches None None fresh
            (TeeIter 0) (Stream [] [two_rows; one_row])
            (__call__ Source two_batches None None fresh).2 I _ [two_rows; one_row] _).
  - vm_compute. reflexivity.
  - by apply yields_remaining.
Defined.

Lemma lazy_load_once_witness :
  let c : call_args := (Source, two_batches, None, None) in
  let s1 := (call_with c fresh).2 in
  is_Some (exec_net (self s1))
  ∧ (∃ evs, log s1 = evs ++ [load_event] ∧ torch_conversion evs)
  ∧ log (run_calls [c; c] s1) = log s1.
Proof.
  intros c s1.
  assert (Hsome : is_Some (exec_net (self s1))) by (vm_compute; eauto).
  destruct (lazy_load_once (T:=Z) (@TorchModule pool scenario_toolkit ()) "d" 2 c)
    as (_ & _ & Hloaded).
  destruct (Hloaded Hsome) as [Hlog Hlater].
  split; [exact Hsome|]. split; [exact Hlog|]. exact (proj1 (Hlater [c; c])).
Defined.

(** A network with two inputs. *)
Definition two_inputs : pool :=
  {| slots := [fresh_slot]; idle_order := [0]; script := []; statuses := [];
     in_keys := ["a"; "b"]%string; out_keys := ["y"]%string |}.

Lemma single_input_single_output_witness :
  (length (input_info two_inputs) ≠ 1 ∨ length (net_outputs two_inputs) ≠ 1)
  ∧ (__call__ Source two_batches None None (loaded two_inputs [])).1
    = Raise (AssertionError "Not implemented").
Proof.
  assert (Hbad : length (input_info two_inputs) ≠ 1 ∨ length (net_outputs two_inputs) ≠ 1).
  { left. simpl. lia. }
  split; [exact Hbad|].
  exact (proj1 (single_input_single_output Source two_batches None None
                  (loaded two_inputs []))
           Source two_batches (loaded two_inputs []) two_inputs eq_refl eq_refl Hbad).
Defined.

(** *** The TensorFlow path *)

Definition graph : list NodeDef :=
  [ {| node_name := "unused_control_flow_input_1"; node_op := "Placeholder"; node_dims := [] |};
    {| node_name := "features"; node_op := "Placeholder"; node_dims := [-1; 1024]%Z |};
    {| node_name := "dense"; node_op := "MatMul"; node_dims := [] |} ].

Definition keras : sim_state :=
  {| self := __init__ (OtherModel graph) "d" 50; log := [] |}.

Lemma tf_conversion_steps_witness :
  Forall has_batch_dim graph
  ∧ map (pin_batch_size 50) (remove_training_inputs graph)
    = [ {| node_name := "features"; node_op := "Placeholder"; node_dims := [50; 1024]%Z |};
        {| node_name := "dense"; node_op := "MatMul"; node_dims := [] |} ]
  ∧ _read_tf_model keras
    = (Ok two_requests,
       logged [EvFreezeGraph;
               EvWriteFile "d/model.pb"
                 (SerializeToString
                    [ {| node_name := "features"; node_op := "Placeholder";
                         node_dims := [50; 1024]%Z |};
                      {| node_name := "dense"; node_op := "MatMul"; node_dims := [] |} ]);
               EvSubprocessRun ["python3"; "mo_tf.py"; "--input_model"; "d/model.pb";
                                "--output_dir"; "d"]%string true;
               EvRemove "d/model.pb"; EvReadNetwork "d/model.xml" "d/model.bin"] keras).
Proof.
  assert (Hdims : Forall has_batch_dim graph).
  { unfold graph.
    apply Forall_cons_2; [|apply Forall_cons_2; [|apply Forall_cons_2; [|apply Forall_nil_2]]].
    all: unfold has_batch_dim, is_training_input; simpl; intros; congruence. }
  split; [exact Hdims|]. split; [vm_compute; reflexivity|].
  pose proof (tf_conversion_steps keras graph IECore_new eq_refl eq_refl Hdims) as Hsteps.
  vm_compute in Hsteps. vm_compute. exact Hsteps.
Defined.

(** *** Without the engine *)

Definition no_engine : Toolkit pool := toolkit false 0 two_requests.

Definition unavailable : @state Z pool no_engine :=
  {| self := __init__ (H1:=no_engine) (TorchModule (H1:=no_engine) ()) "d" 2; log := [] |}.

Lemma availability_asserted_by_load_witness :
  OpenVINOModel_is_available (H1:=no_engine) (self unavailable) = false
  ∧ _load_model (H1:=no_engine) Source two_batches unavailable
    = (Raise (AssertionError ""), unavailable)
  ∧ __call__ (H1:=no_engine) Source two_batches None None unavailable
    = (Raise (AssertionError ""), unavailable).
Proof.
  destruct (availability_asserted_by_load (H1:=no_engine) (self unavailable))
    as [_ Hun].
  destruct (Hun eq_refl) as (Hload & Hcall & _).
  split; [reflexivity|]. split; [apply Hload|]. apply Hcall. reflexivity.
Defined.

(** C4 fails for [__init__] and [__next__]: without the engine the
    constructor returns an object, with [ie] unset, and [__next__] on it
    goes on to the pop, which fails on the empty list; on a queue with an
    entry it returns the entry. *)
Lemma init_and_next_assert_nothing :
  is_available (H:=no_engine) = false
  ∧ ie (self unavailable) = None
  ∧ __next__ (H1:=no_engine) unavailable = (Raise IndexError, unavailable)
  ∧ (__next__ (H1:=no_engine) (with_outputs [Some stale_result] unavailable)).1
    = Ok (Some stale_result).
Proof. repeat split. Qed.
End Scenarios.

(** ** Runs on the engine that computes at once *)

Section EagerScenario.
Import Sim.
Import Eager.

#[local] Instance eager_toolkit : Toolkit Eager.pool := Eager.toolkit [NDArray [] []].

Definition eager : @state Z Eager.pool eager_toolkit :=
  {| self := {| ie := Some IECore_new; exec_net := Some [NDArray [] []];
                model := TorchModule (); model_dir := "d"; batch_size := 2;
                outputs := [] |};
     log := [] |}.
End EagerScenario.

(** * Further properties of the adapter *)

(** ** Padding and cutting *)

Section Padding.
Context {T : Type} `{Scalar T}.

(** A batch of at most [batch_size] rows is padded to exactly [batch_size]
    rows of the same inner shape, the added rows are zero rows, and cutting
    the padded array back to the size of the batch gives the rows of the
    batch (as cast by the copy) and nothing else. *)
Theorem pad_then_cut_recovers_batch (batch_size : nat) (x : ndarray T) :
  length (rows x) ≤ batch_size →
  shape (pad_batch batch_size x) = batch_size :: inner_shape x
  ∧ (∀ i, length (rows x) ≤ i → i < batch_size →
       rows (pad_batch batch_size x) !! i = Some (zero_row (inner_shape x)))
  ∧ slice_prefix (length (rows x)) (pad_batch batch_size x)
    = NDArray (map (map float32) (rows x)) (inner_shape x)
  ∧ length (rows (slice_prefix (length (rows x)) (pad_batch batch_size x)))
    = length (rows x).
Proof.
  intros Hn.
  assert (Hrows : rows (pad_batch batch_size x)
    = map (map float32) (rows x)
      ++ replicate (batch_size - length (rows x)) (zero_row (inner_shape x))).
  { unfold pad_batch, assign_prefix, np_zeros. simpl.
    rewrite take_ge by (rewrite length_map; lia). by rewrite drop_replicate. }
  assert (Hcut : take (length (rows x)) (rows (pad_batch batch_size x))
    = map (map float32) (rows x)).
  { rewrite Hrows. rewrite take_app_length'; [done|]. by rewrite length_map. }
  split; [|split; [|split]].
  - unfold shape. rewrite Hrows, length_app, length_map, length_replicate.
    f_equal. lia.
  - intros i Hi Hlt. rewrite Hrows, lookup_app_r by (rewrite length_map; lia).
    rewrite length_map. apply lookup_replicate_2. lia.
  - unfold slice_prefix. by rewrite Hcut.
  - unfold slice_prefix. cbn [rows]. by rewrite Hcut, length_map.
Qed.
End Padding.

(** ** Editing the frozen graph *)

Section GraphEdit.

Definition is_placeholder (node : NodeDef) : bool := String.eqb (node_op node) "Placeholder".

(** The loop over the nodes returns only when every placeholder that stays
    has a dimension to look at. *)
Lemma strip_and_pin_Ok_dims batch_size (l1 : list NodeDef) :
  ∀ l2 r, strip_and_pin batch_size (length l1) (l1 ++ l2) = Ok r →
          Forall has_batch_dim l1.
Proof.
  induction l1 as [|x l1 IH] using rev_ind; intros l2 r Hrun; [constructor|].
  rewrite length_app, Nat.add_1_r in Hrun. simpl in Hrun.
  rewrite <- app_assoc in Hrun. simpl in Hrun.
  rewrite list_lookup_middle in Hrun by done.
  apply Forall_app. unfold has_batch_dim at 2, is_training_input.
  destruct (String.eqb (node_op x) "Placeholder") eqn:Hop.
  - destruct (String.prefix "unused_control_flow_input" (node_name x)) eqn:Hpre.
    + rewrite delete_middle in Hrun. split; [by eapply IH|].
      apply Forall_singleton. rewrite Hop, Hpre. done.
    + destruct (node_dims x) as [|d rest] eqn:Hd; [done|].
      split; [|apply Forall_singleton; by rewrite Hd].
      destruct (d =? -1)%Z.
      * replace (length l1) with (length l1 + 0) in Hrun at 2 by lia.
        rewrite insert_app_r in Hrun. simpl in Hrun. by eapply IH.
      * by eapply IH.
  - split; [by eapply IH|]. apply Forall_singleton. by rewrite Hop.
Qed.

Lemma pin_batch_size_op batch_size node :
  node_op (pin_batch_size batch_size node) = node_op node
  ∧ node_name (pin_batch_size batch_size node) = node_name node.
Proof.
  unfold pin_batch_size. destruct (String.eqb _ _); [|done].
  destruct (node_dims node) as [|d rest]; [done|]. by destruct (d =? -1)%Z.
Qed.

(** What the edited graph looks like whenever the edit returns: it holds
    no training input, no placeholder of it has an unknown batch dimension,
    and the nodes that are not placeholders are the ones of the frozen
    graph, in their order. *)
Theorem edited_graph_is_pinned batch_size (nodes nodes' : list NodeDef) :
  strip_and_pin batch_size (length nodes) nodes = Ok nodes' →
  Forall (λ node, is_training_input node = false) nodes'
  ∧ Forall (λ node, is_placeholder node = true →
              ∃ d rest, node_dims node = d :: rest ∧ d ≠ (-1)%Z) nodes'
  ∧ filter (λ node, is_placeholder node = false) nodes'
    = filter (λ node, is_placeholder node = false) nodes
  ∧ length nodes' ≤ length nodes.
Proof.
  intros Hrun.
  assert (Hdims : Forall has_batch_dim nodes).
  { apply (strip_and_pin_Ok_dims batch_size nodes [] nodes'). by rewrite app_nil_r. }
  rewrite (strip_and_pin_all batch_size nodes Hdims) in Hrun. injection Hrun as <-.
  unfold remove_training_inputs.
  split; [|split; [|split]].
  - apply Forall_fmap, Forall_forall. intros node [Hkeep _]%list_elem_of_filter. simpl.
    unfold is_training_input in *.
    destruct (pin_batch_size_op batch_size node) as [-> ->]. done.
  - apply Forall_fmap, Forall_forall. intros node [Hkeep Hin]%list_elem_of_filter. simpl.
    unfold is_placeholder. destruct (pin_batch_size_op batch_size node) as [-> _].
    intros Hop. rewrite Forall_forall in Hdims. specialize (Hdims node Hin Hop Hkeep).
    unfold pin_batch_size. rewrite Hop.
    destruct (node_dims node) as [|d rest] eqn:Hd; [done|].
    destruct (d =? -1)%Z eqn:Hd1.
    + simpl. exists (Z.of_nat batch_size), rest. split; [done|]. lia.
    + rewrite Hd. exists d, rest. split; [done|]. by apply Z.eqb_neq.
  - clear Hdims. induction nodes as [|node nodes IH]; [done|].
    destruct (is_training_input node) eqn:Htrain.
    + rewrite filter_cons_False by (cbv beta; congruence).
      rewrite IH. rewrite (filter_cons_False _ node); [done|].
      cbv beta. unfold is_training_input, is_placeholder in *.
      destruct (String.eqb (node_op node) "Placeholder"); [congruence|done].
    + rewrite filter_cons_True by done. simpl.
      unfold is_placeholder in *. destruct (String.eqb (node_op node) "Placeholder") eqn:Hop.
      * rewrite !filter_cons_False; [exact IH| |].
        { cbv beta. rewrite Hop. done. }
        { cbv beta. destruct (pin_batch_size_op batch_size node) as [-> _]. rewrite Hop. done. }
      * assert (Hpin : pin_batch_size batch_size node = node)
          by (unfold pin_batch_size; by rewrite Hop).
        rewrite Hpin, !filter_cons_True by (cbv beta; by rewrite Hop). by rewrite IH.
  - rewrite length_map. apply length_filter.
Qed.

Context {T E : Type} `{Scalar T} `{Engine T E} `{Toolkit E}.

(** A placeholder that is not a training input and has no dimensions stops
    the conversion with the index error of [dim[0]], after the graph was
    frozen and before anything is written or run. *)
Theorem placeholder_without_dims_stops_conversion (s : @state T E _) (m : keras_model)
    (node : NodeDef) :
  model (self s) = OtherModel m →
  node ∈ frozen_graph_def m →
  is_placeholder node = true → is_training_input node = false → node_dims node = [] →
  _read_tf_model s = (Raise IndexError, logged [EvFreezeGraph] s).
Proof.
  intros Hm Hin Hop Htrain Hd.
  unfold _read_tf_model, mbind, M_bind, get_self, lift, emit, logged. simpl.
  rewrite Hm. simpl.
  destruct (strip_and_pin _ _ _) as [r|e] eqn:Hrun.
  - exfalso.
    assert (Hdims : Forall has_batch_dim (frozen_graph_def m)).
    { apply (strip_and_pin_Ok_dims (batch_size (self s)) _ [] r). by rewrite app_nil_r. }
    rewrite Forall_forall in Hdims. by apply (Hdims node Hin Hop Htrain).
  - apply strip_and_pin_raises in Hrun as ->. done.
Qed.
End GraphEdit.

(** ** Empty generators and malformed batches *)

Section Edges.
Context {T E : Type} `{Scalar T} `{Engine T E} `{Toolkit E}.

Local Abbreviation M := (@M T E _).
Local Abbreviation state := (@state T E _).

Lemma call_body_start k t generator g (s : state) e inp_name out_name :
  exec_net (self s) = Some e →
  input_info e = [inp_name] → net_outputs e = [out_name] →
  call_body k t generator g s
  = (l ← submit_all inp_name out_name k t (remaining generator g);
     _ ← collect_rest out_name l;
     mret ((tee generator g).2, exhaust (tee generator g).1 g)) s.
Proof.
  intros He Hin Hout. unfold call_body.
  unfold mbind at 1, M_bind at 1. rewrite (engine_read_Some _ _ _ He), Hin. simpl.
  unfold mbind at 1, M_bind at 1. simpl.
  unfold mbind at 1, M_bind at 1. rewrite (engine_read_Some _ _ _ He), Hout. simpl.
  unfold mbind at 1, M_bind at 1. simpl.
  unfold mbind at 1, M_bind at 1. simpl.
  unfold mbind at 1, M_bind at 1. simpl.
  rewrite <- (tee_remaining generator g). by destruct (tee generator g).
Qed.

(** With a loaded network that has at least one request slot, an empty
    [self.outputs] and a generator that yields nothing, [__call__] does not
    return: the loop over the slots indexes the empty list with the -1 of
    an unused slot.  On an object that has yet to load a PyTorch model the
    early read of the first batch raises [StopIteration] instead. *)
Theorem empty_generator_raises generator g k t (s : state) :
  remaining generator g = [] →
  (∀ e inp_name out_name,
     exec_net (self s) = Some e →
     input_info e = [inp_name] → net_outputs e = [out_name] →
     outputs (self s) = [] → 0 < num_requests e → is_OK (wait None e).1 = true →
     (__call__ generator g k t s).1 = Raise IndexError)
  ∧ (∀ m, exec_net (self s) = None → is_available = true →
     model (self s) = TorchModule m → wf_iter generator g →
     __call__ generator g k t s = (Raise StopIteration, s)).
Proof.
  intros Hempty. split.
  - intros e inp out He Hin Hout Houts Hn Hok.
    rewrite call_unfold. unfold mbind at 1, M_bind at 1.
    rewrite (lazy_load_loaded _ _ _ _ He), (call_body_start _ _ _ _ _ _ _ _ He Hin Hout).
    rewrite Hempty. unfold submit_all.
    unfold mbind at 1, M_bind at 1. unfold mbind at 1, M_bind at 1.
    rewrite (engine_read_Some _ _ _ He). simpl.
    unfold mbind at 1, M_bind at 1. unfold mbind at 1, M_bind at 1.
    unfold engine. rewrite He. destruct (wait None e) as [st e1]. simpl in Hok.
    rewrite Hok. simpl.
    destruct (num_requests e) as [|n]; [lia|]. simpl.
    unfold collect_output, mbind, M_bind, get_self, lift. simpl. by rewrite Houts.
  - intros m He Hav Hm Hwf.
    assert (Hnext : next_iter (tee generator g).1 g = Raise StopIteration).
    { destruct generator as [|p]; simpl in *.
      - rewrite lookup_ge_None_2 by lia. by rewrite Hempty.
      - apply (f_equal length) in Hempty. rewrite length_drop, length_app in Hempty.
        simpl in Hempty. rewrite lookup_ge_None_2 by lia.
        destruct (pending g); [done|simpl in Hempty; lia]. }
    rewrite call_unfold. unfold mbind at 1, M_bind at 1.
    rewrite (lazy_load_unloaded _ _ _ He).
    unfold _load_model, mbind at 1, M_bind at 1, get_self, OpenVINOModel_is_available.
    rewrite Hav. simpl. unfold mbind at 1, M_bind at 1. simpl.
    unfold mbind at 1, M_bind at 1. rewrite Hm.
    unfold _read_torch_model, mbind at 1, M_bind at 1, get_self.
    destruct (tee generator g) as [gc gen']. simpl in Hnext.
    unfold mbind at 1, M_bind at 1, lift. by rewrite Hnext.
Qed.

(** A batch without an input array, and a batch with more rows than
    [batch_size], stop the loop body before a request is asked for: the
    first with the index error of [inputs[0]], the second with the failed
    assertion, and the object is left as it was.  As the first batch of a
    call on a loaded network they stop the call in the same way. *)
Theorem malformed_batch_raises inp_name out_name k t (j : nat) (b : batch T)
    (l : locals) (s : state) :
  (prepared k t b = [] →
     submit_batch inp_name out_name k t j b l s = (Raise IndexError, s))
  ∧ (∀ x, head (prepared k t b) = Some x → batch_size (self s) < length (rows x) →
     submit_batch inp_name out_name k t j b l s = (Raise (AssertionError ""), s))
  ∧ (∀ generator g e rest x,
     exec_net (self s) = Some e →
     input_info e = [inp_name] → net_outputs e = [out_name] →
     remaining generator g = b :: rest →
     head (prepared k t b) = Some x → batch_size (self s) < length (rows x) →
     __call__ generator g k t s = (Raise (AssertionError ""), s)).
Proof.
  assert (Hbig : ∀ j l x, head (prepared k t b) = Some x →
    batch_size (self s) < length (rows x) →
    submit_batch inp_name out_name k t j b l s = (Raise (AssertionError ""), s)).
  { intros j0 [iri lbs] x Hx Hlen. unfold submit_batch.
    destruct b as [[inputs labels] weights].
    unfold prepared in Hx. simpl in Hx. rewrite head_lookup in Hx.
    unfold mbind at 1, M_bind at 1, lift, py_getitem.
    assert (Hget : ∀ (xs : list (ndarray T)), xs !! 0 = Some x →
      match py_index (length xs) 0 with
      | Some i => match xs !! i with Some y => Ok y | None => Raise IndexError end
      | None => Raise IndexError
      end = Ok x).
    { intros [|y xs] Hy; [done|]. injection Hy as ->. done. }
    destruct k as [f|]; [|destruct t as [f|]]; rewrite (Hget _ Hx);
      unfold mbind at 1, M_bind at 1, get_self;
      unfold mbind at 1, M_bind at 1;
      (replace (length (rows x) =? batch_size (self s)) with false
         by (symmetry; apply Nat.eqb_neq; lia));
      (replace (length (rows x) <? batch_size (self s)) with false
         by (symmetry; apply Nat.ltb_ge; lia)); reflexivity. }
  split; [|split].
  - intros Hnone. destruct l as [iri lbs]. unfold submit_batch.
    destruct b as [[inputs labels] weights]. unfold prepared in Hnone. simpl in Hnone.
    unfold mbind at 1, M_bind at 1, lift.
    destruct k as [f|]; [|destruct t as [f|]]; by rewrite Hnone.
  - intros x. apply Hbig.
  - intros generator g e rest x He Hin Hout Hrem Hx Hlen.
    rewrite call_unfold. unfold mbind at 1, M_bind at 1.
    rewrite (lazy_load_loaded _ _ _ _ He), (call_body_start _ _ _ _ _ _ _ _ He Hin Hout).
    rewrite Hrem. unfold submit_all.
    unfold mbind at 1, M_bind at 1. unfold mbind at 1, M_bind at 1.
    rewrite (engine_read_Some _ _ _ He). cbn [for_enumerate].
    unfold mbind at 1, M_bind at 1. by rewrite (Hbig 0 _ x Hx Hlen).
Qed.
End Edges.

(** ** The PyTorch conversion path and failed conversions *)

Section Conversions.
Context {T E : Type} `{Scalar T} `{Engine T E} `{Toolkit E}.

Local Abbreviation M := (@M T E _).
Local Abbreviation state := (@state T E _).

(** For a PyTorch model and a generator whose next batch holds exactly one
    input array [x], [_read_torch_model] exports the model for the shape of
    [x] with the first dimension replaced by [batch_size], reads the
    network from the exported buffer, and hands back the second tee
    iterator; called on the generator itself, exactly the batch read early
    has moved from the generator into the buffer of the tee. *)
Theorem torch_conversion_steps generator g (s : state) (m : torch_module) (core : IECore)
    (x : ndarray T) labels weights generator_copy g1 :
  model (self s) = TorchModule m →
  ie (self s) = Some core →
  next_iter (tee generator g).1 g = Ok (([x], labels, weights), generator_copy, g1) →
  let inp_shape := batch_size (self s) :: inner_shape x in
  let buf := onnx_export m inp_shape in
  _read_torch_model generator g s
  = (Ok (read_network_from_buffer buf, (tee generator g).2, g1),
     logged [EvOnnxExport inp_shape; EvReadNetworkFromBuffer buf] s)
  ∧ (generator = Source →
     ∃ rest, pending g = ([x], labels, weights) :: rest
             ∧ g1 = Stream rest (teed g ++ [([x], labels, weights)])
             ∧ (tee generator g).2 = TeeIter (length (teed g))).
Proof.
  intros Hm Hcore Hnext inp_shape buf. split.
  - unfold _read_torch_model, mbind at 1, M_bind at 1, get_self.
    destruct (tee generator g) as [gc gen'] eqn:Htee. simpl in Hnext.
    unfold mbind at 1, M_bind at 1, lift. rewrite Hnext.
    unfold mbind, M_bind, py_assert, py_getitem, the_core, emit, logged. simpl.
    rewrite Hm, Hcore. simpl. rewrite <- app_assoc. reflexivity.
  - intros ->. simpl in *. rewrite lookup_ge_None_2 in Hnext by lia.
    destruct (pending g) as [|b rest]; [done|]. injection Hnext as -> <- <-. eauto.
Qed.

(** What a completed call has done to the generator it was given: every
    batch the generator still had is in the buffer of the tee and the
    generator itself has nothing left, so that [next] on it stops. *)
Theorem source_exhausted_after_call generator g k t (s : state) generator' g' s' :
  __call__ generator g k t s = (Ok (generator', g'), s') →
  pending g' = []
  ∧ teed g' = teed g ++ pending g
  ∧ next_iter Source g' = Raise StopIteration.
Proof.
  intros Hcall.
  assert (Hg : pending g' = [] ∧ teed g' = teed g ++ pending g).
  { rewrite call_unfold in Hcall.
    apply bind_Ok in Hcall as ([gen1 g1] & s1 & Hload & Hbody).
    assert (Hg1 : teed g1 ++ pending g1 = teed g ++ pending g).
    { destruct (exec_net (self s)) as [e|] eqn:He.
      - rewrite (lazy_load_loaded _ _ _ _ He) in Hload. by injection Hload as <- <- <-.
      - rewrite (lazy_load_unloaded _ _ _ He) in Hload.
        unfold _load_model in Hload.
        apply bind_Ok in Hload as (self0 & s0 & [= <- <-] & Hload).
        apply bind_Ok in Hload as (u & s0 & [_ ->]%py_assert_Ok & Hload).
        apply bind_Ok in Hload as ([[net gen2] g2] & s2 & Hread & Hload).
        apply bind_Ok in Hload as (c & s3 & _ & Hload).
        apply bind_Ok in Hload as (u1 & s4 & _ & Hload).
        apply bind_Ok in Hload as (u2 & s5 & _ & Hload).
        injection Hload as <- <- <-.
        destruct (model (self s)) as [m|m].
        + unfold _read_torch_model in Hread.
          apply bind_Ok in Hread as (self0 & s0 & [= <- <-] & Hread).
          destruct (tee generator g) as [gc gen'] eqn:Htee.
          apply bind_Ok in Hread as ([[b gc'] g3] & s0 & [Hnext ->]%lift_Ok & Hread).
          destruct b as [[inputs labels] weights].
          apply bind_Ok in Hread as (u0 & s0 & _ & Hread).
          apply bind_Ok in Hread as (x & s6 & _ & Hread).
          apply bind_Ok in Hread as (m' & s7 & _ & Hread).
          apply bind_Ok in Hread as (u3 & s8 & _ & Hread).
          apply bind_Ok in Hread as (c' & s9 & _ & Hread).
          apply bind_Ok in Hread as (u4 & s10 & _ & Hread).
          injection Hread as <- <- <- <-.
          assert (gc = (tee generator g).1) as -> by by rewrite Htee.
          clear -Hnext. destruct generator as [|p]; simpl in Hnext.
          * rewrite lookup_ge_None_2 in Hnext by lia.
            destruct (pending g) as [|b rest]; [done|]. injection Hnext as _ _ <-.
            simpl. by rewrite <- app_assoc.
          * destruct (teed g !! p); [by injection Hnext as _ _ <-|].
            destruct (pending g) as [|b rest]; [done|]. injection Hnext as _ _ <-.
            simpl. by rewrite <- app_assoc.
        + apply bind_Ok in Hread as (net' & s0 & _ & Hread). by injection Hread as <- <- <- <-. }
    apply call_body_Ok in Hbody as (e & inp & out & l & s2 & _ & _ & _ & _ & _ & _ & ->).
    destruct gen1; simpl; by rewrite Hg1. }
  destruct Hg as [Hpending Hteed]. split; [done|]. split; [done|].
  simpl. by rewrite Hpending.
Qed.

(** When the model optimizer returns a nonzero code, a call that has to
    convert a Keras model raises the error of the subprocess after the
    frozen graph was written and the optimizer was run: the file is not
    removed, no network is read or loaded, and [exec_net] stays unset, so
    that the next call starts the conversion again. *)
Theorem failed_conversion_is_retried generator g k t (s : state) (m : keras_model) :
  exec_net (self s) = None →
  is_available = true →
  model (self s) = OtherModel m →
  Forall has_batch_dim (frozen_graph_def m) →
  let nodes := map (pin_batch_size (batch_size (self s)))
                   (remove_training_inputs (frozen_graph_def m)) in
  let pb := path_join (model_dir (self s)) "model.pb" in
  let args := mo_args pb (model_dir (self s)) in
  let attempt := [EvFreezeGraph; EvWriteFile pb (SerializeToString nodes);
                  EvSubprocessRun args true] in
  subprocess_returncode args ≠ 0%Z →
  __call__ generator g k t s
  = (Raise (CalledProcessError (subprocess_returncode args)), logged attempt s)
  ∧ ∀ generator2 g2,
      __call__ generator2 g2 k t (logged attempt s)
      = (Raise (CalledProcessError (subprocess_returncode args)),
         logged attempt (logged attempt s)).
Proof.
  intros He Hav Hm Hdims nodes pb args attempt Hrc.
  assert (Hone : ∀ (s0 : state) gen0 g0, self s0 = self s →
    __call__ gen0 g0 k t s0
    = (Raise (CalledProcessError (subprocess_returncode args)), logged attempt s0)).
  { intros s0 gen0 g0 Hself. rewrite call_unfold. unfold mbind at 1, M_bind at 1.
    rewrite lazy_load_unloaded by (by rewrite Hself).
    unfold _load_model, mbind at 1, M_bind at 1, get_self, OpenVINOModel_is_available.
    rewrite Hav. simpl. unfold mbind at 1, M_bind at 1. simpl.
    unfold mbind at 1, M_bind at 1. rewrite Hself, Hm.
    unfold mbind at 1, M_bind at 1.
    unfold _read_tf_model, mbind, M_bind, get_self, lift, emit, logged. simpl.
    rewrite Hself, Hm. simpl. rewrite (strip_and_pin_all _ _ Hdims). simpl.
    fold nodes pb args. apply Z.eqb_neq in Hrc. rewrite Hrc. simpl.
    rewrite <- !app_assoc, <- Hself. reflexivity. }
  split; [by apply Hone|]. intros generator2 g2. by apply Hone.
Qed.
End Conversions.

(** ** What a call leaves alone *)

Section Frame.
Context {T E : Type} `{Scalar T} `{Engine T E} `{Toolkit E}.

Local Abbreviation M := (@M T E _).
Local Abbreviation state := (@state T E _).

Definition configured_as (s0 : state) (s : state) : Prop :=
  ie (self s) = ie (self s0)
  ∧ model (self s) = model (self s0)
  ∧ model_dir (self s) = model_dir (self s0)
  ∧ batch_size (self s) = batch_size (self s0)
  ∧ length (outputs (self s0)) ≤ length (outputs (self s)).

Lemma store_output_configured s0 out_id v :
  keeps (configured_as s0) (λ _, True) (store_output out_id v).
Proof.
  intros s Hs. unfold store_output, mbind, M_bind, get_self, lift, py_setitem.
  destruct (py_index _ _) as [i|]; simpl; [|done].
  destruct Hs as (? & ? & ? & ? & ?). repeat split; simpl; try done.
  by rewrite length_insert.
Qed.

Ltac frame_side :=
  first
    [ done
    | intros ? ? (? & ? & ? & ? & ?); repeat split; simpl; try done;
      rewrite ?length_app; simpl; lia
    | intros ? (? & ? & ? & ? & ?); repeat split; simpl; try done;
      rewrite ?length_app; simpl; lia ].

Ltac frame_auto :=
  repeat first
    [ match goal with
      | |- keeps _ _ (store_output _ _) => apply store_output_configured
      end
    | keeps_step frame_side ].

(** Whether it returns or raises, [__call__] leaves [ie], [model],
    [model_dir] and [batch_size] as they were and removes no entry from
    [self.outputs]. *)
Theorem call_keeps_configuration generator g k t (s : state) :
  let s' := (__call__ generator g k t s).2 in
  ie (self s') = ie (self s)
  ∧ model (self s') = model (self s)
  ∧ model_dir (self s') = model_dir (self s)
  ∧ batch_size (self s') = batch_size (self s)
  ∧ length (outputs (self s)) ≤ length (outputs (self s')).
Proof.
  assert (Hk : keeps (configured_as s) (λ _, True) (__call__ generator g k t)).
  { unfold __call__, _load_model, _read_torch_model, _read_tf_model, the_core,
      first_key, submit_all, collect_rest, engine_read.
    frame_auto.
    all: unfold submit_batch, idle_request, collect_output, request_at, engine_read.
    all: frame_auto. }
  intros s'. subst s'.
  assert (Hs : configured_as s s) by (repeat split; done).
  specialize (Hk s Hs).
  destruct (__call__ generator g k t s) as [[a|e] s']; simpl; [exact Hk|exact (proj1 Hk)].
Qed.

(** The loop over the request slots writes only into entries that are
    empty: whether [collect_rest] returns or raises, the list keeps its
    length and every result that was stored before is still in its place. *)
Theorem collect_rest_fills_only_empty out_name l (s : state) :
  let s' := (collect_rest out_name l s).2 in
  length (outputs (self s')) = length (outputs (self s))
  ∧ ∀ p v, outputs (self s) !! p = Some (Some v) → outputs (self s') !! p = Some (Some v).
Proof.
  set (I := λ s1 : state,
    length (outputs (self s1)) = length (outputs (self s))
    ∧ ∀ p v, outputs (self s) !! p = Some (Some v) →
             outputs (self s1) !! p = Some (Some v)).
  assert (Hbody : ∀ lbs i q u, keeps I (λ _, True) (collect_output out_name lbs i q u)).
  { intros lbs i q u s1 [Hlen Hkeep].
    assert (Hstore : ∀ (s2 : state) idx v,
      outputs (self s2) = outputs (self s1) →
      py_index (length (outputs (self s1))) q = Some idx →
      outputs (self s1) !! idx = Some None →
      match store_output q v s2 with
      | (Ok _, s3) => I s3
      | (Raise _, s3) => I s3 ∧ True
      end).
    { intros s2 idx v Hself Hidx Hnone.
      unfold store_output, mbind, M_bind, get_self, lift, py_setitem, modify_self.
      rewrite Hself, Hidx. unfold I. simpl. split; [by rewrite length_insert|].
      intros p v' Hp. rewrite list_lookup_insert_ne; [by apply Hkeep|].
      intros ->. apply Hkeep in Hp. congruence. }
    unfold collect_output, mbind at 1, M_bind at 1, get_self.
    unfold mbind at 1, M_bind at 1, lift.
    destruct (py_getitem (outputs (self s1)) q) as [cur|e] eqn:Hget; [|done].
    apply py_getitem_Ok in Hget as (idx & Hidx & Hcur).
    destruct cur as [v|]; [done|].
    unfold mbind at 1, M_bind at 1, request_at.
    unfold mbind at 1, M_bind at 1, engine_read, engine.
    destruct (exec_net (self s1)) as [e|] eqn:He; [|done]. simpl.
    destruct (py_index (num_requests e) (Z.of_nat i)) as [r|]; simpl; [|done].
    unfold mbind at 1, M_bind at 1. simpl.
    destruct (q =? _)%Z.
    - unfold mbind at 1, M_bind at 1. destruct lbs as [n|]; simpl; [|done].
      by eapply Hstore.
    - by eapply Hstore. }
  assert (Hk : keeps I (λ _, True) (collect_rest out_name l)).
  { destruct l as [iri lbs]. unfold collect_rest.
    apply keeps_bind; [apply keeps_engine; done|]. intros st.
    apply keeps_bind; [destruct (negb _); [by apply keeps_raise|apply keeps_ret]|].
    intros _. apply keeps_for_enumerate. intros i q u. apply Hbody. }
  intros s'. subst s'.
  assert (Hs : I s) by done. specialize (Hk s Hs).
  destruct (collect_rest out_name l s) as [[a|e] s']; simpl; [exact Hk|exact (proj1 Hk)].
Qed.
End Frame.

(** ** When a call returns *)

Section Returns.
Context {T E : Type} `{Scalar T} `{Engine T E} `{Toolkit E}.

Local Abbreviation M := (@M T E _).
Local Abbreviation state := (@state T E _).

(** An engine that answers: in the states [Good] it has [n] requests,
    hands out ids below [n], waits successfully, and has an idle request
    after waiting for one. *)
Record engine_answers (Good : E → Prop) (n : nat) : Prop := {
  good_size : ∀ e, Good e → num_requests e = n;
  good_poll : ∀ e, Good e →
    Good (get_idle_request_id e).2 ∧ ((get_idle_request_id e).1 < Z.of_nat n)%Z;
  good_wait : ∀ k e, Good e → Good (wait k e).2 ∧ is_OK (wait k e).1 = true;
  good_after_wait : ∀ e, Good e →
    (0 ≤ (get_idle_request_id (wait (Some 1%nat) e).2).1)%Z;
  good_async : ∀ i name x e, Good e → i < n → Good (async_infer i name x e);
}.

Lemma bind_run {A B} (m : M A) (f : A → M B) (s : state) a s1 :
  m s = (Ok a, s1) → (m ≫= f) s = f a s1.
Proof. unfold mbind, M_bind. by intros ->. Qed.

Lemma py_index_in_range len (i : Z) :
  (-1 ≤ i < Z.of_nat len)%Z → 0 < len → ∃ j, py_index len i = Some j ∧ j < len.
Proof.
  intros Hi Hlen. unfold py_index. destruct (i <? 0)%Z eqn:Hneg.
  - assert (i = -1)%Z as -> by lia.
    replace ((0 <=? -1 + Z.of_nat len)%Z && (-1 + Z.of_nat len <? Z.of_nat len)%Z)
      with true by (symmetry; apply andb_true_intro; split; lia).
    eexists. split; [done|]. lia.
  - replace ((0 <=? i)%Z && (i <? Z.of_nat len)%Z)
      with true by (symmetry; apply andb_true_intro; split; lia).
    eexists. split; [done|]. lia.
Qed.

Lemma for_enumerate_returns {A L} (body : nat → A → L → M L)
    (Inv : nat → L → state → Prop) :
  ∀ items i l (s : state),
    (∀ j x l s, items !! j = Some x → Inv (i + j) l s →
       ∃ l' s', body (i + j) x l s = (Ok l', s') ∧ Inv (i + S j) l' s') →
    Inv i l s →
    ∃ l' s', for_enumerate body i items l s = (Ok l', s') ∧ Inv (i + length items) l' s'.
Proof.
  induction items as [|x items IH]; intros i l s Hbody Hinv; simpl.
  - exists l, s. by rewrite Nat.add_0_r.
  - destruct (Hbody 0 x l s) as (l1 & s1 & Hx & Hinv1); [done|by rewrite Nat.add_0_r|].
    rewrite Nat.add_0_r in Hx. rewrite (bind_run _ _ _ _ _ Hx).
    replace (i + S (length items)) with (S i + length items) by lia.
    apply IH.
    + intros j y l2 s2 Hy Hi.
      replace (S i + j) with (i + S j) in * by lia.
      replace (S i + S j) with (i + S (S j)) by lia.
      by apply (Hbody (S j)).
    + by replace (S i) with (i + 1) by lia.
Qed.

Section Answers.
Variables (Good : E → Prop) (n : nat).
Hypothesis answers : engine_answers Good n.

Lemma idle_request_returns (s : state) e :
  exec_net (self s) = Some e → Good e →
  ∃ id e', idle_request s = (Ok id, on_engine e' s) ∧ Good e'
    ∧ (0 ≤ id < Z.of_nat n)%Z.
Proof.
  intros He Hg. unfold idle_request, mbind, M_bind, engine. rewrite He.
  pose proof (good_poll _ _ answers e Hg) as [Hg1 Hlt1].
  destruct (get_idle_request_id e) as [id1 e1] eqn:Hp. simpl in Hg1, Hlt1.
  destruct (id1 <? 0)%Z eqn:Hneg.
  - simpl.
    pose proof (good_wait _ _ answers (Some 1) e1 Hg1) as [Hg2 Hok].
    pose proof (good_after_wait _ _ answers e1 Hg1) as Hnn.
    destruct (wait (Some 1) e1) as [st e2] eqn:Hw. simpl in Hg2, Hok, Hnn.
    rewrite Hok. simpl.
    pose proof (good_poll _ _ answers e2 Hg2) as [Hg3 Hlt3].
    destruct (get_idle_request_id e2) as [id2 e3] eqn:Hp2. simpl in Hg3, Hlt3, Hnn.
    destruct (id2 <? 0)%Z eqn:Hneg2; [lia|].
    exists id2, e3. split; [reflexivity|]. split; [done|lia].
  - exists id1, e1. split; [reflexivity|]. split; [done|lia].
Qed.

(** The state between two iterations of the loop over the batches. *)
Definition ready (bs len : nat) (j : nat) (l : locals) (s : state) : Prop :=
  (∃ e, exec_net (self s) = Some e ∧ Good e)
  ∧ batch_size (self s) = bs
  ∧ length (outputs (self s)) = len + j
  ∧ length l.1 = n
  ∧ Forall (λ z, (-1 ≤ z < Z.of_nat j)%Z) l.1
  ∧ (0 < j → is_Some l.2).

Definition well_formed (k t : option (@prepare_hook T)) (bs : nat) (b : batch T) : Prop :=
  ∃ x, head (prepared k t b) = Some x ∧ length (rows x) ≤ bs.

Lemma submit_batch_returns inp_name out_name k t bs len j b l (s : state) :
  well_formed k t bs b →
  ready bs len j l s →
  ∃ l' s', submit_batch inp_name out_name k t j b l s = (Ok l', s')
    ∧ ready bs len (S j) l' s'.
Proof.
  intros (x & Hx & Hrows) ((e & He & Hg) & Hbs & Hlen & Htab & Hran & _).
  destruct l as [table lbs]. simpl in Htab, Hran.
  destruct (idle_request_returns s e He Hg) as (id & e1 & Hidle & Hg1 & Hid).
  assert (Hn : 0 < n) by lia.
  destruct (py_index_in_range n id ltac:(lia) Hn) as (r & Hr & Hrn).
  assert (r = Z.to_nat id) as ->.
  { unfold py_index in Hr. destruct (id <? 0)%Z eqn:?; [lia|].
    destruct (_ && _); [|done]. by injection Hr as <-. }
  destruct (lookup_lt_is_Some_2 table (Z.to_nat id) ltac:(lia)) as [q Hq].
  pose proof (proj1 (Forall_lookup _ _) Hran _ _ Hq) as Hqran. simpl in Hqran.
  unfold submit_batch. destruct b as [[inputs labels] weights].
  unfold prepared in Hx. simpl in Hx.
  set (prep := match k with Some k0 => k0 inputs | None => _ end) in *.
  assert (Hget : lift (py_getitem prep 0) s = (Ok x, s)).
  { destruct prep as [|y prep']; [done|]. simpl in Hx. by injection Hx as ->. }
  rewrite (bind_run _ _ _ _ _ Hget).
  rewrite (bind_run get_self _ s (self s) s) by done.
  rewrite Hbs.
  assert (Hpad : ∃ x', (if negb (length (rows x) =? bs)
                 then _ ← py_assert (length (rows x) <? bs) ""; mret (pad_batch bs x)
                 else mret x) s = (Ok x', s)).
  { destruct (length (rows x) =? bs) eqn:Heq; simpl; [by eexists|].
    apply Nat.eqb_neq in Heq.
    replace (length (rows x) <? bs) with true by (symmetry; apply Nat.ltb_lt; lia).
    by eexists. }
  destruct Hpad as (x' & Hpad). rewrite (bind_run _ _ _ _ _ Hpad).
  rewrite (bind_run _ _ _ _ _ Hidle).
  assert (Hout : lift (py_getitem table id) (on_engine e1 s) = (Ok q, on_engine e1 s)).
  { unfold lift, py_getitem. by rewrite Htab, Hr, Hq. }
  rewrite (bind_run _ _ _ _ _ Hout).
  assert (Hreq : request_at id (on_engine e1 s) = (Ok (Z.to_nat id), on_engine e1 s)).
  { unfold request_at, engine_read, engine, mbind, M_bind. simpl.
    by rewrite (good_size _ _ answers e1 Hg1), Hr. }
  rewrite (bind_run _ _ _ _ _ Hreq).
  assert (Hcopy : ∃ s2,
    (if negb (q =? -1)%Z
     then buf ← engine_read (λ e0, output_buffer e0 (Z.to_nat id) out_name);
          store_output q buf
     else mret ()) (on_engine e1 s) = (Ok (), s2)
    ∧ exec_net (self s2) = Some e1
    ∧ batch_size (self s2) = bs
    ∧ length (outputs (self s2)) = len + j).
  { destruct (q =? -1)%Z eqn:Hq1; simpl.
    - by eexists.
    - apply Z.eqb_neq in Hq1.
      destruct (py_index_in_range (length (outputs (self s))) q ltac:(lia) ltac:(lia))
        as (p & Hp & Hplt).
      unfold store_output, engine_read, engine, py_setitem, mbind, M_bind, get_self,
        lift, modify_self. simpl. rewrite Hp. simpl.
      eexists. split; [reflexivity|]. simpl. by rewrite length_insert. }
  destruct Hcopy as (s2 & Hcopy & He2 & Hbs2 & Hlen2).
  rewrite (bind_run _ _ _ _ _ Hcopy).
  assert (Hset : lift (py_setitem table id (Z.of_nat j)) s2
                 = (Ok (<[Z.to_nat id := Z.of_nat j]> table), s2)).
  { unfold lift, py_setitem. by rewrite Htab, Hr. }
  rewrite (bind_run _ _ _ _ _ Hset).
  unfold mbind, M_bind, modify_self, engine. simpl. rewrite He2.
  eexists _, _. split; [reflexivity|].
  split; [|split; [done|split; [|split; [|split]]]]; simpl.
  - eexists. split; [done|]. by apply (good_async _ _ answers).
  - rewrite length_app. simpl. lia.
  - by rewrite length_insert.
  - apply Forall_insert; [|lia].
    eapply Forall_impl; [exact Hran|]. simpl. intros; lia.
  - done.
Qed.
(** The state between two iterations of the loop over the request slots. *)
Definition collecting (N : nat) (s : state) : Prop :=
  (∃ e, exec_net (self s) = Some e ∧ Good e) ∧ length (outputs (self s)) = N.

Lemma collect_output_returns out_name m i q N (s : state) :
  i < n → (-1 ≤ q < Z.of_nat N)%Z → 0 < N →
  collecting N s →
  ∃ s', collect_output out_name (Some m) i q () s = (Ok (), s') ∧ collecting N s'.
Proof.
  intros Hi Hq HN ((e & He & Hg) & Hlen).
  destruct (py_index_in_range N q Hq HN) as (p & Hp & Hplt).
  destruct (lookup_lt_is_Some_2 (outputs (self s)) p ltac:(lia)) as [cur Hcur].
  unfold collect_output.
  rewrite (bind_run get_self _ s (self s) s) by done.
  assert (Hget : lift (py_getitem (outputs (self s)) q) s = (Ok cur, s)).
  { unfold lift, py_getitem. by rewrite Hlen, Hp, Hcur. }
  rewrite (bind_run _ _ _ _ _ Hget).
  destruct cur as [v|].
  { exists s. split; [done|]. split; [eauto|done]. }
  assert (Hreq : request_at (Z.of_nat i) s = (Ok i, s)).
  { unfold request_at. rewrite (bind_run _ _ _ _ _ (engine_read_Some _ _ _ He)).
    rewrite (good_size _ _ answers e Hg). unfold py_index.
    replace (Z.of_nat i <? 0)%Z with false by lia.
    replace ((0 <=? Z.of_nat i)%Z && (Z.of_nat i <? Z.of_nat n)%Z)
      with true by (symmetry; apply andb_true_intro; split; lia).
    by rewrite Nat2Z.id. }
  rewrite (bind_run _ _ _ _ _ Hreq).
  rewrite (bind_run _ _ _ _ _ (engine_read_Some _ _ _ He)).
  assert (Hstore : ∀ v, ∃ s', store_output q v s = (Ok (), s') ∧ collecting N s').
  { intros v. unfold store_output, py_setitem, mbind, M_bind, get_self, lift, modify_self.
    rewrite Hlen, Hp. simpl. eexists. split; [reflexivity|].
    split; simpl; [eauto|]. by rewrite length_insert. }
  destruct (q =? _)%Z.
  - rewrite (bind_run (mret m) _ s m s) by done. apply Hstore.
  - apply Hstore.
Qed.

(** With a loaded network whose engine answers, one input and one output,
    and a generator that yields at least one batch, each with a first
    input of at most [batch_size] rows, [__call__] returns: it hands back
    the second copy of the generator with the source used up, and
    [self.outputs] has grown by one entry per batch. *)
Theorem call_returns generator g k t (s : state) e :
  exec_net (self s) = Some e → Good e →
  length (input_info e) = 1 → length (net_outputs e) = 1 →
  remaining generator g ≠ [] →
  Forall (well_formed k t (batch_size (self s))) (remaining generator g) →
  ∃ s', __call__ generator g k t s
        = (Ok ((tee generator g).2, exhaust (tee generator g).1 g), s')
    ∧ length (outputs (self s'))
      = length (outputs (self s)) + length (remaining generator g).
Proof.
  intros He Hg Hin Hout Hne Hwf.
  destruct (input_info e) as [|inp_name [|]] eqn:Hi; [done| |done].
  destruct (net_outputs e) as [|out_name [|]] eqn:Ho; [done| |done].
  rewrite call_unfold, (bind_run _ _ _ _ _ (lazy_load_loaded generator g s e He)).
  rewrite (call_body_start k t generator g s e inp_name out_name He Hi Ho).
  set (batches := remaining generator g) in *.
  set (bs := batch_size (self s)) in *.
  set (len := length (outputs (self s))).
  assert (Hloop : ∃ l s1,
    submit_all inp_name out_name k t batches s = (Ok l, s1)
    ∧ ready bs len (length batches) l s1).
  { unfold submit_all.
    rewrite (bind_run _ _ _ _ _ (engine_read_Some _ _ _ He)).
    rewrite (good_size _ _ answers e Hg).
    apply (for_enumerate_returns _ (ready bs len) batches 0).
    - intros j b l s0 Hb Hready. simpl.
      apply submit_batch_returns; [|done].
      by apply (proj1 (Forall_lookup _ _) Hwf j b).
    - split; [eauto|]. split; [done|]. split; [unfold len; lia|].
      split; [simpl; by rewrite length_replicate|]. split; [|lia].
      simpl. apply Forall_replicate. lia. }
  destruct Hloop as ([table lbs] & s1 & Hloop & (e1 & He1 & Hg1) & _ & Hlen1 & Htab & Hran & Hlbs).
  simpl in Htab, Hran, Hlbs.
  assert (Hpos : 0 < length batches) by (destruct batches; [done|simpl; lia]).
  destruct (Hlbs Hpos) as [m ->].
  rewrite (bind_run _ _ _ _ _ Hloop).
  assert (Hrest : ∃ s', collect_rest out_name (table, Some m) s1 = (Ok (), s')
                        ∧ collecting (len + length batches) s').
  { unfold collect_rest.
    pose proof (good_wait _ _ answers None e1 Hg1) as [Hg2 Hok].
    assert (Hwait : engine (wait None) s1
                    = (Ok (wait None e1).1, on_engine (wait None e1).2 s1)).
    { unfold engine. rewrite He1. by destruct (wait None e1). }
    rewrite (bind_run _ _ _ _ _ Hwait), Hok. simpl.
    rewrite (bind_run (mret ()) _ _ () _) by done.
    destruct (for_enumerate_returns (collect_output out_name (Some m))
                (λ _ _, collecting (len + length batches)) table 0 ()
                (on_engine (wait None e1).2 s1)) as (u & s' & Hrun & Hs').
    - intros j q [] s0 Hq Hs0. simpl.
      destruct (collect_output_returns out_name m j q (len + length batches) s0)
        as (s0' & Hrun0 & Hs0'); [| | |done|].
      + apply lookup_lt_Some in Hq. lia.
      + pose proof (proj1 (Forall_lookup _ _) Hran _ _ Hq) as Hr. simpl in Hr. lia.
      + lia.
      + by exists (), s0'.
    - split; [simpl; eauto|]. simpl. lia.
    - destruct u. by exists s'. }
  destruct Hrest as (s' & Hrest & _ & Hlen').
  rewrite (bind_run _ _ _ _ _ Hrest).
  exists s'. split; [done|]. exact Hlen'.
Qed.
End Answers.
End Returns.

(** ** Runs for the further properties *)

Section MoreScenarios.
Import Sim.

#[local] Existing Instance scenario_toolkit.

Local Abbreviation sim_state := (@state Z pool scenario_toolkit).

Definition one_row_input : ndarray Z := NDArray [[5; 6]]%Z [2].

(** A batch of one row for batch size 2: one zero row is added, and the
    cut gives the batch back. *)
Lemma pad_then_cut_recovers_batch_witness :
  length (rows one_row_input) ≤ 2
  ∧ pad_batch 2 one_row_input = NDArray [[5; 6]; [0; 0]]%Z [2]
  ∧ slice_prefix 1 (pad_batch 2 one_row_input) = one_row_input.
Proof.
  assert (Hle : length (rows one_row_input) ≤ 2) by (simpl; lia).
  split; [exact Hle|]. split; [reflexivity|].
  exact (proj1 (proj2 (proj2 (pad_then_cut_recovers_batch 2 one_row_input Hle)))).
Defined.

Definition pinned_graph : list NodeDef :=
  [ {| node_name := "features"; node_op := "Placeholder"; node_dims := [50; 1024]%Z |};
    {| node_name := "dense"; node_op := "MatMul"; node_dims := [] |} ].

(** The graph of the conversion scenario, edited for batch size 50. *)
Lemma edited_graph_is_pinned_witness :
  strip_and_pin 50 (length graph) graph = Ok pinned_graph
  ∧ Forall (λ node, is_training_input node = false) pinned_graph
  ∧ filter (λ node, is_placeholder node = false) pinned_graph
    = filter (λ node, is_placeholder node = false) graph.
Proof.
  assert (Hrun : strip_and_pin 50 (length graph) graph = Ok pinned_graph) by reflexivity.
  split; [exact Hrun|].
  pose proof (edited_graph_is_pinned 50 graph pinned_graph Hrun) as (Hno & _ & Hrest & _).
  split; [exact Hno|exact Hrest].
Defined.

Definition scalar_input : NodeDef :=
  {| node_name := "rate"; node_op := "Placeholder"; node_dims := [] |}.

Definition scalar_graph : list NodeDef :=
  [ scalar_input; {| node_name := "dense"; node_op := "MatMul"; node_dims := [] |} ].

Definition keras_scalar : sim_state :=
  {| self := __init__ (OtherModel scalar_graph) "d" 50; log := [] |}.

(** A Keras model whose graph has a placeholder without dimensions. *)
Lemma placeholder_without_dims_stops_conversion_witness :
  scalar_input ∈ scalar_graph
  ∧ _read_tf_model keras_scalar = (Raise IndexError, logged [EvFreezeGraph] keras_scalar).
Proof.
  assert (Hin : scalar_input ∈ scalar_graph) by apply list_elem_of_here.
  split; [exact Hin|].
  exact (placeholder_without_dims_stops_conversion keras_scalar scalar_graph scalar_input
           eq_refl Hin eq_refl eq_refl eq_refl).
Defined.

(** C8 fails for a graph with a placeholder that has no dimensions: the
    graph is frozen and nothing else happens; no file is written, the
    model optimizer is not run and no network is read. *)
Lemma scalar_placeholder_ends_conversion :
  model (self keras_scalar) = OtherModel scalar_graph
  ∧ ie (self keras_scalar) = Some IECore_new
  ∧ ¬ Forall has_batch_dim scalar_graph
  ∧ _read_tf_model keras_scalar = (Raise IndexError, logged [EvFreezeGraph] keras_scalar).
Proof.
  split; [reflexivity|]. split; [reflexivity|]. split.
  - intros Hall. apply Forall_cons_1 in Hall as [Hx _].
    by apply (Hx eq_refl eq_refl).
  - vm_compute. reflexivity.
Qed.

Definition no_batches : stream Z := Stream [] [].

(** A generator without batches, on a loaded object and on a fresh one. *)
Lemma empty_generator_raises_witness :
  remaining Source no_batches = []
  ∧ (__call__ Source no_batches None None (loaded two_requests [])).1 = Raise IndexError
  ∧ __call__ Source no_batches None None fresh = (Raise StopIteration, fresh).
Proof.
  assert (Hempty : remaining Source no_batches = []) by reflexivity.
  split; [exact Hempty|]. split.
  - refine (proj1 (empty_generator_raises Source no_batches None None
                     (loaded two_requests []) Hempty)
              two_requests "x"%string "y"%string eq_refl eq_refl eq_refl eq_refl _ eq_refl).
    simpl. lia.
  - exact (proj2 (empty_generator_raises Source no_batches None None fresh Hempty)
             () eq_refl eq_refl eq_refl I).
Defined.

Definition no_inputs : batch Z := ([], [], []).
Definition three_rows : batch Z := ([NDArray [[1; 2]; [3; 4]; [5; 6]]%Z [2]], [], []).

(** A batch without inputs and a batch of three rows for batch size 2. *)
Lemma malformed_batch_raises_witness :
  submit_batch "x" "y" None None 0 no_inputs ([-1; -1]%Z, None) (loaded two_requests [])
    = (Raise IndexError, loaded two_requests [])
  ∧ submit_batch "x" "y" None None 0 three_rows ([-1; -1]%Z, None) (loaded two_requests [])
    = (Raise (AssertionError ""), loaded two_requests [])
  ∧ __call__ Source (Stream [three_rows; two_rows] []) None None (loaded two_requests [])
    = (Raise (AssertionError ""), loaded two_requests []).
Proof.
  split; [|split].
  - exact (proj1 (malformed_batch_raises "x" "y" None None 0 no_inputs ([-1; -1]%Z, None)
                    (loaded two_requests [])) eq_refl).
  - refine (proj1 (proj2 (malformed_batch_raises "x" "y" None None 0 three_rows
                            ([-1; -1]%Z, None) (loaded two_requests [])))
              (NDArray [[1; 2]; [3; 4]; [5; 6]]%Z [2]) eq_refl _).
    simpl. lia.
  - refine (proj2 (proj2 (malformed_batch_raises "x" "y" None None 0 three_rows
                            ([-1; -1]%Z, None) (loaded two_requests [])))
              Source (Stream [three_rows; two_rows] []) two_requests [two_rows]
              (NDArray [[1; 2]; [3; 4]; [5; 6]]%Z [2]) eq_refl eq_refl eq_refl eq_refl eq_refl _).
    simpl. lia.
Defined.

(** A fresh object for a PyTorch model and a generator of two batches: the
    model is exported for the shape [2; 2], and the first batch has moved
    into the buffer of the tee. *)
Lemma torch_conversion_steps_witness :
  next_iter (tee Source two_batches).1 two_batches
    = Ok (two_rows, TeeIter 1, Stream [one_row] [two_rows])
  ∧ _read_torch_model Source two_batches fresh
    = (Ok (two_requests, TeeIter 0, Stream [one_row] [two_rows]),
       logged [EvOnnxExport [2; 2]; EvReadNetworkFromBuffer "onnx"] fresh).
Proof.
  assert (Hnext : next_iter (tee Source two_batches).1 two_batches
                  = Ok (two_rows, TeeIter 1, Stream [one_row] [two_rows])) by reflexivity.
  split; [exact Hnext|].
  exact (proj1 (torch_conversion_steps Source two_batches fresh () IECore_new
                  (NDArray [[1; 2]; [3; 4]]%Z [2]) [] [] (TeeIter 1)
                  (Stream [one_row] [two_rows]) eq_refl eq_refl Hnext)).
Defined.

(** After a call on two batches the generator passed in has nothing left. *)
Lemma source_exhausted_after_call_witness :
  (call [two_rows; one_row] (loaded two_requests [])).1
    = Ok (TeeIter 0, Stream [] [two_rows; one_row])
  ∧ next_iter Source (Stream [] [two_rows; one_row])
    = Raise (A:=batch Z * pyiter * stream Z) StopIteration.
Proof.
  split; [vm_compute; reflexivity|].
  refine (proj2 (proj2 (source_exhausted_after_call Source (Stream [two_rows; one_row] [])
                          None None (loaded two_requests [])
                          (TeeIter 0) (Stream [] [two_rows; one_row])
                          (call [two_rows; one_row] (loaded two_requests [])).2 _))).
  vm_compute. reflexivity.
Defined.
End MoreScenarios.

Section FailedConversion.
Import Sim.

(** The tools of a setup in which the model optimizer returns 1. *)
#[local] Instance failing_toolkit : Toolkit pool := toolkit true 1 two_requests.

Definition keras_failing : @state Z pool failing_toolkit :=
  {| self := __init__ (OtherModel graph) "d" 50; log := [] |}.

Definition failed_attempt : list event :=
  [EvFreezeGraph; EvWriteFile "d/model.pb" "features;dense";
   EvSubprocessRun ["python3"; "mo_tf.py"; "--input_model"; "d/model.pb";
                    "--output_dir"; "d"]%string true].

(** Two calls in a row convert twice and fail twice. *)
Lemma failed_conversion_is_retried_witness :
  __call__ Source two_batches None None keras_failing
    = (Raise (CalledProcessError 1), logged failed_attempt keras_failing)
  ∧ __call__ Source two_batches None None (logged failed_attempt keras_failing)
    = (Raise (CalledProcessError 1),
       logged failed_attempt (logged failed_attempt keras_failing)).
Proof.
  assert (Hdims : Forall has_batch_dim graph).
  { apply Forall_cons_2; [|apply Forall_cons_2; [|apply Forall_cons_2; [|apply Forall_nil_2]]];
      vm_compute; intros; congruence. }
  pose proof (failed_conversion_is_retried Source two_batches None None keras_failing graph
                eq_refl eq_refl eq_refl Hdims) as Hretry.
  cbv zeta in Hretry.
  assert (Hcode : subprocess_returncode
                    (mo_args (path_join (model_dir (self keras_failing)) "model.pb")
                       (model_dir (self keras_failing))) ≠ 0%Z) by (vm_compute; discriminate).
  destruct (Hretry Hcode) as [Hfirst Hsecond].
  split; [exact Hfirst|exact (Hsecond Source two_batches)].
Defined.
End FailedConversion.

Section EagerReturns.
Import Sim.
Import Eager.

#[local] Existing Instance eager_toolkit.

Lemma eager_answers : engine_answers (λ p : Eager.pool, length p = 1) 1.
Proof.
  split.
  - intros e He. exact He.
  - intros e He. simpl. split; [exact He|lia].
  - intros k e He. simpl. split; [exact He|reflexivity].
  - intros e He. simpl. lia.
  - intros i name x e He Hi. simpl. by rewrite length_insert.
Qed.

(** Two batches on the engine that computes at once: the call returns and
    the queue holds two entries. *)
Lemma call_returns_witness :
  Forall (well_formed None None 2) [two_rows; one_row]
  ∧ ∃ s', __call__ Source two_batches None None eager
          = (Ok (TeeIter 0, Stream [] [two_rows; one_row]), s')
    ∧ length (outputs (self s')) = 2.
Proof.
  assert (Hwf : Forall (well_formed (T:=Z) None None 2) [two_rows; one_row]).
  { apply Forall_cons_2; [|apply Forall_cons_2; [|apply Forall_nil_2]].
    - exists (NDArray [[1; 2]; [3; 4]]%Z [2]). split; [reflexivity|simpl; lia].
    - exists (NDArray [[5; 6]]%Z [2]). split; [reflexivity|simpl; lia]. }
  split; [exact Hwf|].
  refine (call_returns (λ p : Eager.pool, length p = 1) 1 eager_answers
            Source two_batches None None eager [NDArray [] []]
            eq_refl eq_refl eq_refl eq_refl _ Hwf).
  discriminate.
Defined.
End EagerReturns.

(** ** What a call never raises *)

Section Never.
Context {T E : Type} `{Scalar T} `{Engine T E} `{Toolkit E}.

Local Abbreviation M := (@M T E _).
Local Abbreviation state := (@state T E _).

Definition bound (e : exn) : Prop := e ≠ UnboundLocalError.

(** [last_batch_size] is unbound only while every slot is unused. *)
Definition unused_while_unbound (l : locals) : Prop :=
  l.2 = None → Forall (λ q, q = (-1)%Z) l.1.

Lemma keeps_for_items {A L} I X (P : A → Prop) (body : nat → A → L → M L) :
  (∀ i x l, P x → keeps I X (body i x l)) →
  ∀ items i l, Forall P items → keeps I X (for_enumerate body i items l).
Proof.
  intros Hbody. induction items as [|x items IH]; intros i l Hall; simpl.
  - apply keeps_ret.
  - apply Forall_cons_1 in Hall as [Hx Hall].
    apply keeps_bind; [by apply Hbody|]. intros l'. by apply IH.
Qed.

Ltac bound_side := first [ done | intros; unfold bound; congruence ].

Ltac raised H :=
  unfold bound;
  first [ apply next_iter_raises in H
        | apply py_getitem_raises in H
        | apply py_setitem_raises in H
        | apply strip_and_pin_raises in H
        | injection H as H ];
  subst; discriminate.

Lemma store_output_bound q v : keeps (λ _ : state, True) bound (store_output q v).
Proof.
  unfold store_output. apply keeps_bind; [apply keeps_get_self|]. intros self0.
  apply keeps_bind; [|intros; by apply keeps_modify_self].
  apply keeps_lift. intros e He. raised He.
Qed.

Lemma request_at_bound i : keeps (λ _ : state, True) bound (request_at i).
Proof.
  unfold request_at, engine_read.
  apply keeps_bind; [by apply keeps_engine|]. intros n.
  destruct (py_index n i); [apply keeps_ret|by apply keeps_raise].
Qed.

Lemma idle_request_bound : keeps (λ _ : state, True) bound idle_request.
Proof.
  unfold idle_request. apply keeps_bind; [by apply keeps_engine|]. intros id.
  destruct (id <? 0)%Z; [|apply keeps_ret].
  apply keeps_bind; [by apply keeps_engine|]. intros st.
  destruct (negb (is_OK st)); [by apply keeps_raise|].
  apply keeps_bind; [by apply keeps_engine|]. intros id2.
  destruct (id2 <? 0)%Z; [by apply keeps_raise|apply keeps_ret].
Qed.

Lemma submit_batch_bound inp_name out_name k t j b l :
  keeps (λ _ : state, True) bound (submit_batch inp_name out_name k t j b l).
Proof.
  unfold submit_batch. destruct l as [table lbs], b as [[inputs labels] weights].
  apply keeps_bind.
  { apply keeps_lift. intros e He. raised He. }
  intros x. apply keeps_bind; [apply keeps_get_self|]. intros self0.
  apply keeps_bind.
  { destruct (negb _); [|apply keeps_ret].
    apply keeps_bind; [by apply keeps_py_assert|]. intros _. apply keeps_ret. }
  intros x'. apply keeps_bind; [apply idle_request_bound|]. intros id.
  apply keeps_bind.
  { apply keeps_lift. intros e He. raised He. }
  intros q. apply keeps_bind; [apply request_at_bound|]. intros r.
  apply keeps_bind.
  { destruct (negb _); [|apply keeps_ret].
    apply keeps_bind; [by apply keeps_engine|]. intros buf. apply store_output_bound. }
  intros _. apply keeps_bind.
  { apply keeps_lift. intros e He. raised He. }
  intros table'. apply keeps_bind; [by apply keeps_modify_self|]. intros _.
  apply keeps_bind; [by apply keeps_engine|]. intros _. apply keeps_ret.
Qed.

Lemma submit_all_bound inp_name out_name k t batches :
  triple (λ _ : state, True) (submit_all inp_name out_name k t batches)
    (λ l _, unused_while_unbound l) (λ e _, True ∧ bound e).
Proof.
  unfold submit_all. eapply triple_bind.
  { apply (keeps_engine (λ _, True) bound); done. }
  intros n. cbv beta.
  eapply triple_weaken;
    [apply (for_enumerate_triple _ (λ l (_ : state), unused_while_unbound l)
              (λ e _, True ∧ bound e))| | |].
  - intros j b l s Hl.
    pose proof (submit_batch_bound inp_name out_name k t j b l s I) as Hb.
    destruct (submit_batch inp_name out_name k t j b l s) as [[l'|e] s'] eqn:Hrun; [|exact Hb].
    destruct l as [table lbs], l' as [table' lbs'].
    apply submit_batch_Ok in Hrun as (x & id & s1 & e1 & q & outs & _ & _ & _ & _ & _ & _ & _ & -> & _).
    intros [=].
  - intros s _ _. simpl. by apply Forall_replicate.
  - done.
  - done.
Qed.

Lemma collect_output_bound out_name lbs i q u :
  (lbs = None → q = (-1)%Z) →
  keeps (λ _ : state, True) bound (collect_output out_name lbs i q u).
Proof.
  intros Hq s _. unfold collect_output.
  unfold mbind at 1, M_bind at 1, get_self.
  unfold mbind at 1, M_bind at 1, lift.
  destruct (py_getitem (outputs (self s)) q) as [cur|e] eqn:Hget.
  2:{ split; [done|]. apply py_getitem_raises in Hget as ->. done. }
  destruct cur as [v|]; [done|].
  apply py_getitem_Ok in Hget as (p & Hp & Hcur).
  assert (Hlen : 0 < length (outputs (self s))) by (apply lookup_lt_Some in Hcur; lia).
  assert (Hrest : keeps (λ _ : state, True) bound
    (request ← request_at (Z.of_nat i);
     output ← engine_read (λ e, output_buffer e request out_name);
     if (q =? Z.of_nat (length (outputs (self s))) - 1)%Z
     then n ← match lbs with Some n => mret n | None => raise UnboundLocalError end;
          store_output q (slice_prefix n output)
     else store_output q output)).
  { apply keeps_bind; [apply request_at_bound|]. intros r.
    apply keeps_bind; [by apply keeps_engine|]. intros output.
    destruct (q =? _)%Z eqn:Hlast; [|apply store_output_bound].
    destruct lbs as [n|].
    - apply keeps_bind; [apply keeps_ret|]. intros n'. apply store_output_bound.
    - rewrite (Hq eq_refl) in Hlast. apply Z.eqb_eq in Hlast. lia. }
  exact (Hrest s I).
Qed.

Lemma collect_rest_bound out_name l :
  unused_while_unbound l → keeps (λ _ : state, True) bound (collect_rest out_name l).
Proof.
  intros Hl. destruct l as [table lbs]. unfold collect_rest.
  apply keeps_bind; [by apply keeps_engine|]. intros st.
  apply keeps_bind; [destruct (negb _); [by apply keeps_raise|apply keeps_ret]|].
  intros _. apply (keeps_for_items _ _ (λ q, lbs = None → q = (-1)%Z)).
  - intros i q u Hq. by apply collect_output_bound.
  - unfold unused_while_unbound in Hl. simpl in Hl.
    destruct lbs as [n|].
    + apply Forall_forall. intros q _ [=].
    + eapply Forall_impl; [by apply Hl|]. by intros q ->.
Qed.

Ltac bound_auto :=
  repeat first
    [ apply keeps_lift; let He := fresh "He" in intros ? He; raised He
    | keeps_step bound_side ].

Lemma lazy_load_bound generator g :
  keeps (λ _ : state, True) bound (lazy_load generator g).
Proof.
  unfold lazy_load, _load_model, _read_torch_model, _read_tf_model, the_core.
  bound_auto.
Qed.

(** [last_batch_size] is never read before it is bound: whatever the
    object, the generator and the engine do, [__call__] does not raise
    [UnboundLocalError].  The final loop reads the variable only for the
    slot of the last entry of [self.outputs], and while no batch was
    submitted every slot holds -1, which is no index of the last entry of
    a list that has one. *)
Theorem last_batch_size_never_unbound generator g k t (s : state) :
  (__call__ generator g k t s).1 ≠ Raise UnboundLocalError.
Proof.
  assert (Hk : keeps (λ _ : state, True) bound
    (lazy_load generator g ≫= λ '(generator0, g0), call_body k t generator0 g0)).
  { apply keeps_bind; [apply lazy_load_bound|]. intros [gen1 g1].
    unfold call_body, first_key, engine_read.
    apply keeps_bind; [by apply keeps_engine|]. intros input_keys.
    apply keeps_bind; [by apply keeps_py_assert|]. intros _.
    apply keeps_bind; [by apply keeps_engine|]. intros output_keys.
    apply keeps_bind; [by apply keeps_py_assert|]. intros _.
    apply keeps_bind; [destruct input_keys; [by apply keeps_raise|apply keeps_ret]|].
    intros inp_name.
    apply keeps_bind; [destruct output_keys; [by apply keeps_raise|apply keeps_ret]|].
    intros out_name. destruct (tee gen1 g1) as [gc gen2].
    eapply triple_bind; [apply submit_all_bound|]. intros l.
    eapply triple_weaken;
      [apply (triple_bind (λ s1, True ∧ unused_while_unbound l) (λ _ _, True)
                (λ _ _, True) (λ e _, True ∧ bound e))| | |].
    - intros s1 [_ Hl]. by apply collect_rest_bound.
    - intros _. apply keeps_ret.
    - done.
    - done.
    - done. }
  specialize (Hk s I). unfold bound in Hk. rewrite <- call_unfold in Hk.
  destruct (__call__ generator g k t s) as [[a|e] s']; simpl; [done|].
  intros [= ->]. by destruct Hk.
Qed.
End Never.

(** ** Attributes of [None] *)

Section Attributes.
Context {T E : Type} `{Scalar T} `{Engine T E} `{Toolkit E}.

Local Abbreviation M := (@M T E _).
Local Abbreviation state := (@state T E _).
Local Abbreviation OpenVINOModel := (@OpenVINOModel T E _).

Definition no_attribute_error (e : exn) : Prop := e ≠ AttributeError.

(** [self.ie] is set whenever the engine could be imported, as [__init__]
    leaves it. *)
Definition has_core (s : state) : Prop := is_available = true → is_Some (ie (self s)).

Definition has_network (s : state) : Prop := is_Some (exec_net (self s)).

Lemma keeps_self_bind {B} (I : state → Prop) X (P : OpenVINOModel → Prop) (k : OpenVINOModel → M B) :
  (∀ s, I s → P (self s)) →
  (∀ o, P o → keeps I X (k o)) →
  keeps I X (get_self ≫= k).
Proof.
  intros HP Hk s Hs. unfold mbind, M_bind, get_self. by apply (Hk (self s) (HP s Hs)).
Qed.

Lemma engine_has_network {A} (f : E → A * E) :
  keeps has_network no_attribute_error (engine f).
Proof.
  intros s [e He]. unfold engine. rewrite He. destruct (f e) as [a e']. by eexists.
Qed.

Ltac other_error H :=
  unfold no_attribute_error;
  first [ apply next_iter_raises in H
        | apply py_getitem_raises in H
        | apply py_setitem_raises in H
        | apply strip_and_pin_raises in H
        | injection H as H ];
  subst; discriminate.

Ltac attribute_side :=
  first [ done
        | unfold no_attribute_error; discriminate
        | intros ? Hs; exact Hs ].

Ltac attribute_auto :=
  repeat first
    [ apply engine_has_network
    | apply keeps_lift; let He := fresh "He" in intros ? He; other_error He
    | keeps_step attribute_side ].

Lemma call_body_has_network k t generator g :
  keeps has_network no_attribute_error (call_body k t generator g).
Proof.
  unfold call_body, first_key, submit_all, collect_rest, engine_read.
  attribute_auto.
  all: unfold submit_batch, collect_output, idle_request, request_at, store_output, engine_read.
  all: attribute_auto.
Qed.

Lemma load_model_has_core generator g :
  keeps (λ s : state, is_Some (ie (self s))) no_attribute_error (_load_model generator g).
Proof.
  set (P := λ o : OpenVINOModel, is_Some (ie o)).
  assert (Hcore : ∀ o, P o → keeps (λ s : state, is_Some (ie (self s))) no_attribute_error
                              (the_core o)).
  { intros o [c Hc]. unfold the_core. rewrite Hc. apply keeps_ret. }
  unfold _load_model, _read_torch_model, _read_tf_model.
  repeat first
    [ apply (keeps_self_bind _ _ P); [done|intros ? ?]
    | match goal with
      | Ho : P ?o |- keeps _ _ (the_core ?o) => apply (Hcore o Ho)
      end
    | match goal with
      | |- keeps _ _ (the_core _) => fail 2
      end
    | apply keeps_lift; let He := fresh "He" in intros ? He; other_error He
    | keeps_step attribute_side ].
Qed.

Lemma init_has_core m d b lg : has_core {| self := __init__ m d b; log := lg |}.
Proof. intros Hav. unfold __init__. simpl. rewrite Hav. by eexists. Qed.

(** An object that holds the core whenever the engine could be imported,
    as every object that [__init__] has built does, never fails in
    [__call__] for an attribute of [None]: without the engine the
    assertion of [_load_model] comes first, and [exec_net] is set before
    the network is used. *)
Theorem call_finds_core_and_network generator g k t (s : state) :
  has_core s →
  (__call__ generator g k t s).1 ≠ Raise AttributeError.
Proof.
  intros Hcore.
  assert (Hload : match lazy_load generator g s with
                  | (Ok _, s1) => has_network s1
                  | (Raise e, _) => no_attribute_error e
                  end).
  { destruct (exec_net (self s)) as [e|] eqn:He.
    - rewrite (lazy_load_loaded _ _ _ _ He). by exists e.
    - rewrite (lazy_load_unloaded _ _ _ He).
      destruct is_available eqn:Hav.
      + pose proof (load_model_has_core generator g s (Hcore Hav)) as Hk.
        pose proof (load_model_cases generator g s) as Hcases.
        destruct (_load_model generator g s) as [[[gen1 g1]|e] s1]; [|by destruct Hk].
        destruct Hcases as [(net & evs & Hself & _) _].
        unfold has_network. rewrite Hself. by eexists.
      + rewrite (load_model_unavailable _ _ _ Hav). done. }
  rewrite call_unfold. unfold mbind, M_bind.
  destruct (lazy_load generator g s) as [[[gen1 g1]|e] s1]; simpl.
  - pose proof (call_body_has_network k t gen1 g1 s1 Hload) as Hk.
    destruct (call_body k t gen1 g1 s1) as [[a|e] s2]; simpl; [done|].
    intros [= ->]. by destruct Hk.
  - intros [= ->]. done.
Qed.
End Attributes.

Section CoreScenario.
Import Sim.

#[local] Existing Instance scenario_toolkit.

(** A fresh object, called on two batches. *)
Lemma call_finds_core_and_network_witness :
  has_core fresh
  ∧ (__call__ Source two_batches None None fresh).1 ≠ Raise AttributeError.
Proof.
  assert (Hcore : has_core fresh) by apply init_has_core.
  split; [exact Hcore|].
  exact (call_finds_core_and_network Source two_batches None None fresh Hcore).
Defined.
End CoreScenario.

(** ** Draining the queue *)

Section Drain.
Context {T E : Type} `{Scalar T} `{Engine T E} `{Toolkit E}.

Local Abbreviation M := (@M T E _).
Local Abbreviation state := (@state T E _).

(** [n] calls of [__next__] on a queue of at least [n] entries return its
    first [n] entries in order and leave the others; on a shorter queue
    they empty it and the call after the last entry raises [IndexError]. *)
Theorem next_n_takes_prefix (n : nat) (s : state) :
  next_n n s
  = if decide (n ≤ length (outputs (self s)))
    then (Ok (take n (outputs (self s))), with_outputs (drop n (outputs (self s))) s)
    else (Raise IndexError, with_outputs [] s).
Proof.
  destruct s as [o l]. destruct o as [c en m d b outs]. unfold with_outputs. simpl.
  revert outs. induction n as [|n IH]; intros outs.
  - simpl. by rewrite drop_0.
  - destruct outs as [|x outs].
    + simpl. reflexivity.
    + cbn [next_n].
      rewrite (bind_run __next__ _ _ x
                 {| self := {| ie := c; exec_net := en; model := m; model_dir := d;
                               batch_size := b; outputs := outs |};
                    log := l |}) by reflexivity.
      unfold mbind, M_bind. rewrite IH. simpl.
      destruct (decide (n ≤ length outs)), (decide (S n ≤ S (length outs))); try lia.
      * reflexivity.
      * reflexivity.
Qed.
End Drain.

(** ** The explicit failure points *)

Section FailurePoints.
Context {T E : Type} `{Scalar T} `{Engine T E} `{Toolkit E}.

Local Abbreviation M := (@M T E _).
Local Abbreviation state := (@state T E _).

(** The states an engine goes through: every call of the adapter that
    changes the engine is one step. *)
Inductive engine_steps : E → E → Prop :=
| steps_none e : engine_steps e e
| steps_poll e e' : engine_steps e e' → engine_steps e (get_idle_request_id e').2
| steps_wait n e e' : engine_steps e e' → engine_steps e (wait n e').2
| steps_infer i name x e e' : engine_steps e e' → engine_steps e (async_infer i name x e').

(** The network a conversion of the model of [s] gives. *)
Definition converted (s : state) (net : IENetwork) : Prop :=
  match model (self s) with
  | TorchModule m => ∃ inp_shape, net = read_network_from_buffer (onnx_export m inp_shape)
  | OtherModel _ =>
      net = read_network (path_join (model_dir (self s)) "model.xml")
                         (path_join (model_dir (self s)) "model.bin")
  end.

(** The engine a call starts with: the one in [exec_net], or the one
    that [load_network] makes of the converted model when there is none
    yet. *)
Definition started_from (s : state) (e : E) : Prop :=
  match exec_net (self s) with
  | Some e0 => e = e0
  | None => ∃ net, converted s net ∧ e = load_network net
  end.

(** The engine states of a call that starts in [s]. *)
Definition reached (s : state) (e0 : E) : Prop :=
  ∃ e, started_from s e ∧ engine_steps e e0.

Definition not_explicit (x : exn) : Prop := ∀ msg, x ≠ Exception msg.

Lemma load_model_not_explicit generator g :
  keeps (λ _ : state, True) not_explicit (_load_model generator g).
Proof.
  unfold _load_model, _read_torch_model, _read_tf_model, the_core.
  repeat first
    [ apply keeps_lift;
      let He := fresh "He" in
      intros ? He;
      first [ apply next_iter_raises in He
            | apply py_getitem_raises in He
            | apply strip_and_pin_raises in He
            | injection He as He ];
      subst; intros ? [=]
    | keeps_step ltac:(first [ done | intros ? [=] ]) ].
Qed.

Section Track.
Variable e_init : E.

Definition on_track (s : state) : Prop :=
  ∃ e0, exec_net (self s) = Some e0 ∧ engine_steps e_init e0.

(** A wait that did not return [OK], and the engine it left behind. *)
Definition wait_failure (msg : string) (s' : state) : Prop :=
  msg = wait_failed
  ∧ ∃ n e0, engine_steps e_init e0 ∧ is_OK (wait n e0).1 = false
            ∧ exec_net (self s') = Some (wait n e0).2.

(** An idle-request id that is negative again after a successful wait. *)
Definition id_failure (msg : string) (s' : state) : Prop :=
  msg = invalid_id
  ∧ ∃ e0, engine_steps e_init e0 ∧ is_OK (wait (Some 1%nat) e0).1 = true
          ∧ ((get_idle_request_id (wait (Some 1%nat) e0).2).1 < 0)%Z
          ∧ exec_net (self s') = Some (get_idle_request_id (wait (Some 1%nat) e0).2).2.

Definition explained (x : exn) (s' : state) : Prop :=
  ∀ msg, x = Exception msg → wait_failure msg s' ∨ id_failure msg s'.

Definition tracks {A} (m : M A) : Prop :=
  triple on_track m (λ _, on_track) explained.

Lemma tracks_bind {A B} (m : M A) (f : A → M B) :
  tracks m → (∀ a, tracks (f a)) → tracks (m ≫= f).
Proof. intros Hm Hf. eapply triple_bind; [exact Hm|]. intros a. apply Hf. Qed.

Lemma tracks_ret {A} (a : A) : tracks (mret a).
Proof. intros s Hs. exact Hs. Qed.

Lemma tracks_get_self : tracks get_self.
Proof. intros s Hs. exact Hs. Qed.

Lemma tracks_raise {A} x : not_explicit x → tracks (raise (A:=A) x).
Proof. intros Hx s Hs msg ->. by destruct (Hx msg). Qed.

Lemma tracks_lift {A} (r : result A) :
  (∀ x, r = Raise x → not_explicit x) → tracks (lift r).
Proof.
  intros Hr s Hs. unfold lift. destruct r as [a|x]; [done|].
  intros msg ->. by destruct (Hr _ eq_refl msg).
Qed.

Lemma tracks_py_assert b msg : tracks (py_assert b msg).
Proof. destruct b; [apply tracks_ret|]. apply tracks_raise. intros ? [=]. Qed.

Lemma tracks_modify_self f :
  (∀ o, exec_net (f o) = exec_net o) → tracks (modify_self f).
Proof. intros Hf s (e0 & He & Hst). exists e0. simpl. by rewrite Hf. Qed.

Lemma tracks_engine {A} (f : E → A * E) :
  (∀ e0, engine_steps e_init e0 → engine_steps e_init (f e0).2) → tracks (engine f).
Proof.
  intros Hf s (e0 & He & Hst). unfold engine. rewrite He.
  specialize (Hf e0 Hst). destruct (f e0) as [a e']. by exists e'.
Qed.

Lemma tracks_for_enumerate {A L} (body : nat → A → L → M L) :
  (∀ i x l, tracks (body i x l)) → ∀ items i l, tracks (for_enumerate body i items l).
Proof.
  intros Hbody. induction items as [|x items IH]; intros i l; simpl.
  - apply tracks_ret.
  - apply tracks_bind; [apply Hbody|]. intros l'. apply IH.
Qed.

Ltac tracks_side :=
  first
    [ done
    | solve [ let He := fresh "He" in
              intros ? He;
              first [ apply py_getitem_raises in He | apply py_setitem_raises in He ];
              subst; intros ? [=] ]
    | solve [ intros ? [=] ]
    | solve [ let Hst := fresh "Hst" in
              intros ? Hst; simpl; first [ exact Hst | by constructor ] ] ].

Ltac tracks_auto :=
  repeat first
    [ apply tracks_ret
    | apply tracks_get_self
    | apply tracks_py_assert
    | apply tracks_bind; [|intros]
    | apply tracks_raise; tracks_side
    | apply tracks_lift; tracks_side
    | apply tracks_modify_self; tracks_side
    | apply tracks_engine; tracks_side
    | apply tracks_for_enumerate; intros
    | match goal with |- tracks (match ?x with _ => _ end) => destruct x end ].

Lemma idle_request_tracks : tracks idle_request.
Proof.
  intros s (e0 & He & Hst). unfold idle_request, mbind, M_bind, engine. rewrite He.
  pose proof (steps_poll _ _ Hst) as Hst1.
  destruct (get_idle_request_id e0) as [id e1]. simpl in *.
  destruct (id <? 0)%Z; [|by exists e1]. simpl.
  pose proof (steps_wait (Some 1) _ _ Hst1) as Hst2.
  destruct (wait (Some 1) e1) as [st e2] eqn:Hw. simpl in *.
  destruct (is_OK st) eqn:Hok; simpl.
  - pose proof (steps_poll _ _ Hst2) as Hst3.
    destruct (get_idle_request_id e2) as [id2 e3] eqn:Hid2. simpl in *.
    destruct (id2 <? 0)%Z eqn:Hneg; simpl; [|by exists e3].
    apply Z.ltb_lt in Hneg.
    intros msg [= <-]. right. split; [done|]. exists e1.
    rewrite Hw. simpl. rewrite Hid2. simpl. done.
  - intros msg [= <-]. left. split; [done|]. exists (Some 1), e1.
    rewrite Hw. simpl. done.
Qed.

Lemma submit_batch_tracks inp_name out_name k t j b l :
  tracks (submit_batch inp_name out_name k t j b l).
Proof.
  unfold submit_batch. destruct l as [table lbs], b as [[inputs labels] weights].
  apply tracks_bind; [apply tracks_lift; tracks_side|]. intros x1.
  apply tracks_bind; [apply tracks_get_self|]. intros self0.
  apply tracks_bind; [tracks_auto|]. intros x2.
  apply tracks_bind; [apply idle_request_tracks|]. intros id.
  unfold request_at, store_output, engine_read. tracks_auto.
Qed.

Lemma collect_rest_tracks out_name l : tracks (collect_rest out_name l).
Proof.
  destruct l as [table lbs]. intros s (e0 & He & Hst).
  unfold collect_rest, mbind at 1, M_bind at 1, engine. rewrite He.
  pose proof (steps_wait None _ _ Hst) as Hst1.
  destruct (wait None e0) as [st e1] eqn:Hw. simpl in Hst1.
  unfold mbind at 1, M_bind at 1.
  destruct (is_OK st) eqn:Hok; simpl.
  - assert (Hloop : tracks (for_enumerate (collect_output out_name lbs) 0 table ())).
    { unfold collect_output, request_at, store_output, engine_read. tracks_auto. }
    apply Hloop. by exists e1.
  - intros msg [= <-]. left. split; [done|]. exists None, e0. rewrite Hw. simpl. done.
Qed.

Lemma call_body_tracks k t generator g : tracks (call_body k t generator g).
Proof.
  unfold call_body, first_key, submit_all, engine_read.
  apply tracks_bind; [tracks_auto|]. intros input_keys.
  apply tracks_bind; [tracks_auto|]. intros _.
  apply tracks_bind; [tracks_auto|]. intros output_keys.
  apply tracks_bind; [tracks_auto|]. intros _.
  apply tracks_bind; [tracks_auto|]. intros inp_name.
  apply tracks_bind; [tracks_auto|]. intros out_name.
  destruct (tee generator g) as [gc gen2].
  apply tracks_bind.
  { apply tracks_bind; [tracks_auto|]. intros n.
    apply tracks_for_enumerate. intros. apply submit_batch_tracks. }
  intros l. apply tracks_bind; [apply collect_rest_tracks|]. intros _. apply tracks_ret.
Qed.
End Track.

Lemma load_model_network generator g (s : state) generator1 g1 s0 :
  _load_model generator g s = (Ok (generator1, g1), s0) →
  ∃ net, converted s net ∧ exec_net (self s0) = Some (load_network net).
Proof.
  unfold _load_model, converted. intros Hload.
  apply bind_Ok in Hload as (self0 & s1 & [= <- <-] & Hload).
  apply bind_Ok in Hload as (u & s1 & [_ ->]%py_assert_Ok & Hload).
  apply bind_Ok in Hload as ([[net gen2] g2] & s2 & Hread & Hload).
  apply bind_Ok in Hload as (c & s3 & Hcore & Hload).
  apply bind_Ok in Hload as (u1 & s4 & Hemit & Hload).
  apply bind_Ok in Hload as (u2 & s5 & Hset & Hload).
  injection Hload as _ _ <-. injection Hset as _ <-.
  exists net. split; [|done].
  destruct (model (self s)) as [m|m] eqn:Hmodel.
  - unfold _read_torch_model in Hread.
    apply bind_Ok in Hread as (self0 & s6 & [= <- <-] & Hread).
    destruct (tee generator g) as [gc gen'].
    apply bind_Ok in Hread as ([[b gc'] g3] & s6 & _ & Hread).
    destruct b as [[inputs labels] weights].
    apply bind_Ok in Hread as (u0 & s7 & _ & Hread).
    apply bind_Ok in Hread as (x & s8 & _ & Hread).
    apply bind_Ok in Hread as (m' & s9 & Hm & Hread).
    rewrite Hmodel in Hm. injection Hm as <- _.
    apply bind_Ok in Hread as (u3 & s10 & _ & Hread).
    apply bind_Ok in Hread as (c' & s11 & _ & Hread).
    apply bind_Ok in Hread as (u4 & s12 & _ & Hread).
    injection Hread as <- _ _ _. eexists. reflexivity.
  - apply bind_Ok in Hread as (net' & s6 & Hread & Hret). injection Hret as <- _ _ _.
    unfold _read_tf_model in Hread.
    apply bind_Ok in Hread as (self0 & s7 & [= <- <-] & Hread).
    apply bind_Ok in Hread as (m' & s8 & _ & Hread).
    apply bind_Ok in Hread as (v0 & s9 & _ & Hread).
    apply bind_Ok in Hread as (nodes & s10 & _ & Hread).
    apply bind_Ok in Hread as (v1 & s11 & _ & Hread).
    apply bind_Ok in Hread as (v2 & s12 & _ & Hread).
    apply bind_Ok in Hread as (v3 & s13 & _ & Hread).
    apply bind_Ok in Hread as (v4 & s14 & _ & Hread).
    apply bind_Ok in Hread as (c' & s15 & _ & Hread).
    apply bind_Ok in Hread as (v5 & s16 & _ & Hread).
    by injection Hread as <- _.
Qed.

(** The engine after the lazy load is one the call starts from. *)
Lemma lazy_load_started generator g (s : state) :
  match lazy_load generator g s with
  | (Ok _, s0) => ∃ e, started_from s e ∧ exec_net (self s0) = Some e
  | (Raise x, _) => not_explicit x
  end.
Proof.
  unfold started_from. destruct (exec_net (self s)) as [e|] eqn:He.
  - rewrite (lazy_load_loaded _ _ _ _ He). by exists e.
  - rewrite (lazy_load_unloaded _ _ _ He).
    pose proof (load_model_not_explicit generator g s I) as Hk.
    destruct (_load_model generator g s) as [[[gen1 g1]|x] s0] eqn:Hrun; [|by destruct Hk].
    destruct (load_model_network _ _ _ _ _ _ Hrun) as (net & Hnet & Hs0).
    exists (load_network net). split; [by exists net|done].
Qed.

(** *** Reaching the failure points *)

Lemma bind_raises {A B} (m : M A) (f : A → M B) (s : state) x s' :
  m s = (Raise x, s') → (m ≫= f) s = (Raise x, s').
Proof. unfold mbind, M_bind. by intros ->. Qed.

Lemma idle_request_raises (s : state) e :
  exec_net (self s) = Some e →
  ((get_idle_request_id e).1 < 0)%Z →
  let e2 := (get_idle_request_id e).2 in
  (is_OK (wait (Some 1%nat) e2).1 = false →
     idle_request s = (Raise (Exception wait_failed), on_engine (wait (Some 1%nat) e2).2 s))
  ∧ (is_OK (wait (Some 1%nat) e2).1 = true →
     ((get_idle_request_id (wait (Some 1%nat) e2).2).1 < 0)%Z →
     idle_request s
     = (Raise (Exception invalid_id),
        on_engine (get_idle_request_id (wait (Some 1%nat) e2).2).2 s)).
Proof.
  intros He Hneg e2. subst e2.
  unfold idle_request, mbind, M_bind, engine, on_engine. rewrite He.
  destruct (get_idle_request_id e) as [id e1]. simpl in *.
  apply Z.ltb_lt in Hneg. rewrite Hneg. simpl.
  destruct (wait (Some 1) e1) as [st e2]. simpl.
  split.
  - intros Hst. by rewrite Hst.
  - intros Hst Hneg2. rewrite Hst. simpl.
    destruct (get_idle_request_id e2) as [id2 e3]. simpl in *.
    apply Z.ltb_lt in Hneg2. by rewrite Hneg2.
Qed.

Lemma submit_batch_idle_raises inp_name out_name k t j b l (s : state) x0 x s' :
  head (prepared k t b) = Some x0 →
  length (rows x0) ≤ batch_size (self s) →
  idle_request s = (Raise x, s') →
  submit_batch inp_name out_name k t j b l s = (Raise x, s').
Proof.
  intros Hx Hrows Hidle. destruct l as [table lbs].
  unfold submit_batch. destruct b as [[inputs labels] weights].
  unfold prepared in Hx. simpl in Hx.
  set (prep := match k with Some k0 => k0 inputs | None => _ end) in *.
  assert (Hget : lift (py_getitem prep 0) s = (Ok x0, s)).
  { destruct prep as [|y prep']; [done|]. simpl in Hx. by injection Hx as ->. }
  rewrite (bind_run _ _ _ _ _ Hget).
  rewrite (bind_run get_self _ s (self s) s) by done.
  assert (Hpad : ∃ x', (if negb (length (rows x0) =? batch_size (self s))
                 then _ ← py_assert (length (rows x0) <? batch_size (self s)) "";
                      mret (pad_batch (batch_size (self s)) x0)
                 else mret x0) s = (Ok x', s)).
  { destruct (length (rows x0) =? batch_size (self s)) eqn:Heq; simpl; [by eexists|].
    apply Nat.eqb_neq in Heq.
    replace (length (rows x0) <? batch_size (self s)) with true
      by (symmetry; apply Nat.ltb_lt; lia).
    by eexists. }
  destruct Hpad as (x' & Hpad). rewrite (bind_run _ _ _ _ _ Hpad).
  by apply bind_raises.
Qed.

Lemma for_enumerate_app {A L} (body : nat → A → L → M L) front rest :
  ∀ i l (s : state) l1 s1,
    for_enumerate body i front l s = (Ok l1, s1) →
    for_enumerate body i (front ++ rest) l s
    = for_enumerate body (i + length front) rest l1 s1.
Proof.
  induction front as [|x front IH]; intros i l s l1 s1 Hrun; simpl in *.
  - injection Hrun as <- <-. by rewrite Nat.add_0_r.
  - apply bind_Ok in Hrun as (l2 & s2 & Hx & Hrun).
    rewrite (bind_run _ _ _ _ _ Hx), (IH _ _ _ _ _ Hrun). f_equal. lia.
Qed.

Lemma submit_all_prefix inp_name out_name k t front rest (s : state) l s1 :
  submit_all inp_name out_name k t front s = (Ok l, s1) →
  submit_all inp_name out_name k t (front ++ rest) s
  = for_enumerate (submit_batch inp_name out_name k t) (length front) rest l s1.
Proof.
  unfold submit_all. intros Hrun.
  apply bind_Ok in Hrun as (n & s0 & Hn & Hrun).
  rewrite (bind_run _ _ _ _ _ Hn). by rewrite (for_enumerate_app _ _ _ _ _ _ _ _ Hrun).
Qed.

Lemma collect_rest_raises out_name l (s : state) e :
  exec_net (self s) = Some e →
  is_OK (wait None e).1 = false →
  collect_rest out_name l s = (Raise (Exception wait_failed), on_engine (wait None e).2 s).
Proof.
  intros He Hst. destruct l as [table lbs].
  unfold collect_rest, mbind, M_bind, engine, on_engine. rewrite He.
  destruct (wait None e) as [st e1]. simpl in *. by rewrite Hst.
Qed.

(** C3.  An explicit exception of [__call__] carries one of two messages
    and comes from one of two failure points of this very call: a wait of
    the engine (for one request inside the loop, or for all of them after
    it) that returned a status other than [OK], or an idle-request id that
    is negative again after a successful wait; the object is left with the
    engine as that last engine call left it.  Conversely, whenever the
    call gets to such a point it raises: once the load step has returned,
    the loop has handled the batches before a batch [b] whose first input
    fits, and the engine has no idle request, a wait for one request that
    is not [OK] makes [__call__] raise the first message, and a successful
    wait followed by a negative id makes it raise the second; and when the
    loop has handled every batch, a final wait that is not [OK] makes it
    raise the first message.  When every wait of the engine states of the
    call returns [OK] and the id after a wait is never negative,
    [__call__] raises no explicit exception. *)
Theorem explicit_failure_points generator g k t (s : state) :
  (∀ msg s', __call__ generator g k t s = (Raise (Exception msg), s') →
     (msg = wait_failed
      ∧ ∃ n e0, reached s e0 ∧ is_OK (wait n e0).1 = false
                ∧ exec_net (self s') = Some (wait n e0).2)
     ∨ (msg = invalid_id
        ∧ ∃ e0, reached s e0 ∧ is_OK (wait (Some 1%nat) e0).1 = true
                ∧ ((get_idle_request_id (wait (Some 1%nat) e0).2).1 < 0)%Z
                ∧ exec_net (self s')
                  = Some (get_idle_request_id (wait (Some 1%nat) e0).2).2))
  ∧ (∀ generator1 g1 s0 e inp_name out_name front b rest x l s1 e1,
       lazy_load generator g s = (Ok (generator1, g1), s0) →
       exec_net (self s0) = Some e →
       input_info e = [inp_name] → net_outputs e = [out_name] →
       remaining generator1 g1 = front ++ b :: rest →
       submit_all inp_name out_name k t front s0 = (Ok l, s1) →
       exec_net (self s1) = Some e1 →
       head (prepared k t b) = Some x → length (rows x) ≤ batch_size (self s1) →
       ((get_idle_request_id e1).1 < 0)%Z →
       let e2 := (get_idle_request_id e1).2 in
       (is_OK (wait (Some 1%nat) e2).1 = false →
          __call__ generator g k t s
          = (Raise (Exception wait_failed), on_engine (wait (Some 1%nat) e2).2 s1))
       ∧ (is_OK (wait (Some 1%nat) e2).1 = true →
          ((get_idle_request_id (wait (Some 1%nat) e2).2).1 < 0)%Z →
          __call__ generator g k t s
          = (Raise (Exception invalid_id),
             on_engine (get_idle_request_id (wait (Some 1%nat) e2).2).2 s1)))
  ∧ (∀ generator1 g1 s0 e inp_name out_name l s1 e1,
       lazy_load generator g s = (Ok (generator1, g1), s0) →
       exec_net (self s0) = Some e →
       input_info e = [inp_name] → net_outputs e = [out_name] →
       submit_all inp_name out_name k t (remaining generator1 g1) s0 = (Ok l, s1) →
       exec_net (self s1) = Some e1 →
       is_OK (wait None e1).1 = false →
       __call__ generator g k t s
       = (Raise (Exception wait_failed), on_engine (wait None e1).2 s1))
  ∧ ((∀ n e0, reached s e0 → is_OK (wait n e0).1 = true) →
     (∀ e0, reached s e0 → (0 ≤ (get_idle_request_id (wait (Some 1%nat) e0).2).1)%Z) →
     ∀ msg, (__call__ generator g k t s).1 ≠ Raise (Exception msg)).
Proof.
  assert (Hexact : ∀ msg s',
    __call__ generator g k t s = (Raise (Exception msg), s') →
    (msg = wait_failed
     ∧ ∃ n e0, reached s e0 ∧ is_OK (wait n e0).1 = false
               ∧ exec_net (self s') = Some (wait n e0).2)
    ∨ (msg = invalid_id
       ∧ ∃ e0, reached s e0 ∧ is_OK (wait (Some 1%nat) e0).1 = true
               ∧ ((get_idle_request_id (wait (Some 1%nat) e0).2).1 < 0)%Z
               ∧ exec_net (self s')
                 = Some (get_idle_request_id (wait (Some 1%nat) e0).2).2)).
  { intros msg s' Hcall. rewrite call_unfold in Hcall.
    pose proof (lazy_load_started generator g s) as Hload.
    destruct (lazy_load generator g s) as [[[gen1 g1]|x] s0] eqn:Hrun.
    - destruct Hload as (e & Hstart & He).
      rewrite (bind_run _ _ _ _ _ Hrun) in Hcall.
      assert (Htrack : on_track e s0) by (exists e; split; [done|constructor]).
      pose proof (call_body_tracks e k t gen1 g1 s0 Htrack) as Hbody.
      rewrite Hcall in Hbody.
      destruct (Hbody msg eq_refl) as [[-> (n & e0 & Hst & Hok & Hs')]
                                      |[-> (e0 & Hst & Hok & Hneg & Hs')]].
      + left. split; [done|]. exists n, e0. split; [by exists e|done].
      + right. split; [done|]. exists e0. split; [by exists e|done].
    - rewrite (bind_raises _ _ _ _ _ Hrun) in Hcall. injection Hcall as -> _.
      by destruct (Hload msg). }
  split; [exact Hexact|]. split; [|split].
  - intros gen1 g1 s0 e inp_name out_name front b rest x l s1 e1
      Hload He Hin Hout Hrem Hfront He1 Hx Hrows Hneg e2.
    assert (Hcall : ∀ x' s', idle_request s1 = (Raise x', s') →
                             __call__ generator g k t s = (Raise x', s')).
    { intros x' s' Hidle.
      rewrite call_unfold, (bind_run _ _ _ _ _ Hload).
      rewrite (call_body_start k t gen1 g1 s0 e inp_name out_name He Hin Hout), Hrem.
      apply bind_raises. rewrite (submit_all_prefix _ _ _ _ _ _ _ _ _ Hfront).
      cbn [for_enumerate]. apply bind_raises.
      by apply (submit_batch_idle_raises _ _ _ _ _ _ _ _ x). }
    destruct (idle_request_raises s1 e1 He1 Hneg) as [Hwait Hid].
    split.
    + intros Hst. by apply Hcall, Hwait.
    + intros Hst Hneg2. by apply Hcall, Hid.
  - intros gen1 g1 s0 e inp_name out_name l s1 e1 Hload He Hin Hout Hloop He1 Hst.
    rewrite call_unfold, (bind_run _ _ _ _ _ Hload).
    rewrite (call_body_start k t gen1 g1 s0 e inp_name out_name He Hin Hout).
    rewrite (bind_run _ _ _ _ _ Hloop).
    apply bind_raises. by apply collect_rest_raises.
  - intros Hwait Hidle msg Hr.
    destruct (__call__ generator g k t s) as [r s'] eqn:Hcall. simpl in Hr. subst r.
    destruct (Hexact msg s' eq_refl) as [[_ (n & e0 & Hst & Hok & _)]
                                        |[_ (e0 & Hst & _ & Hneg & _)]].
    + rewrite (Hwait n e0 Hst) in Hok. discriminate.
    + specialize (Hidle e0 Hst). lia.
Qed.
End FailurePoints.

(** ** Runs that reach the failure points *)

Section FailureScenarios.
Import Sim.
Import Eager.

#[local] Existing Instance scenario_toolkit.
#[local] Existing Instance eager_toolkit.

(** One request that never finishes, with a wait that fails and with
    waits that succeed; two requests whose final wait fails. *)
Definition stuck_failing : Sim.pool := new_pool 1 [0] [] [Failed 1].
Definition stuck : Sim.pool := new_pool 1 [0] [] [].
Definition failing_at_end : Sim.pool := new_pool 2 [0; 1] [] [Failed 1].

Lemma explicit_failure_points_witness :
  (__call__ Source two_batches None None (loaded stuck_failing [])).1
    = Raise (Exception "Wait for idle request failed!")
  ∧ (__call__ Source two_batches None None (loaded stuck [])).1
    = Raise (Exception "Invalid request id!")
  ∧ (__call__ Source two_batches None None (loaded failing_at_end [])).1
    = Raise (Exception "Wait for idle request failed!")
  ∧ (__call__ Source two_batches None None eager).1
    = Ok (TeeIter 0, Stream [] [two_rows; one_row])
  ∧ ∀ msg, (__call__ Source two_batches None None eager).1 ≠ Raise (Exception msg).
Proof.
  split; [|split; [|split; [|split]]].
  - set (s := loaded stuck_failing []).
    set (r := submit_all "x" "y" None None [two_rows] s).
    pose proof (proj1 (proj2 (explicit_failure_points Source two_batches None None s))
                  Source two_batches s stuck_failing "x"%string "y"%string
                  [two_rows] one_row [] (NDArray [[5; 6]]%Z [2])
                  (match r.1 with Ok l => l | Raise _ => ([], None) end) r.2
                  (default stuck_failing (exec_net (self r.2)))
                  ltac:(vm_compute; reflexivity) ltac:(vm_compute; reflexivity)
                  ltac:(vm_compute; reflexivity) ltac:(vm_compute; reflexivity)
                  ltac:(vm_compute; reflexivity) ltac:(vm_compute; reflexivity)
                  ltac:(vm_compute; reflexivity) ltac:(vm_compute; reflexivity)
                  ltac:(vm_compute; lia) ltac:(vm_compute; reflexivity)) as Hrun.
    cbv zeta in Hrun. destruct Hrun as [Hwait _].
    rewrite Hwait by (vm_compute; reflexivity). reflexivity.
  - set (s := loaded stuck []).
    set (r := submit_all "x" "y" None None [two_rows] s).
    pose proof (proj1 (proj2 (explicit_failure_points Source two_batches None None s))
                  Source two_batches s stuck "x"%string "y"%string
                  [two_rows] one_row [] (NDArray [[5; 6]]%Z [2])
                  (match r.1 with Ok l => l | Raise _ => ([], None) end) r.2
                  (default stuck (exec_net (self r.2)))
                  ltac:(vm_compute; reflexivity) ltac:(vm_compute; reflexivity)
                  ltac:(vm_compute; reflexivity) ltac:(vm_compute; reflexivity)
                  ltac:(vm_compute; reflexivity) ltac:(vm_compute; reflexivity)
                  ltac:(vm_compute; reflexivity) ltac:(vm_compute; reflexivity)
                  ltac:(vm_compute; lia) ltac:(vm_compute; reflexivity)) as Hrun.
    cbv zeta in Hrun. destruct Hrun as [_ Hid].
    rewrite Hid by (vm_compute; reflexivity). reflexivity.
  - set (s := loaded failing_at_end []).
    set (r := submit_all "x" "y" None None [two_rows; one_row] s).
    pose proof (proj1 (proj2 (proj2 (explicit_failure_points Source two_batches None None s)))
                  Source two_batches s failing_at_end "x"%string "y"%string
                  (match r.1 with Ok l => l | Raise _ => ([], None) end) r.2
                  (default failing_at_end (exec_net (self r.2)))
                  ltac:(vm_compute; reflexivity) ltac:(vm_compute; reflexivity)
                  ltac:(vm_compute; reflexivity) ltac:(vm_compute; reflexivity)
                  ltac:(vm_compute; reflexivity) ltac:(vm_compute; reflexivity)
                  ltac:(vm_compute; reflexivity)) as Hrun.
    rewrite Hrun. reflexivity.
  - vm_compute. reflexivity.
  - apply (proj2 (proj2 (proj2 (explicit_failure_points Source two_batches None None eager)))).
    + intros n e0 _. reflexivity.
    + intros e0 _. simpl. lia.
Defined.
End FailureScenarios.
